(** * Estimator: scoring engine, sequential aggregator, parallel scheduler
          and interactive front end
    
        A shallow embedding of [index.ts]: its computational core
        ([roundUpToFib], [estimate], [calculateEpicEstimate] and
        [calculateParallelEstimate]) and the front end that feeds it
        ([fibonacciToDays], [addDevelopers], [createTask], the file name of
        [saveEpicToFile] and [main]).
    
        Numbers.  A JavaScript [number] is an IEEE-754 binary64 value.  The
        scoring engine multiplies ratings by fractional weights and the
        scheduler divides by a developer's capacity; both round, and the rounding
        is observable, so these are computed with the Standard Library's
        executable specification of binary64 arithmetic ([SpecFloat] at
        precision 53, [emax] 1024).  Effort units are integers and sequential
        durations are multiples of one half: binary64 adds such values exactly
        as long as they stay below 2^53 in magnitude (an array of fewer than
        2^32 tasks of at most 8 points each stays far below), so they are
        carried as [Z] and [Q].
    
        Objects used as maps ([tasksByDev], [devEstimates]) are association
        lists in insertion order, which is the order [Object.entries] enumerates
        string keys that are not array indices.  Developer ids have the form
        [dev-N].  The grouping object starts as [{}] and inherits the
        properties of [Object.prototype]: under the name of one of them (such
        as [constructor]) [acc[key]] is not empty before any assignment and has
        no [push], so that grouping a task assigned to such a name throws a
        [TypeError].  The call with this outcome is
        [calculateParallelEstimate_call]; [tasksByDev] and
        [calculateParallelEstimate] are the object and the estimate that it
        returns when it returns.
    
        Dates.  The calendar is the runtime's: the code copies today's date and
        moves it with [setDate(getDate() + k)].  The date type and that
        operation are parameters of the two estimates, and today's date, which
        the code reads from the clock, is an argument.
    
        Prompts.  The front end asks and the user answers; the answers are
        arguments, and so are the runtime's [parseFloat] and [trim].  A prompt
        that the user closes rejects instead of returning an answer: which
        prompts do, and with which error, is part of the answers. *)
    
    From Stdlib Require Import ZArith QArith Qround Qabs List String Bool Lia.
From Stdlib Require Import Permutation SpecFloat.
From Stdlib Require Import NArith DecimalString DecimalPos DecimalZ Lqa FinFun.
Import ListNotations.

Local Open Scope Z_scope.

(** ** Binary64 numbers *)

Module Num.

Definition prec : Z := 53.
Definition emax : Z := 1024.

Definition number : Type := spec_float.

Definition add : number -> number -> number := SFadd prec emax.
Definition mul : number -> number -> number := SFmul prec emax.
Definition div : number -> number -> number := SFdiv prec emax.
Definition leb : number -> number -> bool := SFleb.
Definition ltb : number -> number -> bool := SFltb.
Definition eqb : number -> number -> bool := SFeqb.

(** An integer literal, or an integer converted to a number (round to
    nearest even beyond 2^53). *)
Definition of_Z (z : Z) : number := binary_normalize prec emax z 0 false.

(** A decimal literal [n / d] with [n] and [d] exactly representable: the
    parser returns the binary64 value nearest to the decimal, and so does
    the correctly rounded quotient. *)
Definition lit (n d : Z) : number := div (of_Z n) (of_Z d).

Definition zero : number := S754_zero false.

(** A well-formed binary64 value. *)
Definition valid (x : number) : bool := valid_binary prec emax x.

(** A positive real: finite, well formed and greater than zero. *)
Definition positive_finite (x : number) : bool :=
  match x with
  | S754_finite false m e => bounded prec emax m e
  | _ => false
  end.

(** The signed mantissa of a finite number. *)
Definition mantissa (s : bool) (m : positive) : Z :=
  if s then Zneg m else Zpos m.

(** The exact rational value of a finite number (0 for the others). *)
Definition toQ (x : number) : Q :=
  match x with
  | S754_finite s m e =>
      match e with
      | Z0 => inject_Z (mantissa s m)
      | Zpos p => inject_Z (mantissa s m * Z.pow_pos 2 p)
      | Zneg p => Qmake (mantissa s m) (Pos.pow 2 p)
      end
  | _ => 0%Q
  end.

(** [Math.ceil]: a finite number with a negative exponent has a fractional
    part to round up; a result of zero keeps the sign of the argument. *)
Definition Math_ceil (x : number) : number :=
  match x with
  | S754_finite s m (Zneg p) =>
      let k := - ((- mantissa s m) / Z.pow_pos 2 p) in
      if k =? 0 then S754_zero s else of_Z k
  | _ => x
  end.

(** [Math.max] of two arguments: NaN is contagious and [-0] is below [+0]. *)
Definition Math_max (x y : number) : number :=
  match SFcompare x y with
  | None => S754_nan
  | Some Lt => y
  | Some Gt => x
  | Some Eq => match x with S754_zero true => y | _ => x end
  end.

End Num.

Import Num.

(** ** Factor model *)

(** Fibonacci numbers used for rounding. *)
Definition FIB_NUMS : list Z := [1; 2; 3; 5; 8].

Inductive Factor : Type :=
| uncertainty
| complexity
| testability
| legacyImpact
| integrationDifficulty
| refactorEffort
| dependencies
| requirementVolatility.

(** The keys of [WEIGHTS] (and of every [EstimateFactors] object built by
    [createTask], which inserts them in this order). *)
Definition factor_keys : list Factor :=
  [uncertainty; complexity; testability; legacyImpact;
   integrationDifficulty; refactorEffort; dependencies;
   requirementVolatility].

Record EstimateFactors : Type := mkFactors {
  f_uncertainty : number;
  f_complexity : number;
  f_testability : number;
  f_legacyImpact : number;
  f_integrationDifficulty : number;
  f_refactorEffort : number;
  f_dependencies : number;
  f_requirementVolatility : number
}.

(** [factors[key]] *)
Definition get (factors : EstimateFactors) (key : Factor) : number :=
  match key with
  | uncertainty => f_uncertainty factors
  | complexity => f_complexity factors
  | testability => f_testability factors
  | legacyImpact => f_legacyImpact factors
  | integrationDifficulty => f_integrationDifficulty factors
  | refactorEffort => f_refactorEffort factors
  | dependencies => f_dependencies factors
  | requirementVolatility => f_requirementVolatility factors
  end.

Definition WEIGHTS (key : Factor) : number :=
  match key with
  | uncertainty => lit 8 10
  | complexity => lit 6 10
  | testability => lit 4 10
  | legacyImpact => lit 5 10
  | integrationDifficulty => lit 7 10
  | refactorEffort => lit 4 10
  | dependencies => lit 5 10
  | requirementVolatility => lit 4 10
  end.

(** ** Scoring engine *)

Fixpoint roundUpToFib_scan (fibs : list Z) (n : number) : Z :=
  match fibs with
  | [] => 8
  | f :: rest => if leb n (of_Z f) then f else roundUpToFib_scan rest n
  end.

Definition roundUpToFib (n : number) : Z := roundUpToFib_scan FIB_NUMS n.

Record Estimate : Type := mkEstimate {
  rawScore : number;
  fibonacciEstimate : Z
}.

(** [Object.entries(factors)] *)
Definition entries (factors : EstimateFactors) : list (Factor * number) :=
  map (fun key => (key, get factors key)) factor_keys.

Definition estimate (factors : EstimateFactors) : Estimate :=
  let rawScore :=
    fold_left (fun sum kv => add sum (mul (snd kv) (WEIGHTS (fst kv))))
              (entries factors) zero in
  {| rawScore := rawScore; fibonacciEstimate := roundUpToFib rawScore |}.

(** ** Ratings *)

(** A rating value: an integer from 0 to 3, as [createTask] admits it. *)
Definition rating_value (x : number) : Prop :=
  exists v : Z, 0 <= v <= 3 /\ x = of_Z v.

Definition is_rating (factors : EstimateFactors) : Prop :=
  forall key, rating_value (get factors key).

Definition rating (a b c d e f g h : Z) : EstimateFactors :=
  mkFactors (of_Z a) (of_Z b) (of_Z c) (of_Z d)
            (of_Z e) (of_Z f) (of_Z g) (of_Z h).

(** The same object with one dimension re-rated. *)
Definition set (factors : EstimateFactors) (key : Factor) (v : number)
  : EstimateFactors :=
  let at_key k := match key, k with
    | uncertainty, uncertainty | complexity, complexity
    | testability, testability | legacyImpact, legacyImpact
    | integrationDifficulty, integrationDifficulty
    | refactorEffort, refactorEffort | dependencies, dependencies
    | requirementVolatility, requirementVolatility => v
    | _, _ => get factors k
    end in
  mkFactors (at_key uncertainty) (at_key complexity) (at_key testability)
            (at_key legacyImpact) (at_key integrationDifficulty)
            (at_key refactorEffort) (at_key dependencies)
            (at_key requirementVolatility).

(** ** Tasks and developers *)

Inductive Category : Type := Backend | Frontend | Design.

(** The per-factor notes of a task are free text that no computation reads;
    they are left out. *)
Record Task : Type := mkTask {
  name : string;
  category : Category;
  assignedTo : string;
  factors : EstimateFactors;
  task_rawScore : number;
  task_fibonacciEstimate : Z
}.

Record Developer : Type := mkDeveloper {
  id : string;
  dev_name : string;
  role : Category;
  capacity : number
}.

(** ** Calls *)

(** What a call does: it returns, throws an error with a message, or (a call
    of the front end) is still waiting for an answer. *)
Inductive outcome (A : Type) : Type :=
| Returned (a : A)
| Thrown (message : string)
| Waiting.

Arguments Returned {A} a.
Arguments Thrown {A} message.
Arguments Waiting {A}.

(** ** Sequential aggregator *)

Definition pointToDaysMap : list (Z * Q) :=
  [(1, 1%Q); (2, 1%Q); (3, 3 # 2); (5, 5 # 2); (8, 5%Q)].

(** [pointToDaysMap[fib] || 0] *)
Definition pointToDays (fib : Z) : Q :=
  match find (fun kv => fst kv =? fib) pointToDaysMap with
  | Some kv => snd kv
  | None => 0%Q
  end.

(** ** Parallel scheduler: grouping and per-developer step *)

Record DevEstimate : Type := mkDevEstimate {
  de_name : string;
  days : number;
  points : Z
}.

(** [obj[key]] on an object used as a map. *)
Fixpoint lookup {A : Type} (key : string) (obj : list (string * A))
  : option A :=
  match obj with
  | [] => None
  | (k, v) :: rest => if String.eqb k key then Some v else lookup key rest
  end.

(** [obj[key] = v]: an existing key keeps its place, a new one goes last. *)
Fixpoint assign {A : Type} (key : string) (v : A) (obj : list (string * A))
  : list (string * A) :=
  match obj with
  | [] => [(key, v)]
  | (k, w) :: rest =>
      if String.eqb k key then (k, v) :: rest
      else (k, w) :: assign key v rest
  end.

(** What [if (!acc[key]) acc[key] = []; acc[key].push(task)] does to [acc]
    when [acc[key]] is an array or nothing: the task goes last in the array
    of its key, and a new key goes last in the object.  The other case is
    that of [groupTask]. *)
Fixpoint push (key : string) (task : Task) (acc : list (string * list Task))
  : list (string * list Task) :=
  match acc with
  | [] => [(key, [task])]
  | (k, ts) :: rest =>
      if String.eqb k key then (k, ts ++ [task]) :: rest
      else (k, ts) :: push key task rest
  end.

(** The object that the grouping [reduce] returns, when it returns. *)
Definition tasksByDev (tasks : list Task) : list (string * list Task) :=
  fold_left (fun acc task => push (assignedTo task) task acc) tasks [].

(** The names of the properties that an object created by [{}] inherits
    from [Object.prototype].  Under such a name, and before any assignment,
    [acc[key]] is a function or the prototype itself: it is not empty, and
    it has no [push]. *)
Definition inherited_names : list string :=
  ["constructor"; "__defineGetter__"; "__defineSetter__"; "hasOwnProperty";
   "__lookupGetter__"; "__lookupSetter__"; "isPrototypeOf";
   "propertyIsEnumerable"; "toString"; "valueOf"; "__proto__";
   "toLocaleString"]%string.

Definition inherited (key : string) : bool :=
  existsb (String.eqb key) inherited_names.

(** The message of the [TypeError] of a call of [push] that finds no such
    function, in the engine's words. *)
Definition not_a_function : string :=
  "acc[task.assignedTo].push is not a function".

(** The callback of the grouping [reduce]: [acc[key]] is the array of the
    key if the object holds the key, what the object inherits under the key
    if it inherits something, and nothing otherwise. *)
Definition groupTask (acc : list (string * list Task)) (task : Task)
  : outcome (list (string * list Task)) :=
  match lookup (assignedTo task) acc with
  | Some _ => Returned (push (assignedTo task) task acc)
  | None =>
      if inherited (assignedTo task) then Thrown not_a_function
      else Returned (push (assignedTo task) task acc)
  end.

(** [tasks.reduce(callback, acc)]: an error thrown by the callback ends the
    [reduce]. *)
Fixpoint reduce_tasks (tasks : list Task) (acc : list (string * list Task))
  : outcome (list (string * list Task)) :=
  match tasks with
  | [] => Returned acc
  | task :: rest =>
      match groupTask acc task with
      | Returned acc => reduce_tasks rest acc
      | Thrown message => Thrown message
      | Waiting => Waiting
      end
  end.

(** [developers.find((d) => d.id === devId)] *)
Definition findDev (developers : list Developer) (devId : string)
  : option Developer :=
  find (fun d => String.eqb (id d) devId) developers.

(** [devTasks.reduce((sum, task) => sum + task.fibonacciEstimate, 0)] *)
Definition sumPoints (devTasks : list Task) : Z :=
  fold_left (fun sum task => sum + task_fibonacciEstimate task) devTasks 0.

(** [Math.ceil(totalPoints / dev.capacity)] *)
Definition daysFor (totalPoints : Z) (cap : number) : number :=
  Math_ceil (div (of_Z totalPoints) cap).

(** The body of the [forEach] over [Object.entries(tasksByDev)], on the
    state made of [devEstimates] and [maxDays]. *)
Definition devStep (developers : list Developer)
    (st : list (string * DevEstimate) * number)
    (entry : string * list Task) : list (string * DevEstimate) * number :=
  match findDev developers (fst entry) with
  | None => st
  | Some dev =>
      let totalPoints := sumPoints (snd entry) in
      let days := daysFor totalPoints (capacity dev) in
      (assign (fst entry)
              {| de_name := dev_name dev; days := days;
                 points := totalPoints |}
              (fst st),
       Math_max (snd st) days)
  end.

Section Estimator.

(** The runtime's calendar type.  [addDays today k] is a copy of [today]
    after [setDate(today.getDate() + k)]. *)
Variable Date : Type.
Variable addDays : Date -> number -> Date.

Record EpicEstimate : Type := mkEpicEstimate {
  totalPoints : Z;
  estimatedDays : Q;
  estimatedDeliveryDate : Date
}.

Definition calculateEpicEstimate (today : Date) (tasks : list Task)
  : EpicEstimate :=
  let totalPoints := sumPoints tasks in
  let estimatedDays :=
    fold_left (fun sum task =>
                 (sum + pointToDays (task_fibonacciEstimate task))%Q)
              tasks 0%Q in
  {| totalPoints := totalPoints;
     estimatedDays := estimatedDays;
     estimatedDeliveryDate :=
       addDays today (of_Z (Qceiling estimatedDays)) |}.

Record ParallelEstimate : Type := mkParallelEstimate {
  totalDays : number;
  deliveryDate : Date;
  breakdown : list (string * DevEstimate)
}.

(** The estimate that [calculateParallelEstimate] returns, when it
    returns. *)
Definition calculateParallelEstimate (today : Date) (tasks : list Task)
    (developers : list Developer) : ParallelEstimate :=
  let st := fold_left (devStep developers) (tasksByDev tasks) ([], zero) in
  {| totalDays := snd st;
     deliveryDate := addDays today (snd st);
     breakdown := fst st |}.

(** A call of [calculateParallelEstimate]: the grouping, which can throw,
    then the loop over the groups. *)
Definition calculateParallelEstimate_call (today : Date) (tasks : list Task)
    (developers : list Developer) : outcome ParallelEstimate :=
  match reduce_tasks tasks [] with
  | Returned tasksByDev =>
      let st := fold_left (devStep developers) tasksByDev ([], zero) in
      Returned {| totalDays := snd st;
                  deliveryDate := addDays today (snd st);
                  breakdown := fst st |}
  | Thrown message => Thrown message
  | Waiting => Waiting
  end.

End Estimator.

Arguments totalPoints {Date}.
Arguments estimatedDays {Date}.
Arguments estimatedDeliveryDate {Date}.
Arguments totalDays {Date}.
Arguments deliveryDate {Date}.
Arguments breakdown {Date}.
Arguments calculateEpicEstimate {Date}.
Arguments calculateParallelEstimate {Date}.
Arguments calculateParallelEstimate_call {Date}.

(** * Definitions for the statements and the proofs *)

(** ** The order on numbers *)

(** [SFcompare] is the lexicographic order on a key: the class of the number
    (the infinities, the negative and positive finite numbers, zero), then
    exponent and mantissa. *)
Definition key (x : number) : Z * (Z * Z) :=
  match x with
  | S754_nan => (0, (0, 0))
  | S754_infinity true => (-2, (0, 0))
  | S754_infinity false => (2, (0, 0))
  | S754_zero _ => (0, (0, 0))
  | S754_finite false m e => (1, (e, Zpos m))
  | S754_finite true m e => (-1, (- e, Zneg m))
  end.

Definition key_compare (a b : Z * (Z * Z)) : comparison :=
  match fst a ?= fst b with
  | Eq => match fst (snd a) ?= fst (snd b) with
          | Eq => snd (snd a) ?= snd (snd b)
          | c => c
          end
  | c => c
  end.

Definition is_nan (x : number) : bool :=
  match x with S754_nan => true | _ => false end.

(** The key refined so that [-0] is below [+0], as [Math.max] has it. *)
Definition rank (x : number) : Z * (Z * Z) :=
  match x with
  | S754_zero false => (0, (0, 1))
  | _ => key x
  end.

Definition key_max (a b : Z * (Z * Z)) : Z * (Z * Z) :=
  match key_compare a b with Lt => b | _ => a end.

(** The number 1. *)
Definition one : number := S754_finite false 4503599627370496 (-52).

(** A number that is at least one: the infinity, or a finite number whose
    key is not below that of 1 (mantissa 2^52, exponent -52). *)
Definition at_least_one (x : number) : Prop :=
  x = S754_infinity false
  \/ exists m e,
       x = S754_finite false m e
       /\ (-52 < e \/ (e = -52 /\ 2 ^ 52 <= Zpos m))
       /\ 1 <= Zpos (digits2_pos m) + e.

(** The integer that a number holds (its integer part). *)
Definition integer_of (x : number) : Z :=
  match x with
  | S754_finite s m 0 => mantissa s m
  | S754_finite s m (Zpos p) => mantissa s m * Z.pow_pos 2 p
  | S754_finite s m (Zneg p) => Z.quot (mantissa s m) (Z.pow_pos 2 p)
  | _ => 0
  end.

(** ** The score in the specification's words *)

(** The weights as the decimals that the source text writes. *)
Definition decimal (key : Factor) : Q :=
  match key with
  | uncertainty => 8 # 10
  | complexity => 6 # 10
  | testability => 4 # 10
  | legacyImpact => 5 # 10
  | integrationDifficulty => 7 # 10
  | refactorEffort => 4 # 10
  | dependencies => 5 # 10
  | requirementVolatility => 4 # 10
  end.


(** The same sum over the rationals, with the decimal weights. *)
Definition exact_score (factors : EstimateFactors) : Q :=
  fold_left (fun q key =>
               (q + inject_Z (integer_of (get factors key)) * decimal key)%Q)
            factor_keys 0%Q.

Definition all_zero : EstimateFactors := rating 0 0 0 0 0 0 0 0.
Definition all_three : EstimateFactors := rating 3 3 3 3 3 3 3 3.

(** The number written 12.9, and the number just below it
    (12.899999999999999). *)
Definition n12_9 : number := lit 129 10.
Definition below_12_9 : number := S754_finite false 7262054399134924 (-49).

(** The sum of the eight weights in binary64. *)
Definition weights_sum : number :=
  fold_left (fun sum key => add sum (WEIGHTS key)) factor_keys zero.

(** The floor and the cap as the specification states them: score 0 and unit
    1 for the all-zero rating, score 12.9 and unit 8 for the all-three
    rating. *)
Definition floor_and_cap_as_stated : Prop :=
  rawScore (estimate all_zero) = zero
  /\ fibonacciEstimate (estimate all_zero) = 1
  /\ rawScore (estimate all_three) = n12_9
  /\ (toQ (rawScore (estimate all_three)) == 129 # 10)%Q
  /\ fibonacciEstimate (estimate all_three) = 8.



(** ** The table of all ratings *)

(** The ratings are finitely many (4^8).  A property of every score is
    checked by running the code's accumulation over the tree of all choices,
    sharing the partial sums of common prefixes. *)

Definition in_range (v : Z) : Prop := 0 <= v <= 3.

Definition rating_values : list Z := [0; 1; 2; 3].

(** A rating as the list of its entries. *)
Definition assignment (a b c d e f g h : Z) : list (Factor * Z) :=
  [(uncertainty, a); (complexity, b); (testability, c); (legacyImpact, d);
   (integrationDifficulty, e); (refactorEffort, f); (dependencies, g);
   (requirementVolatility, h)].


(** One choice for one dimension: the binary64 product that [estimate] adds
    and the exact product. *)
Definition cell (kv : Factor * Z) : number * Q :=
  (mul (of_Z (snd kv)) (WEIGHTS (fst kv)),
   (inject_Z (snd kv) * decimal (fst kv))%Q).

(** One step of the accumulation, in binary64 and exactly. *)
Definition accumulate (a c : number * Q) : number * Q :=
  (add (fst a) (fst c), (snd a + snd c)%Q).

(** The four choices of each of the eight dimensions. *)
Definition table : list (list (number * Q)) :=
  map (fun key => map (fun v => cell (key, v)) rating_values) factor_keys.

Definition cells (a b c d e f g h : Z) : list (number * Q) :=
  map cell (assignment a b c d e f g h).



(** What [estimate] returns for an accumulated score. *)
Definition result (a : number * Q) : Estimate :=
  {| rawScore := fst a; fibonacciEstimate := roundUpToFib (fst a) |}.

(** An estimate is below another: its score does not exceed the other's, and
    neither does its effort unit. *)
Definition below (x y : Estimate) : bool :=
  leb (rawScore x) (rawScore y)
  && (fibonacciEstimate x <=? fibonacciEstimate y).

Section EnumerationDefinitions.

Variables A B C : Type.
Variable step : A -> B -> A.
Variable leaf : A -> C.
Variable R : C -> C -> bool.

(** The leaves: [leaf] of the result of [fold_left step] over every choice
    of one element per list of the table, in lexicographic order. *)
Fixpoint finals (tbl : list (list B)) (a : A) : list C :=
  match tbl with
  | [] => [leaf a]
  | bs :: rest => flat_map (fun b => finals rest (step a b)) bs
  end.

(** One element chosen in each list of the table. *)
Definition chosen (choice : list B) (tbl : list (list B)) : Prop :=
  Forall2 (fun b bs => In b bs) choice tbl.

Fixpoint all2 (l l' : list C) : bool :=
  match l, l' with
  | [], [] => true
  | x :: l, y :: l' => R x y && all2 l l'
  | _, _ => false
  end.

(** Every earlier list is pointwise below every later one. *)
Fixpoint ordered (ls : list (list C)) : bool :=
  match ls with
  | [] => true
  | l :: rest => forallb (fun l' => all2 l l') rest && ordered rest
  end.

Definition precedes (x y : B) (bs : list B) : Prop :=
  exists l1 l2 l3, bs = l1 ++ x :: l2 ++ y :: l3.

(** The check that a later choice in any one list, the other choices being
    kept, gives a leaf that [R] puts above; it returns the leaves along with
    the verdict. *)
Fixpoint mono (tbl : list (list B)) (a : A) : bool * list C :=
  match tbl with
  | [] => (true, [leaf a])
  | bs :: rest =>
      let subs := map (fun b => mono rest (step a b)) bs in
      (forallb fst subs && ordered (map snd subs), List.concat (map snd subs))
  end.

End EnumerationDefinitions.

Arguments finals {A B C} step leaf tbl a.
Arguments chosen {B} choice tbl.
Arguments all2 {C} R l l'.
Arguments ordered {C} R ls.
Arguments precedes {B} x y bs.
Arguments mono {A B C} step leaf R tbl a.

(** ** Sums and groups *)

(** The duration table in the specification's words: 1 and 2 points take a
    day, 3 points a day and a half, 5 points two days and a half, 8 points
    five days, anything else nothing. *)
Definition duration (unit : Z) : Q :=
  if unit =? 1 then 1
  else if unit =? 2 then 1
  else if unit =? 3 then 3 # 2
  else if unit =? 5 then 5 # 2
  else if unit =? 8 then 5
  else 0.

Definition sumZ (l : list Z) : Z := fold_right Z.add 0 l.
Definition sumQ (l : list Q) : Q := fold_right Qplus 0%Q l.

(** The tasks assigned to one developer, in the order of the task list. *)
Definition tasksOf (devId : string) (tasks : list Task) : list Task :=
  filter (fun t => String.eqb (assignedTo t) devId) tasks.

(** The id resolves to a developer of the list. *)
Definition matched (developers : list Developer) (devId : string) : bool :=
  match findDev developers devId with Some _ => true | None => false end.

(** What the loop body records for one group, if its developer exists. *)
Definition entryOf (developers : list Developer) (entry : string * list Task)
  : option (string * DevEstimate) :=
  match findDev developers (fst entry) with
  | None => None
  | Some dev =>
      Some (fst entry,
            {| de_name := dev_name dev;
               days := daysFor (sumPoints (snd entry)) (capacity dev);
               points := sumPoints (snd entry) |})
  end.

Definition estimatesOf (developers : list Developer)
    (groups : list (string * list Task)) : list (string * DevEstimate) :=
  flat_map (fun g => match entryOf developers g with
                     | Some e => [e]
                     | None => []
                     end) groups.

(** The points that the loop will record for a list of groups. *)
Definition groupPoints (developers : list Developer)
    (groups : list (string * list Task)) : Z :=
  sumZ (map (fun g => if matched developers (fst g)
                      then sumPoints (snd g) else 0) groups).

(** ** The specification's scenario *)

(** A calendar of day numbers, for running the model. *)
Definition plus_days (today : Z) (k : number) : Z := today + integer_of k.

(** Two developers of capacity 4; three tasks of 5, 3 and 3 points assigned
    in turn. *)
Definition scenario_tasks : list Task :=
  [mkTask "api" Backend "dev-1" all_three below_12_9 5;
   mkTask "ui" Backend "dev-2" all_zero zero 3;
   mkTask "db" Backend "dev-1" all_zero zero 3].

Definition scenario_developers : list Developer :=
  [mkDeveloper "dev-1" "Ann" Backend (of_Z 4);
   mkDeveloper "dev-2" "Bob" Backend (of_Z 4)].

(** * The interactive front end *)

(** The prompts ([input], [select], [confirm]) are the runtime's: a run of
    the program is determined by what they do.  A prompt returns the user's
    answer, or it rejects with an error when the user closes it instead of
    answering.  Each loop of the front end is a recursion over the answers
    still to come; it has no result ([None], [Waiting]) while the prompt is
    waiting for an answer that the list does not hold.  What the program
    prints is left out. *)

(** ** Describing an effort unit *)

(** An integer in a template literal: its decimal digits, after a minus
    sign if it is negative. *)
Definition show_integer (z : Z) : string :=
  NilZero.string_of_int (Z.to_int z).

Definition fibonacciToDays (fib : Z) : string :=
  match fib with
  | 0 =>
      "0 – VERY QUICK TO DELIVER AND NO COMPLEXITY; ON THE ORDER OF MINUTES"
  | 1 =>
      "1 – QUICK TO DELIVER AND MINIMAL COMPLEXITY; ON THE ORDER OF AN HOUR OR SO"
  | 2 =>
      "2 – QUICK TO DELIVER AND SOME COMPLEXITY; ON THE ORDER OF MULTIPLE HOURS/HALF-DAY+"
  | 3 =>
      "3 – MODERATE TIME TO DELIVER, MODERATE COMPLEXITY, AND POSSIBLY SOME UNCERTAINTY/UNKNOWNS"
  | 5 =>
      "5 – LONGER TIME TO DELIVER, HIGH COMPLEXITY, AND LIKELY UNKNOWNS"
  | 8 =>
      "8 – LONG TIME TO DELIVER, HIGH COMPLEXITY, CRITICAL UNKNOWNS"
  | _ => "Unknown Fibonacci number: " ++ show_integer fib
  end.

(** ** Values read from the prompts *)

(** A number that a condition takes as true: any but 0, -0 and NaN. *)
Definition truthy (x : number) : bool :=
  match x with
  | S754_zero _ | S754_nan => false
  | _ => true
  end.

Definition isNaN (x : number) : bool := is_nan x.

(** [Number.isInteger]: a finite number without a fractional part. *)
Definition Number_isInteger (x : number) : bool :=
  match x with
  | S754_zero _ => true
  | S754_finite _ m (Zneg p) => Zpos m mod Z.pow_pos 2 p =? 0
  | S754_finite _ _ _ => true
  | _ => false
  end.

(** [d.role === category] *)
Definition Category_eqb (c c' : Category) : bool :=
  match c, c' with
  | Backend, Backend | Frontend, Frontend | Design, Design => true
  | _, _ => false
  end.

(** The value of a category, which is its name. *)
Definition Category_name (c : Category) : string :=
  match c with
  | Backend => "Backend"
  | Frontend => "Frontend"
  | Design => "Design"
  end.

(** The prompts of one round of [addDevelopers]. *)
Inductive DeveloperPrompt : Type :=
| NamePrompt
| RolePrompt
| CapacityPrompt
| AnotherDeveloperPrompt.

(** The prompts of one round of the task loop that are awaited outside a
    [try]: those of [createTask] (the note of a factor is asked for after
    the factor's rating) and the "Add another task?" of [main]. *)
Inductive TaskPrompt : Type :=
| TaskNamePrompt
| CategoryPrompt
| AssignedToPrompt
| NotePrompt (key : Factor)
| AnotherTaskPrompt.

(** The answers given for one developer: the name, the role, the text typed
    for the capacity and the answer to "Add another developer?"; and for
    each prompt, the message of the error it rejects with, if it rejects. *)
Record DeveloperAnswers : Type := mkDeveloperAnswers {
  devName : string;
  devRole : Category;
  capacity_typed : string;
  another_developer : bool;
  developer_rejections : DeveloperPrompt -> option string
}.

(** The answers given for one task: the name, the category, the developer
    selected, and for each factor the texts typed at its prompt, the first
    one first; and for each prompt outside a [try], the message of the error
    it rejects with, if it rejects.  The prompt of a rating is awaited
    inside a [try] whose handler asks again: its rejections change nothing,
    and [typed] holds the texts of the times it returned. *)
Record TaskAnswers : Type := mkTaskAnswers {
  taskName : string;
  taskCategory : Category;
  taskAssignedTo : string;
  typed : Factor -> list string;
  task_rejections : TaskPrompt -> option string
}.

(** [await] of a prompt, followed by the rest of the call: the error of a
    prompt that rejects is thrown. *)
Definition await {A : Type} (rejection : option string) (rest : outcome A)
  : outcome A :=
  match rejection with
  | Some message => Thrown message
  | None => rest
  end.

(** One call after another: the second runs on what the first returns. *)
Definition and_then {A B : Type} (first : outcome A) (rest : A -> outcome B)
  : outcome B :=
  match first with
  | Returned a => rest a
  | Thrown message => Thrown message
  | Waiting => Waiting
  end.

Section Prompts.

(** The runtime's [parseFloat] and [String.prototype.trim]. *)
Variable parseFloat : string -> number.
Variable trim : string -> string.

(** ** Team setup *)

(** One round of the loop of [addDevelopers] on the developers so far. *)
Fixpoint addDevelopers_loop (answers : list DeveloperAnswers)
    (developers : list Developer) : outcome (list Developer) :=
  match answers with
  | [] => Waiting
  | a :: rest =>
      await (developer_rejections a NamePrompt)
     (await (developer_rejections a RolePrompt)
     (await (developer_rejections a CapacityPrompt)
     (let capacityNum :=
        if truthy (parseFloat (capacity_typed a))
        then parseFloat (capacity_typed a) else of_Z 4 in
      let developers :=
        developers ++
        [{| id := "dev-"
                  ++ show_integer (Z.of_nat (List.length developers) + 1);
            dev_name := devName a;
            role := devRole a;
            capacity := capacityNum |}] in
      await (developer_rejections a AnotherDeveloperPrompt)
     (if another_developer a then addDevelopers_loop rest developers
      else Returned developers))))
  end.

Definition addDevelopers (answers : list DeveloperAnswers)
  : outcome (list Developer) :=
  addDevelopers_loop answers [].

(** ** Task creation *)

(** One round of the validation loop: the value that a typed text is taken
    for, if it is taken. *)
Definition validate (inputVal : string) : option number :=
  if String.eqb (trim inputVal) EmptyString then Some zero
  else
    let parsed := parseFloat inputVal in
    if isNaN parsed then None
    else if ltb parsed (of_Z 0) || ltb (of_Z 3) parsed then None
    else if negb (Number_isInteger parsed) then None
    else Some parsed.

(** The validation loop: the first text that is taken. *)
Fixpoint readRating (inputs : list string) : option number :=
  match inputs with
  | [] => None
  | inputVal :: rest =>
      match validate inputVal with
      | Some value => Some value
      | None => readRating rest
      end
  end.

(** One round of the loop over [Object.keys(WEIGHTS)]: the rating of the
    factor, then the prompt for its note if the rating is above 0. *)
Definition readFactor (a : TaskAnswers) (key : Factor) : outcome number :=
  match readRating (typed a key) with
  | None => Waiting
  | Some value =>
      if ltb (of_Z 0) value
      then await (task_rejections a (NotePrompt key)) (Returned value)
      else Returned value
  end.

(** The loop over [Object.keys(WEIGHTS)], which fills [factors]. *)
Definition readFactors (a : TaskAnswers) : outcome EstimateFactors :=
  and_then (readFactor a uncertainty) (fun u =>
  and_then (readFactor a complexity) (fun c =>
  and_then (readFactor a testability) (fun t =>
  and_then (readFactor a legacyImpact) (fun l =>
  and_then (readFactor a integrationDifficulty) (fun i =>
  and_then (readFactor a refactorEffort) (fun r =>
  and_then (readFactor a dependencies) (fun d =>
  and_then (readFactor a requirementVolatility) (fun v =>
    Returned (mkFactors u c t l i r d v))))))))).

(** [developers.filter((d) => d.role === category)] *)
Definition availableDevs (developers : list Developer) (category : Category)
  : list Developer :=
  filter (fun d => Category_eqb (role d) category) developers.

Definition createTask (developers : list Developer) (a : TaskAnswers)
  : outcome Task :=
  await (task_rejections a TaskNamePrompt)
 (await (task_rejections a CategoryPrompt)
 (let category := taskCategory a in
  match availableDevs developers category with
  | [] => Thrown ("No " ++ Category_name category ++ " developers available")
  | _ :: _ =>
      await (task_rejections a AssignedToPrompt)
     (and_then (readFactors a) (fun factors =>
        let result := estimate factors in
        Returned {| name := taskName a;
                    category := category;
                    assignedTo := taskAssignedTo a;
                    factors := factors;
                    task_rawScore := rawScore result;
                    task_fibonacciEstimate := fibonacciEstimate result |}))
  end)).

(** The loop of [main] that creates the tasks; each task comes with the
    answer to "Add another task?". *)
Fixpoint addTasks (developers : list Developer)
    (answers : list (TaskAnswers * bool)) (tasks : list Task)
  : outcome (list Task) :=
  match answers with
  | [] => Waiting
  | (a, another) :: rest =>
      match createTask developers a with
      | Returned task =>
          let tasks := tasks ++ [task] in
          await (task_rejections a AnotherTaskPrompt)
         (if another then addTasks developers rest tasks
          else Returned tasks)
      | Thrown message => Thrown message
      | Waiting => Waiting
      end
  end.

End Prompts.

(** ** The name of the saved file *)

(** The epic's name is the one string whose characters the program looks
    at: it is carried as the list of its UTF-16 code units. *)
Definition text : Type := list N.

Local Open Scope N_scope.

Definition is_digit (c : N) : bool := (48 <=? c) && (c <=? 57).
Definition is_upper (c : N) : bool := (65 <=? c) && (c <=? 90).
Definition is_lower (c : N) : bool := (97 <=? c) && (c <=? 122).

(** The class [\s]: white space and line terminators. *)
Definition is_space (c : N) : bool :=
  ((9 <=? c) && (c <=? 13)) || (c =? 32) || (c =? 160) || (c =? 5760)
  || ((8192 <=? c) && (c <=? 8202)) || (c =? 8232) || (c =? 8233)
  || (c =? 8239) || (c =? 8287) || (c =? 12288) || (c =? 65279).

Definition hyphen : N := 45.

(** The class [a-zA-Z0-9\s-], whose complement the first [replace]
    deletes. *)
Definition kept (c : N) : bool :=
  is_lower c || is_upper c || is_digit c || is_space c || (c =? hyphen).

(** [replace(/\s+/g, "-")]: every maximal run of white space becomes one
    hyphen; [in_run] tells that the previous character was white space. *)
Fixpoint replace_spaces (in_run : bool) (s : text) : text :=
  match s with
  | [] => []
  | c :: rest =>
      if is_space c then
        if in_run then replace_spaces true rest
        else hyphen :: replace_spaces true rest
      else c :: replace_spaces false rest
  end.

(** [toLowerCase] on the characters that are left, ASCII letters, digits
    and hyphens. *)
Definition toLowerCase (s : text) : text :=
  map (fun c => if is_upper c then c + 32 else c) s.

Definition safeEpicName (name : text) : text :=
  toLowerCase (replace_spaces false (filter kept name)).

(** The file name, for the date and the time as the clock gives them. *)
Definition filename (name dateStr timeStr : text) : text :=
  safeEpicName name ++ [hyphen] ++ dateStr ++ [hyphen] ++ timeStr
  ++ [46; 106; 115; 111; 110].

Local Close Scope N_scope.

(** ** The session *)

Section Main.

Variable Date : Type.
Variable addDays : Date -> number -> Date.
Variable parseFloat : string -> number.
Variable trim : string -> string.

Record Epic : Type := mkEpic {
  epic_name : text;
  epic_tasks : list Task;
  epic_developers : list Developer;
  epic_totalPoints : Z;
  epic_estimatedDays : Q;
  epic_estimatedDeliveryDate : Date;
  epic_parallelEstimate : ParallelEstimate Date
}.

(** All the answers of one run; the prompt for the epic's name can reject
    too. *)
Record Answers : Type := mkAnswers {
  epicName : text;
  epicName_rejection : option string;
  developer_answers : list DeveloperAnswers;
  task_answers : list (TaskAnswers * bool)
}.

(** [main] up to the summary: the epic that it prints and saves.  The clock
    is read once by each of the two estimates.  An error thrown on the way
    reaches the handler of [main], which ends the program. *)
Definition main (today today' : Date) (answers : Answers) : outcome Epic :=
  await (epicName_rejection answers)
 (and_then (addDevelopers parseFloat (developer_answers answers))
    (fun developers =>
  and_then (addTasks parseFloat trim developers (task_answers answers) [])
    (fun tasks =>
  let epicEstimate := calculateEpicEstimate addDays today tasks in
  and_then (calculateParallelEstimate_call addDays today' tasks developers)
    (fun parallelEstimate =>
  Returned
    {| epic_name := epicName answers;
       epic_tasks := tasks;
       epic_developers := developers;
       epic_totalPoints := totalPoints epicEstimate;
       epic_estimatedDays := estimatedDays epicEstimate;
       epic_estimatedDeliveryDate := estimatedDeliveryDate epicEstimate;
       epic_parallelEstimate := parallelEstimate |})))).

End Main.

Arguments epic_name {Date}.
Arguments epic_tasks {Date}.
Arguments epic_developers {Date}.
Arguments epic_totalPoints {Date}.
Arguments epic_estimatedDays {Date}.
Arguments epic_estimatedDeliveryDate {Date}.
Arguments epic_parallelEstimate {Date}.
Arguments main {Date}.

(** ** Definitions for the properties of the front end *)

(** The id of the [n]-th developer. *)
Definition dev_id (n : nat) : string :=
  "dev-" ++ show_integer (Z.of_nat n).

(** The capacity recorded for a typed text. *)
Definition capacity_of (parseFloat : string -> number) (typed : string)
  : number :=
  if truthy (parseFloat typed) then parseFloat typed else of_Z 4.

(** The values that the validation of a rating lets through: 0, 1, 2 and 3,
    and the negative zero. *)
Definition admitted (v : number) : Prop :=
  v = S754_zero true \/ rating_value v.

(** A number whose sign bit is not set (NaN included). *)
Definition unsigned (x : number) : bool :=
  match x with
  | S754_zero true | S754_infinity true | S754_finite true _ _ => false
  | _ => true
  end.

(** The negative zero read as zero. *)
Definition plain (v : number) : number :=
  match v with S754_zero true => zero | _ => v end.

Definition plain_factors (factors : EstimateFactors) : EstimateFactors :=
  mkFactors (plain (f_uncertainty factors)) (plain (f_complexity factors))
            (plain (f_testability factors)) (plain (f_legacyImpact factors))
            (plain (f_integrationDifficulty factors))
            (plain (f_refactorEffort factors))
            (plain (f_dependencies factors))
            (plain (f_requirementVolatility factors)).

(** A score within the range: at least 0 and at most 12.899999999999999. *)
Definition in_score_range (leaf : number * Q) : bool :=
  leb zero (fst leaf) && leb (fst leaf) below_12_9.

(** A negative real. *)
Definition negative_finite (x : number) : bool :=
  match x with
  | S754_finite true m e => bounded prec emax m e
  | _ => false
  end.

(** The number 2^k, for a small k: 1, 2, 4 and 8 are [power_of_two] of 0,
    1, 2 and 3. *)
Definition power_of_two (k : Z) : number :=
  S754_finite false 4503599627370496 (k - 52).

(** A character of a safe file name: a lower-case letter, a digit or a
    hyphen. *)
Definition is_safe (c : N) : bool :=
  is_lower c || is_digit c || (c =? hyphen)%N.

(** ** Definitions for the days of the parallel scheduler *)

(** [d] is the ceiling of [x]: for a real [x], the integer that is not
    below [x] and less than one above it; an infinity, a zero and NaN are
    their own ceiling. *)
Definition is_ceiling (x d : number) : Prop :=
  match x with
  | S754_finite _ _ _ =>
      Number_isInteger d = true /\ (toQ d == inject_Z (Qceiling (toQ x)))%Q
  | _ => d = x
  end.

(** The days in the specification's words: the ceiling of points divided by
    capacity, over the rationals. *)
Definition exact_days (points : Z) (cap : number) : Z :=
  Qceiling (inject_Z points / toQ cap).

(** The number 0.3333333333333333. *)
Definition n0_3333333333333333 : number :=
  lit 3333333333333333 10000000000000000.

(** The days as the specification states them: the ceiling of points
    divided by capacity, for every developer of the breakdown. *)
Definition days_as_stated : Prop :=
  forall (tasks : list Task) (developers : list Developer)
         (devId : string) (dev : Developer) (e : DevEstimate),
    Forall (fun d => positive_finite (capacity d) = true) developers ->
    findDev developers devId = Some dev ->
    lookup devId (breakdown (calculateParallelEstimate plus_days 0 tasks
                                                       developers))
    = Some e ->
    (toQ (days e) == inject_Z (exact_days (points e) (capacity dev)))%Q.

(** ** Definitions for the errors of the front end *)

(** No prompt of the session rejects. *)
Definition no_rejection (answers : Answers) : Prop :=
  epicName_rejection answers = None
  /\ Forall (fun a => forall prompt, developer_rejections a prompt = None)
            (developer_answers answers)
  /\ Forall (fun ta => forall prompt, task_rejections (fst ta) prompt = None)
            (task_answers answers).

(** The message of the error of [createTask] for a category without
    developers. *)
Definition no_developers (category : Category) : string :=
  "No " ++ Category_name category ++ " developers available".

(** ** A session, for running the model *)

(** A stand-in for [parseFloat] that knows a few texts; any other text is
    not a number.  The texts of the session need no trimming. *)
Definition session_numbers : list (string * Z) :=
  [("0"%string, 0); ("1"%string, 1); ("2"%string, 2); ("3"%string, 3);
   ("4"%string, 4); ("7"%string, 7)].

Definition session_parseFloat (s : string) : number :=
  match find (fun kv => String.eqb (fst kv) s) session_numbers with
  | Some kv => of_Z (snd kv)
  | None => S754_nan
  end.

Definition session_trim (s : string) : string := s.

Definition session_developer_answers : list DeveloperAnswers :=
  [mkDeveloperAnswers "Ann" Backend "4" true (fun _ => None);
   mkDeveloperAnswers "Bob" Frontend "many" false (fun _ => None)].

Definition session_developers : list Developer :=
  [mkDeveloper "dev-1" "Ann" Backend (of_Z 4);
   mkDeveloper "dev-2" "Bob" Frontend (of_Z 4)].

(** The first task: two texts are refused before the first rating is
    taken, and an empty text counts as 0. *)
Definition session_api : TaskAnswers :=
  mkTaskAnswers "api" Backend "dev-1"
    (fun key => match key with
                | uncertainty => ["x"; "7"; "1"]%string
                | complexity => ["2"]%string
                | testability => ["1"]%string
                | _ => [EmptyString]
                end)
    (fun _ => None).

Definition session_ui : TaskAnswers :=
  mkTaskAnswers "ui" Frontend "dev-2" (fun _ => ["3"]%string)
    (fun _ => None).

(** A task for a designer, in a team without designers. *)
Definition session_logo : TaskAnswers :=
  mkTaskAnswers "logo" Design "dev-1" (fun _ => []) (fun _ => None).

Definition session_tasks : list Task :=
  [mkTask "api" Backend "dev-1" (rating 1 2 1 0 0 0 0 0) (lit 24 10) 3;
   mkTask "ui" Frontend "dev-2" all_three below_12_9 8].

Definition session_answers : Answers :=
  mkAnswers [69; 112; 105; 99; 32; 49; 33]%N None session_developer_answers
            [(session_api, true); (session_ui, false)].

Definition session_epic : Epic Z :=
  {| epic_name := [69; 112; 105; 99; 32; 49; 33]%N;
     epic_tasks := session_tasks;
     epic_developers := session_developers;
     epic_totalPoints := 11;
     epic_estimatedDays := 13 # 2;
     epic_estimatedDeliveryDate := 107;
     epic_parallelEstimate :=
       {| totalDays := of_Z 2;
          deliveryDate := 102;
          breakdown :=
            [("dev-1"%string,
              {| de_name := "Ann"; days := of_Z 1; points := 3 |});
             ("dev-2"%string,
              {| de_name := "Bob"; days := of_Z 2; points := 8 |})] |} |}.

(** * Properties *)

(** ** The order on numbers *)

Lemma SFcompare_nan (x y : number) :
  SFcompare x y = None <-> is_nan x = true \/ is_nan y = true.
Proof.
  destruct x as [[|]|[|]| |[|] ? ?], y as [[|]|[|]| |[|] ? ?]; simpl;
    split; intros H; try discriminate; auto; destruct H; discriminate.
Qed.

Lemma SFcompare_key (x y : number) :
  is_nan x = false -> is_nan y = false ->
  SFcompare x y = Some (key_compare (key x) (key y)).
Proof.
  destruct x as [[|]|[|]| |[|] mx ex], y as [[|]|[|]| |[|] my ey];
    simpl; intros Hx Hy; try discriminate; try reflexivity;
    unfold key_compare; simpl.
  rewrite Z.compare_opp, (Z.compare_antisym ex ey).
  destruct (ex ?= ey); reflexivity.
Qed.

Lemma key_compare_Lt (a b : Z * (Z * Z)) :
  key_compare a b = Lt <->
  fst a < fst b \/
  (fst a = fst b /\
   (fst (snd a) < fst (snd b) \/
    (fst (snd a) = fst (snd b) /\ snd (snd a) < snd (snd b)))).
Proof.
  unfold key_compare.
  destruct (Z.compare_spec (fst a) (fst b));
    destruct (Z.compare_spec (fst (snd a)) (fst (snd b)));
    destruct (Z.compare_spec (snd (snd a)) (snd (snd b)));
    split; intros; try discriminate; try reflexivity; lia.
Qed.

Lemma key_compare_Eq (a b : Z * (Z * Z)) :
  key_compare a b = Eq <-> a = b.
Proof.
  unfold key_compare. destruct a as [a1 [a2 a3]], b as [b1 [b2 b3]]; simpl.
  destruct (Z.compare_spec a1 b1); destruct (Z.compare_spec a2 b2);
    destruct (Z.compare_spec a3 b3);
    split; intros H'; try discriminate; try reflexivity;
    try (subst; reflexivity); inversion H'; lia.
Qed.

Lemma key_compare_Gt (a b : Z * (Z * Z)) :
  key_compare a b = Gt <-> key_compare b a = Lt.
Proof.
  rewrite key_compare_Lt. unfold key_compare.
  destruct (Z.compare_spec (fst a) (fst b));
    destruct (Z.compare_spec (fst (snd a)) (fst (snd b)));
    destruct (Z.compare_spec (snd (snd a)) (snd (snd b)));
    split; intros; try discriminate; try reflexivity; lia.
Qed.

(** Two numbers with the same key are the same number, or are both zero. *)
Lemma key_inj (x y : number) :
  is_nan x = false -> is_nan y = false -> key x = key y ->
  x = y \/ (exists s t, x = S754_zero s /\ y = S754_zero t).
Proof.
  destruct x as [[|]|[|]| |[|] mx ex], y as [[|]|[|]| |[|] my ey];
    simpl; intros Hx Hy H; try discriminate; auto;
    try (right; eexists; eexists; split; reflexivity);
    inversion H; subst; auto.
  left. f_equal. lia.
Qed.

(** [leb] and [ltb] through the key. *)
Lemma leb_key (x y : number) :
  leb x y = true <->
  is_nan x = false /\ is_nan y = false /\ key_compare (key x) (key y) <> Gt.
Proof.
  unfold leb, SFleb.
  destruct (is_nan x) eqn:Hx.
  - assert (H : SFcompare x y = None) by (apply SFcompare_nan; auto).
    rewrite H. split; [discriminate | intros [? _]; discriminate].
  - destruct (is_nan y) eqn:Hy.
    + assert (H : SFcompare x y = None) by (apply SFcompare_nan; auto).
      rewrite H. split; [discriminate | intros [_ [? _]]; discriminate].
    + rewrite (SFcompare_key x y Hx Hy).
      destruct (key_compare (key x) (key y)); split; intros H;
        try discriminate; try reflexivity; repeat split; try discriminate;
        destruct H as [_ [_ H]]; congruence.
Qed.

Lemma ltb_key (x y : number) :
  ltb x y = true <->
  is_nan x = false /\ is_nan y = false /\ key_compare (key x) (key y) = Lt.
Proof.
  unfold ltb, SFltb.
  destruct (is_nan x) eqn:Hx.
  - assert (H : SFcompare x y = None) by (apply SFcompare_nan; auto).
    rewrite H. split; [discriminate | intros [? _]; discriminate].
  - destruct (is_nan y) eqn:Hy.
    + assert (H : SFcompare x y = None) by (apply SFcompare_nan; auto).
      rewrite H. split; [discriminate | intros [_ [? _]]; discriminate].
    + rewrite (SFcompare_key x y Hx Hy).
      destruct (key_compare (key x) (key y)); split; intros H;
        try discriminate; try reflexivity; repeat split; try discriminate;
        destruct H as [_ [_ H]]; congruence.
Qed.

(** A number above [y] is not at or below anything at or below [y]. *)
Lemma ltb_leb_trans (x y z : number) :
  ltb y x = true -> leb z y = true -> leb x z = false.
Proof.
  intros Hlt Hle.
  apply ltb_key in Hlt. destruct Hlt as (Hy & Hx & Hlt).
  apply leb_key in Hle. destruct Hle as (Hz & _ & Hle).
  apply not_true_is_false. intros H. apply leb_key in H.
  destruct H as (_ & _ & H).
  apply key_compare_Lt in Hlt.
  assert (H1 : key_compare (key z) (key x) <> Lt).
  { intros C. apply H. apply key_compare_Gt. exact C. }
  rewrite key_compare_Lt in H1.
  assert (H2 : key_compare (key y) (key z) <> Lt).
  { intros C. apply Hle. apply key_compare_Gt. exact C. }
  rewrite key_compare_Lt in H2.
  lia.
Qed.

(** ** Scoring engine: the rounding policy *)

Lemma roundUpToFib_unfold (n : number) :
  roundUpToFib n =
  if leb n (of_Z 1) then 1 else
  if leb n (of_Z 2) then 2 else
  if leb n (of_Z 3) then 3 else
  if leb n (of_Z 5) then 5 else
  if leb n (of_Z 8) then 8 else 8.
Proof. reflexivity. Qed.

Lemma roundUpToFib_member (n : number) : In (roundUpToFib n) FIB_NUMS.
Proof.
  rewrite roundUpToFib_unfold. unfold FIB_NUMS.
  destruct (leb n (of_Z 1)); [simpl; tauto|].
  destruct (leb n (of_Z 2)); [simpl; tauto|].
  destruct (leb n (of_Z 3)); [simpl; tauto|].
  destruct (leb n (of_Z 5)); [simpl; tauto|].
  destruct (leb n (of_Z 8)); simpl; tauto.
Qed.




(** The specification's rounding table: 2.4 gives 3, 1.0 gives 1, 5.0 gives
    5 and 8.01 gives 8; not a number gives 8. *)
Example rounding_table :
  roundUpToFib (lit 24 10) = 3 /\ roundUpToFib (of_Z 1) = 1
  /\ roundUpToFib (of_Z 5) = 5 /\ roundUpToFib (lit 801 100) = 8
  /\ roundUpToFib S754_nan = 8.
Proof. repeat split; vm_compute; reflexivity. Qed.

(** ** Exhaustive evaluation over the ratings *)

(** What the checks over the tree of all choices establish for each
    choice. *)

Section Enumeration.

Variables A B C : Type.
Variable step : A -> B -> A.
Variable leaf : A -> C.
Variable R : C -> C -> bool.

Lemma finals_In (tbl : list (list B)) :
  forall choice a, chosen choice tbl ->
    In (leaf (fold_left step choice a)) (finals step leaf tbl a).
Proof.
  induction tbl as [|bs rest IH]; intros choice a H; inversion H; subst.
  - simpl. auto.
  - simpl. apply in_flat_map. eexists. split; [eassumption|]. now apply IH.
Qed.

Lemma finals_length (tbl : list (list B)) :
  forall a a',
    List.length (finals step leaf tbl a)
    = List.length (finals step leaf tbl a').
Proof.
  induction tbl as [|bs rest IH]; intros a a'; simpl; [reflexivity|].
  induction bs as [|b bs IHbs]; simpl; [reflexivity|].
  rewrite !List.length_app. now rewrite (IH (step a b) (step a' b)), IHbs.
Qed.

Lemma all2_app (l1 l1' l2 l2' : list C) :
  List.length l1 = List.length l1' ->
  all2 R (l1 ++ l2) (l1' ++ l2') = all2 R l1 l1' && all2 R l2 l2'.
Proof.
  revert l1'. induction l1 as [|x l1 IH]; intros [|y l1'] H;
    simpl in *; try discriminate; [reflexivity|].
  rewrite IH by congruence. now rewrite andb_assoc.
Qed.

Lemma all2_finals (tbl : list (list B)) :
  forall a a',
    all2 R (finals step leaf tbl a) (finals step leaf tbl a') = true ->
  forall choice, chosen choice tbl ->
    R (leaf (fold_left step choice a)) (leaf (fold_left step choice a')) = true.
Proof.
  induction tbl as [|bs rest IH]; intros a a' H choice Hc;
    inversion Hc as [|b bs' ch rest' Hb Hrest]; subst; simpl in *.
  - now rewrite andb_true_r in H.
  - induction bs as [|b0 bs IHbs]; [contradiction|].
    simpl in H. rewrite all2_app in H by apply finals_length.
    apply andb_true_iff in H. destruct H as [H0 H1].
    destruct Hb as [->|Hb].
    + now apply IH.
    + apply IHbs; [exact H1| |exact Hb].
      constructor; [exact Hb|exact Hrest].
Qed.

Lemma ordered_precedes (g : B -> list C) (x y : B) (bs : list B) :
  ordered R (map g bs) = true -> precedes x y bs -> all2 R (g x) (g y) = true.
Proof.
  intros H (l1 & l2 & l3 & ->).
  induction l1 as [|b l1 IH]; simpl in H; apply andb_true_iff in H;
    destruct H as [H H'].
  - rewrite forallb_forall in H. apply H.
    rewrite map_app. apply in_or_app. right. simpl. auto.
  - now apply IH.
Qed.

Lemma mono_snd (tbl : list (list B)) :
  forall a, snd (mono step leaf R tbl a) = finals step leaf tbl a.
Proof.
  induction tbl as [|bs rest IH]; intros a; simpl; [reflexivity|].
  rewrite flat_map_concat_map, map_map. f_equal.
  apply map_ext. intros b. apply IH.
Qed.

Lemma mono_sound (tbl : list (list B)) :
  forall a, fst (mono step leaf R tbl a) = true ->
  forall pre x y post,
    chosen (pre ++ x :: post) tbl ->
    precedes x y (nth (List.length pre) tbl []) ->
    R (leaf (fold_left step (pre ++ x :: post) a))
      (leaf (fold_left step (pre ++ y :: post) a)) = true.
Proof.
  induction tbl as [|bs rest IH]; intros a H pre x y post Hc Hp.
  - destruct pre; inversion Hc.
  - simpl in H. apply andb_true_iff in H. destruct H as [Hsub Hord].
    destruct pre as [|p pre]; simpl in *;
      inversion Hc as [|b bs' ch rest' Hb Hrest]; subst.
    + rewrite map_map in Hord.
      assert (E : map (fun b => snd (mono step leaf R rest (step a b))) bs
                  = map (fun b => finals step leaf rest (step a b)) bs)
        by (apply map_ext; intros; apply mono_snd).
      rewrite E in Hord.
      apply (all2_finals rest); [|exact Hrest].
      exact (ordered_precedes (fun b => finals step leaf rest (step a b)) x y bs
               Hord Hp).
    + rewrite forallb_forall in Hsub.
      apply IH; [|exact Hrest|exact Hp].
      apply Hsub. apply in_map_iff. eexists. split; [reflexivity|exact Hb].
Qed.

End Enumeration.

(** ** Scoring engine: the weighted sum *)

Lemma in_range_values (v : Z) : in_range v -> In v rating_values.
Proof. unfold in_range, rating_values. simpl. lia. Qed.

Lemma cells_chosen (a b c d e f g h : Z) :
  Forall in_range [a; b; c; d; e; f; g; h] ->
  chosen (cells a b c d e f g h) table.
Proof.
  intros H.
  repeat match goal with
         | H : Forall _ (_ :: _) |- _ => inversion H; clear H; subst
         end.
  unfold cells, assignment, table, factor_keys, chosen. cbn [map].
  repeat (apply Forall2_cons;
          [apply (in_map (fun v => cell (_, v))); now apply in_range_values|]).
  apply Forall2_nil.
Qed.

Lemma entries_rating (a b c d e f g h : Z) :
  entries (rating a b c d e f g h) =
  map (fun kv => (fst kv, of_Z (snd kv))) (assignment a b c d e f g h).
Proof. reflexivity. Qed.

Lemma score_fold (l : list (Factor * Z)) :
  forall z q,
    fold_left (fun sum kv => add sum (mul (snd kv) (WEIGHTS (fst kv))))
              (map (fun kv => (fst kv, of_Z (snd kv))) l) z
    = fst (fold_left accumulate (map cell l) (z, q)).
Proof.
  induction l as [|kv l IH]; intros z q; [reflexivity|].
  cbn [map fold_left fst snd].
  now rewrite (IH _ (q + inject_Z (snd kv) * decimal (fst kv))%Q).
Qed.


Lemma estimate_cells (a b c d e f g h : Z) :
  rawScore (estimate (rating a b c d e f g h)) =
  fst (fold_left accumulate (cells a b c d e f g h) (zero, 0%Q)).
Proof.
  unfold estimate. cbn [rawScore]. rewrite entries_rating.
  apply score_fold.
Qed.




Lemma below_spec (x y : Estimate) :
  below x y = true ->
  leb (rawScore x) (rawScore y) = true
  /\ fibonacciEstimate x <= fibonacciEstimate y.
Proof.
  unfold below. intros H. apply andb_true_iff in H. destruct H as [H1 H2].
  split; [exact H1|]. now apply Z.leb_le.
Qed.

Lemma table_monotone :
  fst (mono accumulate result below table (zero, 0%Q)) = true.
Proof. vm_compute. reflexivity. Qed.

Lemma precedes_map {A B : Type} (f : A -> B) (x y : A) (l : list A) :
  precedes x y l -> precedes (f x) (f y) (map f l).
Proof.
  intros (l1 & l2 & l3 & ->). exists (map f l1), (map f l2), (map f l3).
  now rewrite map_app, (map_cons f x), map_app.
Qed.

Lemma precedes_values (v v' : Z) :
  in_range v -> in_range v' -> v < v' -> precedes v v' rating_values.
Proof.
  unfold in_range, rating_values. intros Hv Hv' Hlt.
  assert (C : (v = 0 /\ v' = 1) \/ (v = 0 /\ v' = 2) \/ (v = 0 /\ v' = 3) \/
              (v = 1 /\ v' = 2) \/ (v = 1 /\ v' = 3) \/ (v = 2 /\ v' = 3))
    by lia.
  destruct C as [C|[C|[C|[C|[C|C]]]]]; destruct C; subst.
  - now exists [], [], [2; 3].
  - now exists [], [1], [3].
  - now exists [], [1; 2], [].
  - now exists [0], [], [3].
  - now exists [0], [2], [].
  - now exists [0; 1], [], [].
Qed.

Lemma ltb_values (v v' : Z) :
  in_range v -> in_range v' -> ltb (of_Z v) (of_Z v') = true -> v < v'.
Proof.
  unfold in_range. intros Hv Hv'.
  assert (Cv : v = 0 \/ v = 1 \/ v = 2 \/ v = 3) by lia.
  assert (Cv' : v' = 0 \/ v' = 1 \/ v' = 2 \/ v' = 3) by lia.
  destruct Cv as [-> | [-> | [-> | ->]]];
    destruct Cv' as [-> | [-> | [-> | ->]]];
    vm_compute; intros H; (reflexivity || discriminate).
Qed.

Lemma is_rating_rating (factors : EstimateFactors) :
  is_rating factors ->
  exists a b c d e f g h,
    Forall in_range [a; b; c; d; e; f; g; h] /\
    factors = rating a b c d e f g h.
Proof.
  intros H. destruct factors as [x1 x2 x3 x4 x5 x6 x7 x8].
  destruct (H uncertainty) as (a & Ha & Ea).
  destruct (H complexity) as (b & Hb & Eb).
  destruct (H testability) as (c & Hc & Ec).
  destruct (H legacyImpact) as (d & Hd & Ed).
  destruct (H integrationDifficulty) as (e & He & Ee).
  destruct (H refactorEffort) as (f & Hf & Ef).
  destruct (H dependencies) as (g & Hg & Eg).
  destruct (H requirementVolatility) as (h & Hh & Eh).
  cbn [get f_uncertainty f_complexity f_testability f_legacyImpact
       f_integrationDifficulty f_refactorEffort f_dependencies
       f_requirementVolatility] in *.
  subst. exists a, b, c, d, e, f, g, h. split; [|reflexivity].
  repeat (apply Forall_cons; [assumption|]). apply Forall_nil.
Qed.

(** Re-rating one dimension of a rating, on the leaves of the table. *)
Lemma rerate_below (pre post : list (Factor * Z)) (k : Factor) (v v' : Z) :
  chosen (map cell (pre ++ (k, v) :: post)) table ->
  nth (List.length pre) factor_keys uncertainty = k ->
  (List.length pre < 8)%nat ->
  in_range v -> in_range v' -> v < v' ->
  below
    (result (fold_left accumulate (map cell (pre ++ (k, v) :: post))
                       (zero, 0%Q)))
    (result (fold_left accumulate (map cell (pre ++ (k, v') :: post))
                       (zero, 0%Q)))
  = true.
Proof.
  intros Hc Hk Hlen Hv Hv' Hlt.
  rewrite !map_app, !map_cons.
  apply (mono_sound _ _ _ accumulate result below table (zero, 0%Q)
           table_monotone).
  - rewrite map_app, map_cons in Hc. exact Hc.
  - rewrite length_map. unfold table.
    assert (E : nth (List.length pre)
                    (map (fun key => map (fun v => cell (key, v)) rating_values)
                         factor_keys) []
                = map (fun v => cell (k, v)) rating_values).
    { rewrite <- Hk.
      rewrite (nth_indep _ [] (map (fun v => cell (uncertainty, v))
                                   rating_values))
        by (rewrite length_map; exact Hlen).
      apply (map_nth (fun key => map (fun v => cell (key, v)) rating_values)). }
    rewrite E. apply (precedes_map (fun v => cell (k, v))).
    now apply precedes_values.
Qed.



Lemma estimate_result (a b c d e f g h : Z) :
  estimate (rating a b c d e f g h) =
  result (fold_left accumulate (cells a b c d e f g h) (zero, 0%Q)).
Proof.
  unfold result. rewrite <- estimate_cells.
  unfold estimate. cbn [rawScore]. reflexivity.
Qed.

Lemma set_rating (a b c d e f g h : Z) (key : Factor) (v : Z) :
  set (rating a b c d e f g h) key (of_Z v) =
  match key with
  | uncertainty => rating v b c d e f g h
  | complexity => rating a v c d e f g h
  | testability => rating a b v d e f g h
  | legacyImpact => rating a b c v e f g h
  | integrationDifficulty => rating a b c d v f g h
  | refactorEffort => rating a b c d e v g h
  | dependencies => rating a b c d e f v h
  | requirementVolatility => rating a b c d e f g v
  end.
Proof. destruct key; reflexivity. Qed.





Lemma estimate_unit (factors : EstimateFactors) :
  fibonacciEstimate (estimate factors)
  = roundUpToFib (rawScore (estimate factors)).
Proof. unfold estimate. cbn [rawScore fibonacciEstimate]. reflexivity. Qed.







(** The rounding of the accumulation is observable: the decimal products of
    this rating sum to exactly 3, the binary64 sum is the next number above
    3, and the effort unit is 5. *)
Example rounding_crosses_a_boundary :
  (exact_score (rating 0 1 0 0 0 3 0 3) == 3)%Q
  /\ rawScore (estimate (rating 0 1 0 0 0 3 0 3))
     = S754_finite false 6755399441055745 (-51)
  /\ of_Z 3 = S754_finite false 6755399441055744 (-51)
  /\ fibonacciEstimate (estimate (rating 0 1 0 0 0 3 0 3)) = 5.
Proof. repeat split; vm_compute; reflexivity. Qed.

(** The example of the README: uncertainty 1, complexity 2, testability 1
    score 2.4 and get 3 points. *)
Example readme_example :
  estimate (rating 1 2 1 0 0 0 0 0)
  = {| rawScore := lit 24 10; fibonacciEstimate := 3 |}.
Proof. vm_compute. reflexivity. Qed.

(** ** Scoring engine: monotonicity *)

Lemma rerate_result (pre post : list (Factor * Z)) (k : Factor) (v v' : Z) :
  Forall in_range (map snd (pre ++ (k, v) :: post)) ->
  map fst (pre ++ (k, v) :: post) = factor_keys ->
  in_range v' -> v < v' ->
  below
    (result (fold_left accumulate (map cell (pre ++ (k, v) :: post))
                       (zero, 0%Q)))
    (result (fold_left accumulate (map cell (pre ++ (k, v') :: post))
                       (zero, 0%Q)))
  = true.
Proof.
  intros Hr Hk Hv' Hlt.
  assert (Hv : in_range v).
  { rewrite Forall_forall in Hr. apply Hr.
    rewrite map_app. apply in_or_app. right. simpl. auto. }
  assert (Hlen : List.length (pre ++ (k, v) :: post) = 8%nat).
  { rewrite <- (length_map fst), Hk. reflexivity. }
  rewrite length_app in Hlen. cbn [List.length] in Hlen.
  apply rerate_below; try assumption; [| |lia].
  - unfold chosen, table. rewrite <- Hk.
    clear Hk Hlen Hv. revert Hr. generalize (pre ++ (k, v) :: post).
    intros l Hr. induction l as [|[k0 v0] l IH]; cbn [map];
      [apply Forall2_nil|].
    inversion Hr; subst.
    apply Forall2_cons; [|now apply IH].
    apply (in_map (fun v => cell (k0, v))). now apply in_range_values.
  - rewrite <- Hk, map_app. rewrite app_nth2 by (rewrite length_map; lia).
    rewrite length_map, Nat.sub_diag. reflexivity.
Qed.

(** C6.  Raising the rating of one dimension of a rating and keeping the
    other seven leaves [rawScore] at least as large ([<=] on numbers) and the
    effort unit at least as large. *)
Theorem estimate_monotone (factors : EstimateFactors) (key : Factor)
    (v' : number) :
  is_rating factors -> rating_value v' -> ltb (get factors key) v' = true ->
  leb (rawScore (estimate factors))
      (rawScore (estimate (set factors key v'))) = true
  /\ fibonacciEstimate (estimate factors)
     <= fibonacciEstimate (estimate (set factors key v')).
Proof.
  intros H (w & Hw & ->) Hlt.
  destruct (is_rating_rating factors H)
    as (a & b & c & d & e & f & g & h & Hr & ->).
  rewrite set_rating.
  assert (B : below (estimate (rating a b c d e f g h))
                (estimate match key with
                  | uncertainty => rating w b c d e f g h
                  | complexity => rating a w c d e f g h
                  | testability => rating a b w d e f g h
                  | legacyImpact => rating a b c w e f g h
                  | integrationDifficulty => rating a b c d w f g h
                  | refactorEffort => rating a b c d e w g h
                  | dependencies => rating a b c d e f w h
                  | requirementVolatility => rating a b c d e f g w
                  end) = true).
  { pose proof (proj1 (Forall_forall _ _) Hr) as Hin.
    pose proof Hr as Hr'.
    destruct key;
      cbn [get rating f_uncertainty f_complexity f_testability
           f_legacyImpact f_integrationDifficulty f_refactorEffort
           f_dependencies f_requirementVolatility] in Hlt;
      (apply ltb_values in Hlt; [|apply Hin; simpl; tauto|assumption]);
      rewrite !estimate_result; unfold cells, assignment.
    - apply (rerate_result [] _ uncertainty a w);
        [exact Hr'|reflexivity|assumption|assumption].
    - apply (rerate_result [_] _ complexity b w);
        [exact Hr'|reflexivity|assumption|assumption].
    - apply (rerate_result [_; _] _ testability c w);
        [exact Hr'|reflexivity|assumption|assumption].
    - apply (rerate_result [_; _; _] _ legacyImpact d w);
        [exact Hr'|reflexivity|assumption|assumption].
    - apply (rerate_result [_; _; _; _] _ integrationDifficulty e w);
        [exact Hr'|reflexivity|assumption|assumption].
    - apply (rerate_result [_; _; _; _; _] _ refactorEffort f w);
        [exact Hr'|reflexivity|assumption|assumption].
    - apply (rerate_result [_; _; _; _; _; _] _ dependencies g w);
        [exact Hr'|reflexivity|assumption|assumption].
    - apply (rerate_result [_; _; _; _; _; _; _] _ requirementVolatility h w);
        [exact Hr'|reflexivity|assumption|assumption]. }
  exact (below_spec _ _ B).
Qed.

Lemma estimate_monotone_witness :
  leb (rawScore (estimate (rating 0 1 0 0 0 2 0 3)))
      (rawScore (estimate (set (rating 0 1 0 0 0 2 0 3) refactorEffort
                               (of_Z 3)))) = true
  /\ fibonacciEstimate (estimate (rating 0 1 0 0 0 2 0 3))
     <= fibonacciEstimate (estimate (set (rating 0 1 0 0 0 2 0 3)
                                          refactorEffort (of_Z 3))).
Proof.
  apply (estimate_monotone (rating 0 1 0 0 0 2 0 3) refactorEffort (of_Z 3)).
  - intros key. destruct key; cbn [get rating f_uncertainty f_complexity
      f_testability f_legacyImpact f_integrationDifficulty f_refactorEffort
      f_dependencies f_requirementVolatility];
      eexists; (split; [|reflexivity]); lia.
  - exists 3. split; [lia|reflexivity].
  - vm_compute. reflexivity.
Defined.

(** ** Scoring engine: the floor and the cap *)

(** C7, counterexample.  The score of the all-three rating is not the number
    12.9, and its value is not the rational 12.9 either. *)
Lemma all_three_score_is_not_12_9 :
  rawScore (estimate all_three) <> n12_9
  /\ ~ (toQ (rawScore (estimate all_three)) == 129 # 10)%Q
  /\ ~ floor_and_cap_as_stated.
Proof.
  assert (E : rawScore (estimate all_three) = below_12_9)
    by (vm_compute; reflexivity).
  assert (N : ~ (toQ (rawScore (estimate all_three)) == 129 # 10)%Q).
  { rewrite E. intros H. apply Qeq_bool_iff in H. vm_compute in H.
    discriminate. }
  split; [|split].
  - rewrite E. intros H. vm_compute in H. discriminate.
  - exact N.
  - intros (_ & _ & _ & H & _). exact (N H).
Qed.

(** C7, amended.  The all-zero rating scores 0 and gets effort unit 1.  The
    all-three rating scores 12.899999999999999, the binary64 number just
    below 12.9: that is three times the binary64 sum of the weights, it is
    less than 12.9 by less than 2^-49, and the effort unit is 8. *)
Theorem floor_and_cap :
  rawScore (estimate all_zero) = zero
  /\ fibonacciEstimate (estimate all_zero) = 1
  /\ rawScore (estimate all_three) = below_12_9
  /\ below_12_9 = SFpred prec emax n12_9
  /\ rawScore (estimate all_three) = mul (of_Z 3) weights_sum
  /\ (toQ (rawScore (estimate all_three)) < 129 # 10)%Q
  /\ ((129 # 10) - toQ (rawScore (estimate all_three)) < 1 # 2 ^ 49)%Q
  /\ fibonacciEstimate (estimate all_three) = 8.
Proof.
  assert (E : rawScore (estimate all_three) = below_12_9)
    by (vm_compute; reflexivity).
  repeat split; try (vm_compute; reflexivity); rewrite E; reflexivity.
Qed.

(** ** Sequential aggregator *)

Lemma pointToDays_duration (unit : Z) : pointToDays unit = duration unit.
Proof.
  unfold pointToDays, duration, pointToDaysMap. cbn [find fst snd].
  rewrite (Z.eqb_sym 1), (Z.eqb_sym 2), (Z.eqb_sym 3), (Z.eqb_sym 5),
          (Z.eqb_sym 8).
  destruct (unit =? 1); [reflexivity|].
  destruct (unit =? 2); [reflexivity|].
  destruct (unit =? 3); [reflexivity|].
  destruct (unit =? 5); [reflexivity|].
  destruct (unit =? 8); reflexivity.
Qed.

Lemma duration_outside (unit : Z) : ~ In unit FIB_NUMS -> duration unit = 0%Q.
Proof.
  unfold FIB_NUMS, duration. cbn [In]. intros H.
  destruct (Z.eqb_spec unit 1); [exfalso; auto|].
  destruct (Z.eqb_spec unit 2); [exfalso; auto|].
  destruct (Z.eqb_spec unit 3); [exfalso; auto|].
  destruct (Z.eqb_spec unit 5); [exfalso; auto 6|].
  destruct (Z.eqb_spec unit 8); [exfalso; auto 7|].
  reflexivity.
Qed.

Lemma sumPoints_from (tasks : list Task) :
  forall z,
    fold_left (fun sum task => sum + task_fibonacciEstimate task) tasks z
    = z + sumZ (map task_fibonacciEstimate tasks).
Proof.
  induction tasks as [|t tasks IH]; intros z;
    cbn [fold_left map sumZ fold_right].
  - lia.
  - rewrite IH. unfold sumZ. lia.
Qed.

Lemma sumPoints_sumZ (tasks : list Task) :
  sumPoints tasks = sumZ (map task_fibonacciEstimate tasks).
Proof. unfold sumPoints. rewrite sumPoints_from. lia. Qed.

Lemma sumDays_from (tasks : list Task) :
  forall q,
    (fold_left (fun sum task =>
                  sum + pointToDays (task_fibonacciEstimate task))
               tasks q
     == q + sumQ (map (fun t => duration (task_fibonacciEstimate t)) tasks))%Q.
Proof.
  induction tasks as [|t tasks IH]; intros q;
    cbn [fold_left map sumQ fold_right].
  - ring.
  - rewrite IH, pointToDays_duration. unfold sumQ. ring.
Qed.

(** C3.  The sequential estimate: [totalPoints] is the sum of the tasks'
    effort units; [estimatedDays] is the sum of their durations under the
    table 1 -> 1, 2 -> 1, 3 -> 1.5, 5 -> 2.5, 8 -> 5, an effort unit outside
    the scale counting for nothing, and is not rounded; the delivery date is
    today moved by the ceiling of [estimatedDays]. *)
Theorem sequential_estimate {Date : Type} (addDays : Date -> number -> Date)
    (today : Date) (tasks : list Task) :
  totalPoints (calculateEpicEstimate addDays today tasks)
  = sumZ (map task_fibonacciEstimate tasks)
  /\ (estimatedDays (calculateEpicEstimate addDays today tasks)
      == sumQ (map (fun t => duration (task_fibonacciEstimate t)) tasks))%Q
  /\ (duration 1 == 1 /\ duration 2 == 1 /\ duration 3 == 15 # 10
      /\ duration 5 == 25 # 10 /\ duration 8 == 5)%Q
  /\ (forall unit, ~ In unit FIB_NUMS ->
        pointToDays unit = 0%Q /\ duration unit = 0%Q)
  /\ estimatedDeliveryDate (calculateEpicEstimate addDays today tasks)
     = addDays today
         (of_Z (Qceiling
                  (estimatedDays (calculateEpicEstimate addDays today tasks)))).
Proof.
  unfold calculateEpicEstimate.
  cbn [totalPoints estimatedDays estimatedDeliveryDate].
  split; [|split; [|split; [|split]]].
  - apply sumPoints_sumZ.
  - rewrite sumDays_from. ring.
  - repeat split; reflexivity.
  - intros unit H. rewrite pointToDays_duration.
    split; now apply duration_outside.
  - reflexivity.
Qed.

Lemma sequential_estimate_witness :
  pointToDays 4 = 0%Q /\ duration 4 = 0%Q.
Proof.
  apply (proj1 (proj2 (proj2 (proj2
           (sequential_estimate (fun (d : Z) (_ : number) => d) 0 []))))).
  unfold FIB_NUMS. cbn [In]. lia.
Defined.

(** ** Objects used as maps *)

Lemma lookup_assign {A : Type} (key k : string) (v : A)
    (obj : list (string * A)) :
  lookup k (assign key v obj) =
  if String.eqb key k then Some v else lookup k obj.
Proof.
  induction obj as [|[k0 w] obj IH]; cbn [assign lookup].
  - reflexivity.
  - destruct (String.eqb_spec k0 key) as [->|Hne]; cbn [lookup].
    + destruct (String.eqb key k); reflexivity.
    + rewrite IH. destruct (String.eqb_spec k0 k) as [->|Hne'];
        [|reflexivity].
      destruct (String.eqb_spec key k) as [->|_]; [congruence|reflexivity].
Qed.

Lemma lookup_None {A : Type} (k : string) (obj : list (string * A)) :
  lookup k obj = None <-> ~ In k (map fst obj).
Proof.
  induction obj as [|[k0 w] obj IH]; cbn [lookup map fst In].
  - tauto.
  - destruct (String.eqb_spec k0 k) as [->|Hne].
    + split; [discriminate|]. intros H. exfalso. auto.
    + rewrite IH. tauto.
Qed.

Lemma assign_fresh {A : Type} (key : string) (v : A)
    (obj : list (string * A)) :
  ~ In key (map fst obj) -> assign key v obj = obj ++ [(key, v)].
Proof.
  induction obj as [|[k0 w] obj IH]; cbn [assign map fst In app]; intros H.
  - reflexivity.
  - destruct (String.eqb_spec k0 key) as [->|Hne]; [exfalso; auto|].
    rewrite IH by tauto. reflexivity.
Qed.

(** ** Grouping the tasks by developer *)

Lemma lookup_push (key k : string) (task : Task)
    (acc : list (string * list Task)) :
  lookup k (push key task acc) =
  if String.eqb key k then
    Some (match lookup k acc with Some ts => ts | None => [] end ++ [task])
  else lookup k acc.
Proof.
  induction acc as [|[k0 ts] acc IH]; cbn [push lookup].
  - destruct (String.eqb key k); reflexivity.
  - destruct (String.eqb_spec k0 key) as [->|Hne]; cbn [lookup].
    + destruct (String.eqb key k); reflexivity.
    + rewrite IH. destruct (String.eqb_spec k0 k) as [->|Hne'];
        [|reflexivity].
      destruct (String.eqb_spec key k) as [->|_]; [congruence|reflexivity].
Qed.

Lemma push_keys (key : string) (task : Task)
    (acc : list (string * list Task)) :
  map fst (push key task acc) =
  if existsb (String.eqb key) (map fst acc) then map fst acc
  else map fst acc ++ [key].
Proof.
  induction acc as [|[k0 ts] acc IH]; cbn [push map fst existsb app].
  - reflexivity.
  - rewrite (String.eqb_sym key k0).
    destruct (String.eqb_spec k0 key) as [->|Hne]; cbn [map fst orb].
    + reflexivity.
    + rewrite IH. destruct (existsb (String.eqb key) (map fst acc));
        reflexivity.
Qed.

Lemma push_NoDup (key : string) (task : Task)
    (acc : list (string * list Task)) :
  NoDup (map fst acc) -> NoDup (map fst (push key task acc)).
Proof.
  intros H. rewrite push_keys.
  destruct (existsb (String.eqb key) (map fst acc)) eqn:E; [exact H|].
  apply NoDup_app;
    [exact H|apply NoDup_cons; [intros []|apply NoDup_nil]|].
  intros x Hx [<-|[]].
  assert (C : existsb (String.eqb key) (map fst acc) = true).
  { apply existsb_exists. exists key.
    split; [exact Hx|apply String.eqb_refl]. }
  congruence.
Qed.

Lemma group_NoDup (tasks : list Task) :
  forall acc, NoDup (map fst acc) ->
    NoDup (map fst
             (fold_left (fun acc task => push (assignedTo task) task acc)
                        tasks acc)).
Proof.
  induction tasks as [|t tasks IH]; intros acc H; cbn [fold_left].
  - exact H.
  - apply IH. now apply push_NoDup.
Qed.

Lemma tasksByDev_NoDup (tasks : list Task) :
  NoDup (map fst (tasksByDev tasks)).
Proof. apply group_NoDup. constructor. Qed.

Lemma lookup_group (k : string) (tasks : list Task) :
  forall acc,
    lookup k (fold_left (fun acc task => push (assignedTo task) task acc)
                        tasks acc) =
    match lookup k acc, tasksOf k tasks with
    | None, [] => None
    | None, ts => Some ts
    | Some l, ts => Some (l ++ ts)
    end.
Proof.
  induction tasks as [|t tasks IH]; intros acc;
    cbn [fold_left tasksOf filter].
  - destruct (lookup k acc); [now rewrite app_nil_r|reflexivity].
  - rewrite IH, lookup_push. fold (tasksOf k tasks).
    destruct (String.eqb (assignedTo t) k).
    + destruct (lookup k acc) as [l|].
      * now rewrite <- app_assoc.
      * reflexivity.
    + reflexivity.
Qed.

Lemma lookup_tasksByDev (k : string) (tasks : list Task) :
  lookup k (tasksByDev tasks) =
  match tasksOf k tasks with [] => None | ts => Some ts end.
Proof. unfold tasksByDev. now rewrite lookup_group. Qed.

(** ** The grouping call *)

Lemma reduce_tasks_spec (tasks : list Task) :
  forall acc,
    (forall k, inherited k = true -> lookup k acc = None) ->
    reduce_tasks tasks acc
    = if existsb (fun t => inherited (assignedTo t)) tasks
      then Thrown not_a_function
      else Returned (fold_left (fun acc task =>
                                  push (assignedTo task) task acc)
                               tasks acc).
Proof.
  induction tasks as [|t tasks IH]; intros acc Hacc;
    cbn [reduce_tasks existsb fold_left]; [reflexivity|].
  unfold groupTask. destruct (inherited (assignedTo t)) eqn:I.
  - now rewrite (Hacc _ I).
  - cbn [orb].
    assert (E : match lookup (assignedTo t) acc with
                | Some _ => Returned (push (assignedTo t) t acc)
                | None => Returned (push (assignedTo t) t acc)
                end = Returned (push (assignedTo t) t acc))
      by (destruct (lookup (assignedTo t) acc); reflexivity).
    rewrite E. apply IH. intros k Hk. rewrite lookup_push.
    destruct (String.eqb_spec (assignedTo t) k) as [<-|_]; [congruence|].
    now apply Hacc.
Qed.

(** A call throws when some task is assigned to the name of an inherited
    property, and returns the estimate otherwise. *)
Lemma call_spec {Date : Type} (addDays : Date -> number -> Date)
    (today : Date) (tasks : list Task) (developers : list Developer) :
  calculateParallelEstimate_call addDays today tasks developers
  = if existsb (fun t => inherited (assignedTo t)) tasks
    then Thrown not_a_function
    else Returned (calculateParallelEstimate addDays today tasks developers).
Proof.
  unfold calculateParallelEstimate_call.
  rewrite (reduce_tasks_spec tasks []) by reflexivity.
  destruct (existsb (fun t => inherited (assignedTo t)) tasks); reflexivity.
Qed.

Lemma call_Returned {Date : Type} (addDays : Date -> number -> Date)
    (today : Date) (tasks : list Task) (developers : list Developer)
    (p : ParallelEstimate Date) :
  calculateParallelEstimate_call addDays today tasks developers = Returned p ->
  p = calculateParallelEstimate addDays today tasks developers.
Proof.
  rewrite call_spec.
  destruct (existsb (fun t => inherited (assignedTo t)) tasks);
    [discriminate|].
  intros H. injection H as <-. reflexivity.
Qed.

(** ** The loop over the groups *)

Lemma findDev_None (developers : list Developer) (devId : string) :
  findDev developers devId = None <-> ~ In devId (map id developers).
Proof.
  unfold findDev.
  induction developers as [|d ds IH]; cbn [find map In].
  - tauto.
  - destruct (String.eqb_spec (id d) devId) as [->|Hne].
    + split; [discriminate|]. intros H. exfalso. auto.
    + rewrite IH. tauto.
Qed.

Lemma findDev_Some (developers : list Developer) (devId : string)
    (dev : Developer) :
  findDev developers devId = Some dev -> In dev developers /\ id dev = devId.
Proof.
  unfold findDev. intros H. apply find_some in H. destruct H as [H1 H2].
  split; [exact H1|]. now apply String.eqb_eq.
Qed.

Lemma forEach_spec (developers : list Developer)
    (groups : list (string * list Task)) :
  forall acc m,
    NoDup (map fst acc ++ map fst groups) ->
    fold_left (devStep developers) groups (acc, m) =
    (acc ++ estimatesOf developers groups,
     fold_left Math_max
               (map (fun e => days (snd e)) (estimatesOf developers groups))
               m).
Proof.
  induction groups as [|[k ts] groups IH]; intros acc m H;
    cbn [fold_left estimatesOf flat_map map].
  - now rewrite app_nil_r.
  - cbn [map fst] in H. unfold devStep at 2, entryOf. cbn [fst snd].
    destruct (findDev developers k) as [dev|].
    + rewrite assign_fresh.
      * rewrite IH.
        -- cbn [app map fold_left snd days]. now rewrite <- app_assoc.
        -- rewrite map_app, <- app_assoc. exact H.
      * apply NoDup_remove_2 in H. intros C. apply H.
        apply in_or_app. now left.
    + rewrite IH; [reflexivity|]. now apply NoDup_remove_1 in H.
Qed.

Lemma parallel_breakdown {Date : Type} (addDays : Date -> number -> Date)
    (today : Date) (tasks : list Task) (developers : list Developer) :
  breakdown (calculateParallelEstimate addDays today tasks developers)
  = estimatesOf developers (tasksByDev tasks).
Proof.
  unfold calculateParallelEstimate. cbn [breakdown].
  rewrite forEach_spec by apply tasksByDev_NoDup. reflexivity.
Qed.

Lemma parallel_totalDays {Date : Type} (addDays : Date -> number -> Date)
    (today : Date) (tasks : list Task) (developers : list Developer) :
  totalDays (calculateParallelEstimate addDays today tasks developers)
  = fold_left Math_max
      (map (fun e => days (snd e))
           (estimatesOf developers (tasksByDev tasks))) zero.
Proof.
  unfold calculateParallelEstimate. cbn [totalDays].
  rewrite forEach_spec by apply tasksByDev_NoDup. reflexivity.
Qed.

Lemma lookup_app {A : Type} (k : string) (l1 l2 : list (string * A)) :
  lookup k (l1 ++ l2) =
  match lookup k l1 with Some v => Some v | None => lookup k l2 end.
Proof.
  induction l1 as [|[k0 v] l1 IH]; cbn [app lookup]; [reflexivity|].
  destruct (String.eqb k0 k); [reflexivity|exact IH].
Qed.


Lemma lookup_estimatesOf (developers : list Developer) (k : string)
    (groups : list (string * list Task)) :
  lookup k (estimatesOf developers groups) =
  match lookup k groups with
  | Some ts => option_map snd (entryOf developers (k, ts))
  | None => None
  end.
Proof.
  induction groups as [|[k0 ts] groups IH];
    cbn [estimatesOf flat_map lookup]; [reflexivity|].
  rewrite lookup_app. fold (estimatesOf developers groups). rewrite IH.
  unfold entryOf. cbn [fst snd].
  destruct (String.eqb_spec k0 k) as [->|Hne].
  - destruct (findDev developers k) as [dev|] eqn:E.
    + cbn [lookup option_map snd]. now rewrite String.eqb_refl.
    + cbn [lookup option_map].
      destruct (lookup k groups); reflexivity.
  - destruct (findDev developers k0) as [dev|]; [|reflexivity].
    cbn [lookup]. destruct (String.eqb_spec k0 k); [contradiction|].
    reflexivity.
Qed.

(** The entry of a developer in the breakdown. *)
Lemma lookup_breakdown {Date : Type} (addDays : Date -> number -> Date)
    (today : Date) (tasks : list Task) (developers : list Developer)
    (k : string) :
  lookup k (breakdown
              (calculateParallelEstimate addDays today tasks developers)) =
  match tasksOf k tasks, findDev developers k with
  | _ :: _, Some dev =>
      Some {| de_name := dev_name dev;
              days := daysFor (sumPoints (tasksOf k tasks)) (capacity dev);
              points := sumPoints (tasksOf k tasks) |}
  | _, _ => None
  end.
Proof.
  rewrite parallel_breakdown, lookup_estimatesOf, lookup_tasksByDev.
  unfold entryOf. cbn [fst snd].
  destruct (tasksOf k tasks) as [|t ts]; [reflexivity|].
  destruct (findDev developers k); reflexivity.
Qed.

(** ** Parallel scheduler: tasks of unknown developers *)








(** ** Parallel scheduler: the points of the breakdown *)

Lemma matched_In (developers : list Developer) (devId : string) :
  matched developers devId = true <-> In devId (map id developers).
Proof.
  unfold matched. destruct (findDev developers devId) as [dev|] eqn:E.
  - apply findDev_Some in E. destruct E as [E1 <-].
    split; [intros _; now apply in_map|reflexivity].
  - apply findDev_None in E. split; [discriminate|contradiction].
Qed.

Lemma sumZ_app (l1 l2 : list Z) : sumZ (l1 ++ l2) = sumZ l1 + sumZ l2.
Proof.
  unfold sumZ. induction l1 as [|x l1 IH]; cbn [app fold_right]; lia.
Qed.

Lemma sumPoints_snoc (ts : list Task) (t : Task) :
  sumPoints (ts ++ [t]) = sumPoints ts + task_fibonacciEstimate t.
Proof.
  rewrite !sumPoints_sumZ, map_app, sumZ_app. cbn [map sumZ fold_right]. lia.
Qed.

Lemma estimatesOf_points (developers : list Developer)
    (groups : list (string * list Task)) :
  sumZ (map (fun e => points (snd e)) (estimatesOf developers groups))
  = groupPoints developers groups.
Proof.
  unfold groupPoints.
  induction groups as [|[k ts] groups IH];
    cbn [estimatesOf flat_map map]; [reflexivity|].
  rewrite map_app, sumZ_app. fold (estimatesOf developers groups).
  rewrite IH. unfold entryOf, matched. cbn [fst snd].
  destruct (findDev developers k); cbn [map sumZ fold_right snd points];
    unfold sumZ; lia.
Qed.

Lemma groupPoints_push (developers : list Developer) (key : string)
    (task : Task) (acc : list (string * list Task)) :
  groupPoints developers (push key task acc) =
  groupPoints developers acc
  + (if matched developers key then task_fibonacciEstimate task else 0).
Proof.
  unfold groupPoints.
  induction acc as [|[k0 ts] acc IH]; cbn [push map sumZ fold_right fst snd].
  - destruct (matched developers key); cbn [sumPoints fold_left]; lia.
  - destruct (String.eqb_spec k0 key) as [->|Hne];
      cbn [map sumZ fold_right fst snd].
    + destruct (matched developers key); [rewrite sumPoints_snoc|]; lia.
    + unfold sumZ in IH. rewrite IH. lia.
Qed.

Lemma groupPoints_group (developers : list Developer) (tasks : list Task) :
  forall acc,
    groupPoints developers
      (fold_left (fun acc task => push (assignedTo task) task acc) tasks acc)
    = groupPoints developers acc
      + sumZ (map task_fibonacciEstimate
                  (filter (fun t => matched developers (assignedTo t))
                          tasks)).
Proof.
  induction tasks as [|t tasks IH]; intros acc; cbn [fold_left filter].
  - cbn [map sumZ fold_right]. lia.
  - rewrite IH, groupPoints_push.
    destruct (matched developers (assignedTo t));
      cbn [map sumZ fold_right]; unfold sumZ; lia.
Qed.

Lemma filter_sum_le (P : Task -> bool) (tasks : list Task) :
  Forall (fun t => 0 < task_fibonacciEstimate t) tasks ->
  sumZ (map task_fibonacciEstimate (filter P tasks))
  <= sumZ (map task_fibonacciEstimate tasks)
  /\ (sumZ (map task_fibonacciEstimate (filter P tasks))
      = sumZ (map task_fibonacciEstimate tasks)
      <-> Forall (fun t => P t = true) tasks).
Proof.
  induction 1 as [|t tasks Ht Hts IH]; cbn [filter map sumZ fold_right].
  - split; [lia|]. split; [constructor|reflexivity].
  - destruct IH as [IH1 IH2]. fold (sumZ (map task_fibonacciEstimate tasks)).
    destruct (P t) eqn:E; cbn [map sumZ fold_right];
      fold (sumZ (map task_fibonacciEstimate (filter P tasks))).
    + split; [lia|]. split.
      * intros H. constructor; [exact E|]. apply IH2. lia.
      * intros H. inversion H; subst. apply IH2 in H3. lia.
    + split; [lia|]. split; [lia|].
      intros H. inversion H; subst. congruence.
Qed.

(** C9.  The points of the breakdown add up to the effort units of exactly
    the tasks whose assigned developer id occurs in the developer list; with
    effort units from the scale (positive), that is at most the sequential
    estimate's total, and equal to it exactly when every task's developer id
    occurs in the list. *)
Theorem breakdown_points_sum {Date : Type} (addDays : Date -> number -> Date)
    (today : Date) (tasks : list Task) (developers : list Developer) :
  sumZ (map (fun e => points (snd e))
            (breakdown
               (calculateParallelEstimate addDays today tasks developers)))
  = sumZ (map task_fibonacciEstimate
              (filter (fun t => matched developers (assignedTo t)) tasks))
  /\ (forall t, matched developers (assignedTo t) = true
                <-> In (assignedTo t) (map id developers))
  /\ (Forall (fun t => 0 < task_fibonacciEstimate t) tasks ->
      sumZ (map (fun e => points (snd e))
                (breakdown
                   (calculateParallelEstimate addDays today tasks
                                              developers)))
      <= totalPoints (calculateEpicEstimate addDays today tasks)
      /\ (sumZ (map (fun e => points (snd e))
                    (breakdown
                       (calculateParallelEstimate addDays today tasks
                                                  developers)))
          = totalPoints (calculateEpicEstimate addDays today tasks)
          <-> Forall (fun t => In (assignedTo t) (map id developers))
                     tasks)).
Proof.
  assert (E : sumZ (map (fun e => points (snd e))
                (breakdown
                   (calculateParallelEstimate addDays today tasks
                                              developers)))
              = sumZ (map task_fibonacciEstimate
                   (filter (fun t => matched developers (assignedTo t))
                           tasks))).
  { rewrite parallel_breakdown, estimatesOf_points. unfold tasksByDev.
    rewrite groupPoints_group. unfold groupPoints.
    cbn [map sumZ fold_right]. lia. }
  split; [exact E|]. split; [intros t; apply matched_In|].
  intros Hpos. rewrite E.
  unfold calculateEpicEstimate. cbn [totalPoints]. rewrite sumPoints_sumZ.
  destruct (filter_sum_le (fun t => matched developers (assignedTo t))
              tasks Hpos) as [H1 H2].
  split; [exact H1|]. rewrite H2. rewrite !Forall_forall.
  split; intros H t Ht; apply matched_In; now apply H.
Qed.

Lemma breakdown_points_sum_witness :
  sumZ (map (fun e => points (snd e))
            (breakdown
               (calculateParallelEstimate (fun (d : Z) (_ : number) => d) 0
                  [mkTask "a" Backend "dev-1" all_zero zero 5;
                   mkTask "b" Backend "dev-9" all_zero zero 3]
                  [mkDeveloper "dev-1" "Ann" Backend (of_Z 4)])))
  <= totalPoints (calculateEpicEstimate (fun (d : Z) (_ : number) => d) 0
                  [mkTask "a" Backend "dev-1" all_zero zero 5;
                   mkTask "b" Backend "dev-9" all_zero zero 3]).
Proof.
  apply (breakdown_points_sum (fun (d : Z) (_ : number) => d) 0
           [mkTask "a" Backend "dev-1" all_zero zero 5;
            mkTask "b" Backend "dev-9" all_zero zero 3]
           [mkDeveloper "dev-1" "Ann" Backend (of_Z 4)]).
  repeat constructor.
Defined.

(** ** [Math.max] is a maximum *)

Lemma rank_inj (x y : number) :
  is_nan x = false -> is_nan y = false -> rank x = rank y -> x = y.
Proof.
  destruct x as [[|]|[|]| |[|] mx ex], y as [[|]|[|]| |[|] my ey];
    cbn [rank key is_nan]; intros Hx Hy H; try discriminate;
    try reflexivity; inversion H; subst; try reflexivity.
  f_equal. lia.
Qed.

Lemma Math_max_nan_l (y : number) : Math_max S754_nan y = S754_nan.
Proof. reflexivity. Qed.

Lemma Math_max_nan_r (x : number) : Math_max x S754_nan = S754_nan.
Proof. now destruct x as [[|]|[|]| |[|] mx ex]. Qed.

Lemma Math_max_rank (x y : number) :
  is_nan x = false -> is_nan y = false ->
  is_nan (Math_max x y) = false
  /\ rank (Math_max x y) = key_max (rank x) (rank y).
Proof.
  intros Hx Hy. unfold Math_max. rewrite (SFcompare_key x y Hx Hy).
  destruct x as [[|]|[|]| |[|] mx ex], y as [[|]|[|]| |[|] my ey];
    try discriminate;
    try (split; reflexivity);
    cbn [rank key]; unfold key_max;
    destruct (key_compare _ _); split; reflexivity.
Qed.

Lemma key_max_right_comm (a x y : Z * (Z * Z)) :
  key_max (key_max a x) y = key_max (key_max a y) x.
Proof.
  destruct a as [a1 [a2 a3]], x as [x1 [x2 x3]], y as [y1 [y2 y3]].
  unfold key_max.
  destruct (key_compare (a1, (a2, a3)) (x1, (x2, x3))) eqn:E1;
    destruct (key_compare (a1, (a2, a3)) (y1, (y2, y3))) eqn:E2;
  repeat match goal with
         | |- context [key_compare ?u ?v] =>
             let E := fresh "E" in destruct (key_compare u v) eqn:E
         end;
    repeat match goal with
           | H : key_compare _ _ = Eq |- _ =>
               apply key_compare_Eq in H; inversion H; clear H; subst
           | H : key_compare _ _ = Gt |- _ => apply key_compare_Gt in H
           | H : key_compare _ _ = Lt |- _ =>
               apply key_compare_Lt in H; cbn [fst snd] in H
           end;
    try reflexivity; try discriminate; try (exfalso; lia);
    repeat f_equal; lia.
Qed.

Lemma Math_max_right_comm (a x y : number) :
  Math_max (Math_max a x) y = Math_max (Math_max a y) x.
Proof.
  destruct (is_nan a) eqn:Ha.
  { destruct a; try discriminate. reflexivity. }
  destruct (is_nan x) eqn:Hx.
  { destruct x; try discriminate.
    now rewrite !Math_max_nan_r, Math_max_nan_l. }
  destruct (is_nan y) eqn:Hy.
  { destruct y; try discriminate.
    now rewrite !Math_max_nan_r, Math_max_nan_l. }
  destruct (Math_max_rank a x Ha Hx) as [N1 R1].
  destruct (Math_max_rank a y Ha Hy) as [N2 R2].
  destruct (Math_max_rank _ y N1 Hy) as [N3 R3].
  destruct (Math_max_rank _ x N2 Hx) as [N4 R4].
  apply rank_inj; [exact N3|exact N4|].
  rewrite R3, R4, R1, R2. apply key_max_right_comm.
Qed.

Lemma fold_max_Permutation (l l' : list number) :
  Permutation l l' ->
  forall m, fold_left Math_max l m = fold_left Math_max l' m.
Proof.
  induction 1 as [|x l l' _ IH|x y l|l l' l'' _ IH1 _ IH2]; intros m;
    cbn [fold_left].
  - reflexivity.
  - apply IH.
  - now rewrite Math_max_right_comm.
  - now rewrite IH1.
Qed.

(** ** Order independence *)

Lemma sumZ_Permutation (l l' : list Z) :
  Permutation l l' -> sumZ l = sumZ l'.
Proof.
  unfold sumZ. induction 1; cbn [fold_right]; lia.
Qed.

Lemma sumQ_Permutation (l l' : list Q) :
  Permutation l l' -> (sumQ l == sumQ l')%Q.
Proof.
  unfold sumQ. induction 1 as [|x l l' _ IH|x y l|l l' l'' _ IH1 _ IH2];
    cbn [fold_right].
  - reflexivity.
  - now rewrite IH.
  - ring.
  - now rewrite IH1.
Qed.

Lemma tasksOf_Permutation (k : string) (tasks tasks' : list Task) :
  Permutation tasks tasks' ->
  Permutation (tasksOf k tasks) (tasksOf k tasks').
Proof.
  unfold tasksOf.
  induction 1 as [|x l l' _ IH|x y l|l l' l'' _ IH1 _ IH2]; cbn [filter].
  - constructor.
  - destruct (String.eqb (assignedTo x) k); [now constructor|exact IH].
  - destruct (String.eqb (assignedTo x) k), (String.eqb (assignedTo y) k);
      try apply Permutation_refl. apply perm_swap.
  - exact (Permutation_trans IH1 IH2).
Qed.

Lemma sumPoints_Permutation (ts ts' : list Task) :
  Permutation ts ts' -> sumPoints ts = sumPoints ts'.
Proof.
  intros H. rewrite !sumPoints_sumZ. apply sumZ_Permutation.
  now apply Permutation_map.
Qed.

Lemma findDev_In (developers : list Developer) (dev : Developer) :
  NoDup (map id developers) -> In dev developers ->
  findDev developers (id dev) = Some dev.
Proof.
  unfold findDev.
  induction developers as [|d ds IH]; cbn [map In find]; intros Hnd Hin.
  - contradiction.
  - inversion Hnd as [|? ? Hd Hds]; subst.
    destruct Hin as [->|Hin].
    + now rewrite String.eqb_refl.
    + destruct (String.eqb_spec (id d) (id dev)) as [E|_].
      * exfalso. apply Hd. rewrite E. now apply in_map.
      * now apply IH.
Qed.

Lemma findDev_Permutation (developers developers' : list Developer)
    (k : string) :
  NoDup (map id developers) -> Permutation developers developers' ->
  findDev developers k = findDev developers' k.
Proof.
  intros Hnd Hp.
  assert (Hnd' : NoDup (map id developers')).
  { apply (Permutation_NoDup (l := map id developers)); [|exact Hnd].
    now apply Permutation_map. }
  destruct (findDev developers k) as [dev|] eqn:E.
  - apply findDev_Some in E. destruct E as [Hin <-].
    symmetry. apply findDev_In; [exact Hnd'|].
    now apply (Permutation_in dev Hp).
  - symmetry. apply findDev_None. apply findDev_None in E.
    intros C. apply E.
    apply (Permutation_in k (Permutation_sym (Permutation_map id Hp))).
    exact C.
Qed.

Lemma In_lookup {A : Type} (k : string) (v : A) (l : list (string * A)) :
  NoDup (map fst l) -> (In (k, v) l <-> lookup k l = Some v).
Proof.
  induction l as [|[k0 w] l IH]; cbn [map fst In lookup]; intros Hnd.
  - split; [contradiction|discriminate].
  - inversion Hnd as [|? ? Hk Hl]; subst.
    destruct (String.eqb_spec k0 k) as [->|Hne].
    + split.
      * intros [E|Hin]; [now inversion E|].
        exfalso. apply Hk. now apply (in_map fst l (k, v)).
      * intros E. inversion E. now left.
    + rewrite <- (IH Hl). split.
      * intros [E|Hin]; [inversion E; contradiction|exact Hin].
      * intros Hin. now right.
Qed.

Lemma lookup_Permutation {A : Type} (l l' : list (string * A)) :
  NoDup (map fst l) -> NoDup (map fst l') ->
  (forall k, lookup k l = lookup k l') -> Permutation l l'.
Proof.
  intros Hl Hl' H.
  apply NoDup_Permutation.
  - now apply NoDup_map_inv in Hl.
  - now apply NoDup_map_inv in Hl'.
  - intros [k v]. now rewrite (In_lookup k v l Hl), (In_lookup k v l' Hl'), H.
Qed.

Lemma estimatesOf_keys (developers : list Developer)
    (groups : list (string * list Task)) :
  map fst (estimatesOf developers groups) =
  filter (matched developers) (map fst groups).
Proof.
  induction groups as [|[k ts] groups IH];
    cbn [estimatesOf flat_map map fst filter]; [reflexivity|].
  rewrite map_app. fold (estimatesOf developers groups). rewrite IH.
  unfold entryOf, matched. cbn [fst snd].
  destruct (findDev developers k); reflexivity.
Qed.

Lemma breakdown_NoDup {Date : Type} (addDays : Date -> number -> Date)
    (today : Date) (tasks : list Task) (developers : list Developer) :
  NoDup (map fst (breakdown (calculateParallelEstimate addDays today tasks
                                                       developers))).
Proof.
  rewrite parallel_breakdown, estimatesOf_keys.
  apply NoDup_filter. apply tasksByDev_NoDup.
Qed.

Lemma lookup_breakdown_Permutation {Date : Type}
    (addDays : Date -> number -> Date) (today : Date)
    (tasks tasks' : list Task) (developers developers' : list Developer)
    (k : string) :
  Permutation tasks tasks' ->
  (forall devId, findDev developers devId = findDev developers' devId) ->
  lookup k (breakdown (calculateParallelEstimate addDays today tasks
                                                 developers))
  = lookup k (breakdown (calculateParallelEstimate addDays today tasks'
                                                   developers')).
Proof.
  intros Ht Hd. rewrite !lookup_breakdown. rewrite <- (Hd k).
  pose proof (tasksOf_Permutation k tasks tasks' Ht) as Hk.
  rewrite <- (sumPoints_Permutation _ _ Hk).
  destruct (tasksOf k tasks) as [|t ts].
  - apply Permutation_nil in Hk. now rewrite Hk.
  - destruct (tasksOf k tasks') as [|t' ts']; [|reflexivity].
    apply Permutation_sym, Permutation_nil in Hk. discriminate Hk.
Qed.

Lemma totalDays_Permutation {Date : Type}
    (addDays : Date -> number -> Date) (today : Date)
    (tasks tasks' : list Task) (developers developers' : list Developer) :
  Permutation tasks tasks' ->
  (forall devId, findDev developers devId = findDev developers' devId) ->
  totalDays (calculateParallelEstimate addDays today tasks developers)
  = totalDays (calculateParallelEstimate addDays today tasks' developers').
Proof.
  intros Ht Hd. rewrite !parallel_totalDays. apply fold_max_Permutation.
  apply Permutation_map. rewrite <- !(parallel_breakdown addDays today).
  apply lookup_Permutation; try apply breakdown_NoDup.
  intros k. now apply lookup_breakdown_Permutation.
Qed.

(** C8.  A permutation of the task list leaves unchanged [totalPoints] and
    [estimatedDays] of the sequential estimate, and [totalDays] and every
    developer's entry (points, days, name) of the parallel estimate; so does,
    for the parallel estimate, a permutation of the developer list, whose
    ids are unique. *)
Theorem estimates_order_independent {Date : Type}
    (addDays : Date -> number -> Date) (today : Date)
    (tasks tasks' : list Task) (developers developers' : list Developer) :
  Permutation tasks tasks' -> Permutation developers developers' ->
  (totalPoints (calculateEpicEstimate addDays today tasks)
   = totalPoints (calculateEpicEstimate addDays today tasks')
   /\ (estimatedDays (calculateEpicEstimate addDays today tasks)
       == estimatedDays (calculateEpicEstimate addDays today tasks'))%Q)
  /\ (totalDays (calculateParallelEstimate addDays today tasks developers)
      = totalDays (calculateParallelEstimate addDays today tasks' developers)
      /\ forall devId,
           lookup devId (breakdown (calculateParallelEstimate
                                      addDays today tasks developers))
           = lookup devId (breakdown (calculateParallelEstimate
                                        addDays today tasks' developers)))
  /\ (NoDup (map id developers) ->
      totalDays (calculateParallelEstimate addDays today tasks developers)
      = totalDays (calculateParallelEstimate addDays today tasks'
                                             developers')
      /\ forall devId,
           lookup devId (breakdown (calculateParallelEstimate
                                      addDays today tasks developers))
           = lookup devId (breakdown (calculateParallelEstimate
                                        addDays today tasks' developers'))).
Proof.
  intros Ht Hd. split; [split|split].
  - unfold calculateEpicEstimate. cbn [totalPoints].
    now apply sumPoints_Permutation.
  - unfold calculateEpicEstimate. cbn [estimatedDays].
    rewrite !sumDays_from. apply Qplus_comp; [reflexivity|].
    apply sumQ_Permutation.
    now apply (Permutation_map
                 (fun t => duration (task_fibonacciEstimate t))).
  - split.
    + now apply totalDays_Permutation.
    + intros k. now apply lookup_breakdown_Permutation.
  - intros Hnd.
    assert (Hf : forall devId,
               findDev developers devId = findDev developers' devId)
      by (intros k; now apply findDev_Permutation).
    split.
    + now apply totalDays_Permutation.
    + intros k. now apply lookup_breakdown_Permutation.
Qed.

Lemma estimates_order_independent_witness :
  totalDays (calculateParallelEstimate plus_days 100 scenario_tasks
                                       scenario_developers)
  = totalDays (calculateParallelEstimate plus_days 100 (rev scenario_tasks)
                                         (rev scenario_developers)).
Proof.
  apply (estimates_order_independent plus_days 100 scenario_tasks
           (rev scenario_tasks) scenario_developers
           (rev scenario_developers)
           (Permutation_rev _) (Permutation_rev _)).
  cbn [scenario_developers map id].
  repeat (apply NoDup_cons; [cbn [In]; intuition discriminate|]).
  apply NoDup_nil.
Defined.

(** ** Binary64 rounding does not lose a positive number *)

Lemma digits2_pos_size (m : positive) : digits2_pos m = Pos.size m.
Proof. induction m as [m IH|m IH|]; cbn; now rewrite ?IH. Qed.

Lemma digits_bounds (m : positive) :
  2 ^ (Zpos (digits2_pos m) - 1) <= Zpos m < 2 ^ Zpos (digits2_pos m).
Proof.
  rewrite digits2_pos_size. split.
  - pose proof (Pos.size_le m) as H.
    assert (H' : 2 ^ Zpos (Pos.size m) <= 2 * Zpos m).
    { rewrite <- Pos2Z.inj_pow. exact H. }
    replace (Zpos (Pos.size m)) with (Zpos (Pos.size m) - 1 + 1) in H'
      by lia.
    rewrite Z.pow_add_r in H' by lia. lia.
  - pose proof (Pos.size_gt m) as H.
    rewrite <- Pos2Z.inj_pow. exact H.
Qed.

(** The digits of a positive integer, from bounds on it. *)
Lemma digits_lower (m : positive) (k : Z) :
  0 <= k -> 2 ^ k <= Zpos m -> k < Zpos (digits2_pos m).
Proof.
  intros Hk H. destruct (digits_bounds m) as [_ Hu].
  apply (Z.pow_lt_mono_r_iff 2); lia.
Qed.

Lemma shr_1_m (mrs : shr_record) :
  0 <= shr_m mrs -> shr_m (shr_1 mrs) = shr_m mrs / 2.
Proof.
  destruct mrs as [m r s]. cbn [shr_m]. intros H.
  destruct m as [|[p|p|]|p]; cbn [shr_1 shr_m].
  - reflexivity.
  - rewrite Pos2Z.inj_xI. apply Z.div_unique with (r := 1); lia.
  - rewrite Pos2Z.inj_xO. apply Z.div_unique with (r := 0); lia.
  - reflexivity.
  - lia.
Qed.

Lemma iter_shr_1_m (n : positive) :
  forall mrs, 0 <= shr_m mrs ->
    shr_m (SpecFloat.iter_pos shr_1 n mrs) = shr_m mrs / 2 ^ Zpos n.
Proof.
  induction n as [n IH|n IH|]; intros mrs H; cbn [SpecFloat.iter_pos].
  - assert (H1 : 0 <= shr_m (shr_1 mrs))
      by (rewrite shr_1_m by lia; apply Z.div_pos; lia).
    assert (H2 : 0 <= shr_m (SpecFloat.iter_pos shr_1 n (shr_1 mrs)))
      by (rewrite IH by lia; apply Z.div_pos; lia).
    rewrite IH, IH, shr_1_m by lia.
    assert (E : 2 ^ Zpos n~1 = 2 * 2 ^ Zpos n * 2 ^ Zpos n).
    { rewrite <- Z.mul_assoc, <- Z.pow_add_r, <- Z.pow_succ_r by lia.
      f_equal. lia. }
    rewrite E, !Z.div_div by lia. f_equal; lia.
  - assert (H2 : 0 <= shr_m (SpecFloat.iter_pos shr_1 n mrs))
      by (rewrite IH by lia; apply Z.div_pos; lia).
    rewrite IH, IH by lia.
    assert (E : 2 ^ Zpos n~0 = 2 ^ Zpos n * 2 ^ Zpos n).
    { rewrite <- Z.pow_add_r by lia. f_equal. lia. }
    rewrite E, !Z.div_div by lia. f_equal; lia.
  - rewrite shr_1_m by lia. reflexivity.
Qed.

(** Shifting right by fewer bits than the number has keeps it positive. *)
Lemma shr_positive (m : positive) (l : location) (e n : Z) :
  n < Zpos (digits2_pos m) ->
  0 < shr_m (fst (shr (shr_record_of_loc (Zpos m) l) e n))
  /\ e <= snd (shr (shr_record_of_loc (Zpos m) l) e n)
  /\ e + n <= snd (shr (shr_record_of_loc (Zpos m) l) e n).
Proof.
  intros Hn.
  assert (Hm : shr_m (shr_record_of_loc (Zpos m) l) = Zpos m)
    by (destruct l as [|[| |]]; reflexivity).
  destruct n as [|n|n]; cbn [shr fst snd]; rewrite ?Hm; try lia.
  rewrite iter_shr_1_m by lia. rewrite Hm.
  split; [|lia].
  destruct (digits_bounds m) as [Hl _].
  assert (H2 : 2 ^ Zpos n <= Zpos m).
  { apply Z.le_trans with (2 ^ (Zpos (digits2_pos m) - 1)); [|exact Hl].
    apply Z.pow_le_mono_r; lia. }
  assert (H3 : 0 < 2 ^ Zpos n) by (apply Z.pow_pos_nonneg; lia).
  apply Z.div_str_pos. lia.
Qed.

Lemma round_nearest_even_ge (m : Z) (l : location) :
  m <= round_nearest_even m l.
Proof.
  destruct l as [|[| |]]; cbn [round_nearest_even]; try lia.
  destruct (Z.even m); lia.
Qed.

(** Rounding a positive number that is at least the smallest subnormal
    gives a positive finite number, or the infinity, never zero. *)
Lemma binary_round_aux_positive (s : bool) (m : positive) (e : Z)
    (l : location) :
  -1074 < Zpos (digits2_pos m) + e ->
  binary_round_aux prec emax s (Zpos m) e l = S754_infinity s
  \/ exists m' e',
       binary_round_aux prec emax s (Zpos m) e l = S754_finite s m' e'
       /\ e <= e'.
Proof.
  intros Hmag. unfold binary_round_aux, shr_fexp.
  cbn [Zdigits2].
  set (n1 := fexp prec emax (Zpos (digits2_pos m) + e) - e).
  assert (Hn1 : n1 < Zpos (digits2_pos m) /\ -1074 <= e + n1).
  { unfold n1, fexp, SpecFloat.emin, prec, emax. lia. }
  destruct (shr_positive m l e n1 (proj1 Hn1)) as (P1 & P2 & P3).
  destruct (shr (shr_record_of_loc (Zpos m) l) e n1) as [mrs' e'].
  cbn [fst snd] in P1, P2, P3.
  pose proof (round_nearest_even_ge (shr_m mrs') (loc_of_shr_record mrs'))
    as Hr.
  destruct (round_nearest_even (shr_m mrs') (loc_of_shr_record mrs'))
    as [|p1|p1]; try lia.
  cbn [Zdigits2].
  set (n2 := fexp prec emax (Zpos (digits2_pos p1) + e') - e').
  assert (Hn2 : n2 < Zpos (digits2_pos p1)).
  { unfold n2, fexp, SpecFloat.emin, prec, emax. lia. }
  destruct (shr_positive p1 loc_Exact e' n2 Hn2) as (Q1 & Q2 & _).
  destruct (shr (shr_record_of_loc (Zpos p1) loc_Exact) e' n2)
    as [mrs'' e''].
  cbn [fst snd] in Q1, Q2.
  destruct (shr_m mrs'') as [|p2|p2]; try lia.
  destruct (e'' <=? emax - prec); [right|left; reflexivity].
  exists p2, e''. split; [reflexivity|lia].
Qed.

Lemma digits_iter_xO (p k : positive) :
  digits2_pos (Pos.iter xO p k) = (digits2_pos p + k)%positive.
Proof.
  induction k as [|k IH] using Pos.peano_ind.
  - cbn. now rewrite Pos.add_1_r.
  - rewrite Pos.iter_succ. cbn [digits2_pos]. rewrite IH. lia.
Qed.

Lemma binary_round_aux_exact (m : positive) (e : Z) :
  Zpos (digits2_pos m) = 53 -> -1021 <= e <= 971 ->
  binary_round_aux prec emax false (Zpos m) e loc_Exact
  = S754_finite false m e.
Proof.
  intros Hd He. unfold binary_round_aux, shr_fexp. cbn [Zdigits2].
  assert (E : fexp prec emax (Zpos (digits2_pos m) + e) - e = 0)
    by (unfold fexp, SpecFloat.emin, prec, emax; lia).
  rewrite E.
  cbn [shr shr_record_of_loc shr_m loc_of_shr_record round_nearest_even
       Zdigits2].
  rewrite E. cbn [shr shr_record_of_loc shr_m].
  destruct (Z.leb_spec e (emax - prec)) as [_|C];
    [reflexivity|unfold emax, prec in C; lia].
Qed.

Lemma of_Z_at_least_one (z : Z) : 1 <= z -> at_least_one (of_Z z).
Proof.
  intros Hz. destruct z as [|p|p]; try lia.
  unfold of_Z, binary_normalize, binary_round, shl_align.
  rewrite Z.add_0_r.
  set (d := Zpos (digits2_pos p)).
  assert (Hd : 1 <= d) by (unfold d; lia).
  destruct (Z.le_gt_cases d 53) as [Hsmall|Hbig].
  - assert (E : fexp prec emax d = d - 53)
      by (unfold fexp, SpecFloat.emin, prec, emax; lia).
    rewrite E, Z.sub_0_r.
    destruct (d - 53) as [|k|k] eqn:Ek; try lia.
    + rewrite binary_round_aux_exact by (fold d; lia).
      right. exists p, 0. split; [reflexivity|]. fold d. lia.
    + assert (Hk : Zpos (digits2_pos (Pos.iter xO p k)) = 53)
        by (rewrite digits_iter_xO, Pos2Z.inj_add; fold d; lia).
      rewrite binary_round_aux_exact by lia.
      right. exists (Pos.iter xO p k), (Zneg k).
      split; [reflexivity|]. rewrite Hk.
      destruct (digits_bounds (Pos.iter xO p k)) as [Hl _].
      rewrite Hk in Hl. change (53 - 1) with 52 in Hl. lia.
  - assert (E : fexp prec emax d = d - 53)
      by (unfold fexp, SpecFloat.emin, prec, emax; lia).
    rewrite E, Z.sub_0_r.
    destruct (d - 53) as [|k|k] eqn:Ek; try lia.
    destruct (binary_round_aux_positive false p 0 loc_Exact)
      as [H|(m' & e' & H & He)]; [lia|left; exact H|].
    right. exists m', e'. split; [exact H|]. lia.
Qed.

Lemma positive_finite_bounds (m : positive) (e : Z) :
  bounded prec emax m e = true -> Zpos (digits2_pos m) + e <= 1024.
Proof.
  unfold bounded, canonical_mantissa, fexp, SpecFloat.emin, prec, emax.
  intros H. apply andb_true_iff in H. destruct H as [H1 H2].
  apply Z.eqb_eq in H1. apply Z.leb_le in H2. lia.
Qed.

(** Dividing a number that is at least one by a positive real gives a
    positive number or the infinity: the quotient does not underflow. *)
Lemma div_positive (x c : number) :
  at_least_one x -> positive_finite c = true ->
  div x c = S754_infinity false
  \/ exists m e, div x c = S754_finite false m e.
Proof.
  intros Hx Hc.
  destruct c as [| | |[|] my ey]; try discriminate.
  cbn [positive_finite] in Hc. apply positive_finite_bounds in Hc.
  destruct Hx as [->|(mx & ex & -> & _ & Hmag)]; [left; reflexivity|].
  unfold div, SFdiv, SFdiv_core_binary. cbn [Zdigits2 xorb].
  set (d1 := Zpos (digits2_pos mx)) in *.
  set (d2 := Zpos (digits2_pos my)) in *.
  set (e' := Z.min (fexp prec emax (d1 + ex - (d2 + ey))) (ex - ey)).
  set (s := ex - ey - e').
  assert (Hd1 : 1 <= d1) by (unfold d1; lia).
  assert (Hd2 : 1 <= d2) by (unfold d2; lia).
  assert (Hs : 0 <= s /\ 0 <= d1 - 1 + s - d2).
  { unfold s, e', fexp, SpecFloat.emin, prec, emax. lia. }
  set (m' := match s with
             | 0 => Zpos mx
             | Zpos _ => Z.shiftl (Zpos mx) s
             | Zneg _ => 0
             end).
  assert (Hm' : m' = Zpos mx * 2 ^ s).
  { unfold m'. destruct s as [|k|k] eqn:Es; try lia.
    apply Z.shiftl_mul_pow2. lia. }
  destruct (Z.div_eucl m' (Zpos my)) as [q r] eqn:Eq.
  assert (Hq : q = m' / Zpos my) by (unfold Z.div; now rewrite Eq).
  set (t := d1 - 1 + s - d2) in *.
  assert (Hlow : 2 ^ t <= q).
  { rewrite Hq. apply Z.div_le_lower_bound; [lia|].
    destruct (digits_bounds mx) as [Hl _]. fold d1 in Hl.
    destruct (digits_bounds my) as [_ Hu]. fold d2 in Hu.
    rewrite Hm'.
    assert (P1 : 0 < 2 ^ t) by (apply Z.pow_pos_nonneg; lia).
    assert (P2 : 0 < 2 ^ s) by (apply Z.pow_pos_nonneg; lia).
    assert (P3 : 2 ^ d2 * 2 ^ t = 2 ^ (d1 - 1) * 2 ^ s).
    { rewrite <- !Z.pow_add_r by lia. f_equal. unfold t. lia. }
    nia. }
  assert (Hqpos : 0 < q).
  { assert (P1 : 0 < 2 ^ t) by (apply Z.pow_pos_nonneg; lia). lia. }
  destruct q as [|mq|mq]; try lia.
  pose proof (digits_lower mq t (proj2 Hs) Hlow) as Hdq.
  destruct (binary_round_aux_positive false mq e' (new_location (Zpos my) r))
    as [H|(m2 & e2 & H & _)].
  - unfold t, s in Hdq. lia.
  - left. exact H.
  - right. exists m2, e2. exact H.
Qed.

Lemma of_Z_1 : of_Z 1 = one.
Proof. vm_compute. reflexivity. Qed.

Lemma leb_one_finite (m : positive) (e : Z) :
  -52 < e \/ (e = -52 /\ 2 ^ 52 <= Zpos m) ->
  leb (of_Z 1) (S754_finite false m e) = true.
Proof.
  intros H. rewrite of_Z_1. apply leb_key.
  split; [reflexivity|]. split; [reflexivity|].
  intros C. apply key_compare_Gt, key_compare_Lt in C.
  cbn [key one fst snd] in C. change (2 ^ 52) with 4503599627370496 in H.
  lia.
Qed.

Lemma at_least_one_leb (x : number) :
  at_least_one x -> leb (of_Z 1) x = true.
Proof.
  intros [->|(m & e & -> & H & _)].
  - rewrite of_Z_1. reflexivity.
  - now apply leb_one_finite.
Qed.

(** The ceiling of a positive number is at least one. *)
Lemma Math_ceil_positive (x : number) :
  x = S754_infinity false \/ (exists m e, x = S754_finite false m e) ->
  leb (of_Z 1) (Math_ceil x) = true.
Proof.
  intros [->|(m & e & ->)].
  - rewrite of_Z_1. reflexivity.
  - destruct e as [|p|p]; cbn [Math_ceil mantissa].
    + apply leb_one_finite. lia.
    + apply leb_one_finite. lia.
    + assert (P : 0 < Z.pow_pos 2 p).
      { rewrite Z.pow_pos_fold. apply Z.pow_pos_nonneg; lia. }
      assert (H : - Zpos m / Z.pow_pos 2 p < 0)
        by (apply Z.div_lt_upper_bound; lia).
      destruct (Z.eqb_spec (- (- Zpos m / Z.pow_pos 2 p)) 0) as [E|_];
        [lia|].
      apply at_least_one_leb, of_Z_at_least_one. lia.
Qed.

Lemma daysFor_at_least_one (totalPoints : Z) (cap : number) :
  1 <= totalPoints -> positive_finite cap = true ->
  leb (of_Z 1) (daysFor totalPoints cap) = true.
Proof.
  intros Hp Hc. unfold daysFor. apply Math_ceil_positive.
  apply div_positive; [now apply of_Z_at_least_one|exact Hc].
Qed.

Lemma daysFor_zero (cap : number) :
  positive_finite cap = true -> daysFor 0 cap = zero.
Proof.
  destruct cap as [| | |[|] m e]; try discriminate. reflexivity.
Qed.

Lemma Math_max_zero_l (d : number) :
  leb (of_Z 1) d = true -> Math_max zero d = d.
Proof.
  rewrite of_Z_1. intros H. apply leb_key in H. destruct H as (_ & Hd & H).
  unfold Math_max. rewrite (SFcompare_key zero d eq_refl Hd).
  assert (L : key_compare (key zero) (key d) = Lt).
  { apply key_compare_Lt.
    assert (H1 : key_compare (key d) (key one) <> Lt).
    { intros C. apply H. now apply key_compare_Gt. }
    rewrite key_compare_Lt in H1. cbn [key one zero fst snd] in *. lia. }
  now rewrite L.
Qed.

Lemma Math_max_cases (m d : number) :
  is_nan m = false -> is_nan d = false ->
  Math_max m d = m \/ Math_max m d = d.
Proof.
  intros Hm Hd. unfold Math_max. rewrite (SFcompare_key m d Hm Hd).
  destruct (key_compare (key m) (key d)); auto.
  destruct m as [[|]| | |]; auto.
Qed.

Lemma leb_not_nan (x y : number) : leb x y = true -> is_nan y = false.
Proof. intros H. apply leb_key in H. tauto. Qed.

Lemma Math_max_at_least_one (m d : number) :
  leb (of_Z 1) m = true -> leb (of_Z 1) d = true ->
  leb (of_Z 1) (Math_max m d) = true.
Proof.
  intros Hm Hd.
  destruct (Math_max_cases m d (leb_not_nan _ _ Hm) (leb_not_nan _ _ Hd))
    as [-> | ->]; assumption.
Qed.

Lemma fold_max_at_least_one (ds : list number) :
  Forall (fun d => leb (of_Z 1) d = true) ds ->
  forall m, leb (of_Z 1) m = true ->
    leb (of_Z 1) (fold_left Math_max ds m) = true.
Proof.
  induction 1 as [|d ds Hd _ IH]; intros m Hm; cbn [fold_left].
  - exact Hm.
  - apply IH. now apply Math_max_at_least_one.
Qed.

Lemma leb_zero_of_one (x : number) :
  leb (of_Z 1) x = true -> leb zero x = true.
Proof.
  rewrite of_Z_1. intros H. apply leb_key in H. destruct H as (_ & Hx & H).
  apply leb_key. split; [reflexivity|]. split; [exact Hx|].
  intros C. apply key_compare_Gt, key_compare_Lt in C.
  assert (H1 : key_compare (key x) (key one) <> Lt).
  { intros C'. apply H. now apply key_compare_Gt. }
  rewrite key_compare_Lt in H1. cbn [key one zero fst snd] in *. lia.
Qed.

(** ** Parallel scheduler: the breakdown and the total *)

Lemma In_estimatesOf (developers : list Developer)
    (groups : list (string * list Task)) (k : string) (e : DevEstimate) :
  In (k, e) (estimatesOf developers groups) ->
  exists ts dev,
    In (k, ts) groups /\ findDev developers k = Some dev
    /\ e = {| de_name := dev_name dev;
              days := daysFor (sumPoints ts) (capacity dev);
              points := sumPoints ts |}.
Proof.
  unfold estimatesOf. intros H. apply in_flat_map in H.
  destruct H as ([k0 ts] & Hin & H). unfold entryOf in H. cbn [fst snd] in H.
  destruct (findDev developers k0) as [dev|] eqn:E; [|contradiction].
  destruct H as [H|[]]. inversion H; subst.
  exists ts, dev. auto.
Qed.

Lemma In_tasksByDev (tasks : list Task) (k : string) (ts : list Task) :
  In (k, ts) (tasksByDev tasks) -> ts = tasksOf k tasks /\ ts <> [].
Proof.
  intros H. apply In_lookup in H; [|apply tasksByDev_NoDup].
  rewrite lookup_tasksByDev in H.
  destruct (tasksOf k tasks) as [|t rest]; [discriminate|].
  inversion H. split; [reflexivity|discriminate].
Qed.

Lemma tasksOf_In (k : string) (tasks : list Task) (t : Task) :
  In t (tasksOf k tasks) -> In t tasks /\ assignedTo t = k.
Proof.
  unfold tasksOf. intros H. apply filter_In in H. destruct H as [H1 H2].
  split; [exact H1|]. now apply String.eqb_eq.
Qed.

Lemma sumZ_lower (b : Z) (l : list Z) :
  Forall (fun z => b <= z) l -> b * Z.of_nat (List.length l) <= sumZ l.
Proof.
  unfold sumZ. induction 1 as [|z l Hz _ IH]; cbn [List.length fold_right].
  - lia.
  - rewrite Nat2Z.inj_succ. lia.
Qed.

Lemma sumPoints_tasksOf_lower (b : Z) (k : string) (tasks : list Task) :
  0 <= b ->
  Forall (fun t => b <= task_fibonacciEstimate t) tasks ->
  tasksOf k tasks <> [] ->
  b <= sumPoints (tasksOf k tasks).
Proof.
  intros Hb H Hne. rewrite sumPoints_sumZ.
  assert (Hl : Forall (fun z => b <= z)
                 (map task_fibonacciEstimate (tasksOf k tasks))).
  { apply Forall_forall. intros z Hz. apply in_map_iff in Hz.
    destruct Hz as (t & <- & Ht). apply tasksOf_In in Ht.
    rewrite Forall_forall in H. now apply H. }
  pose proof (sumZ_lower b _ Hl) as L. rewrite length_map in L.
  destruct (tasksOf k tasks) as [|t rest]; [contradiction|].
  cbn [List.length] in L. rewrite Nat2Z.inj_succ in L. nia.
Qed.

(** What the breakdown holds, entry by entry. *)
Lemma breakdown_entries {Date : Type} (addDays : Date -> number -> Date)
    (today : Date) (tasks : list Task) (developers : list Developer)
    (k : string) (e : DevEstimate) :
  In (k, e) (breakdown (calculateParallelEstimate addDays today tasks
                                                  developers)) ->
  exists dev,
    findDev developers k = Some dev /\ tasksOf k tasks <> []
    /\ e = {| de_name := dev_name dev;
              days := daysFor (sumPoints (tasksOf k tasks)) (capacity dev);
              points := sumPoints (tasksOf k tasks) |}.
Proof.
  rewrite parallel_breakdown. intros H. apply In_estimatesOf in H.
  destruct H as (ts & dev & Hin & Hdev & ->).
  apply In_tasksByDev in Hin. destruct Hin as [-> Hne].
  exists dev. auto.
Qed.

Lemma capacity_positive (developers : list Developer) (k : string)
    (dev : Developer) :
  Forall (fun d => positive_finite (capacity d) = true) developers ->
  findDev developers k = Some dev -> positive_finite (capacity dev) = true.
Proof.
  intros H E. apply findDev_Some in E. destruct E as [Hin _].
  rewrite Forall_forall in H. now apply H.
Qed.

Lemma scenario_capacities :
  Forall (fun d => positive_finite (capacity d) = true) scenario_developers.
Proof.
  repeat (apply Forall_cons; [vm_compute; reflexivity|]). apply Forall_nil.
Defined.

Lemma roundUpToFib_at_least_1 (n : number) : 1 <= roundUpToFib n.
Proof.
  pose proof (roundUpToFib_member n) as H. unfold FIB_NUMS in H.
  cbn [In] in H. lia.
Qed.

Lemma days_at_least_one {Date : Type} (addDays : Date -> number -> Date)
    (today : Date) (tasks : list Task) (developers : list Developer) :
  Forall (fun d => positive_finite (capacity d) = true) developers ->
  Forall (fun t => 1 <= task_fibonacciEstimate t) tasks ->
  Forall (fun d => leb (of_Z 1) d = true)
         (map (fun e => days (snd e))
              (breakdown (calculateParallelEstimate addDays today tasks
                                                    developers))).
Proof.
  intros Hcap Hpos. apply Forall_forall. intros d Hd.
  apply in_map_iff in Hd. destruct Hd as ([k e] & <- & Hin).
  apply breakdown_entries in Hin. destruct Hin as (dev & Hdev & Hne & ->).
  cbn [snd days]. apply daysFor_at_least_one.
  - now apply sumPoints_tasksOf_lower.
  - exact (capacity_positive _ _ _ Hcap Hdev).
Qed.

(** C10.  With positive capacities and effort units that come out of
    [roundUpToFib], every entry of the breakdown has at least 1 point and at
    least 1 day; [totalDays] is at least 1 as soon as one task is assigned to
    a developer of the list, and at least 0 in all cases. *)
Theorem breakdown_at_least_one {Date : Type}
    (addDays : Date -> number -> Date) (today : Date) (tasks : list Task)
    (developers : list Developer) :
  Forall (fun d => positive_finite (capacity d) = true) developers ->
  Forall (fun t => exists n, task_fibonacciEstimate t = roundUpToFib n)
         tasks ->
  (forall devId e,
      In (devId, e) (breakdown (calculateParallelEstimate
                                  addDays today tasks developers)) ->
      1 <= points e /\ leb (of_Z 1) (days e) = true)
  /\ ((exists t, In t tasks /\ In (assignedTo t) (map id developers)) ->
      leb (of_Z 1)
          (totalDays (calculateParallelEstimate addDays today tasks
                                                developers)) = true)
  /\ leb zero
         (totalDays (calculateParallelEstimate addDays today tasks
                                               developers)) = true.
Proof.
  intros Hcap Hfib.
  assert (Hpos : Forall (fun t => 1 <= task_fibonacciEstimate t) tasks).
  { apply Forall_forall. intros t Ht. rewrite Forall_forall in Hfib.
    destruct (Hfib t Ht) as [n ->]. apply roundUpToFib_at_least_1. }
  pose proof (days_at_least_one addDays today tasks developers Hcap Hpos)
    as Hdays.
  assert (Htotal : totalDays (calculateParallelEstimate addDays today tasks
                                                        developers)
                   = fold_left Math_max
                       (map (fun e => days (snd e))
                            (breakdown (calculateParallelEstimate
                                          addDays today tasks developers)))
                       zero).
  { now rewrite parallel_totalDays, parallel_breakdown. }
  split; [|split].
  - intros k e Hin. split.
    + apply breakdown_entries in Hin.
      destruct Hin as (dev & Hdev & Hne & ->). cbn [points].
      now apply sumPoints_tasksOf_lower.
    + rewrite Forall_forall in Hdays. apply Hdays.
      apply in_map_iff. exists (k, e). auto.
  - intros (t & Ht & Hdev). rewrite Htotal.
    assert (Hl : lookup (assignedTo t)
                   (breakdown (calculateParallelEstimate
                                 addDays today tasks developers)) <> None).
    { rewrite lookup_breakdown.
      apply matched_In in Hdev. unfold matched in Hdev.
      destruct (findDev developers (assignedTo t)); [|discriminate].
      destruct (tasksOf (assignedTo t) tasks) eqn:E; [|discriminate].
      exfalso. assert (In t (tasksOf (assignedTo t) tasks)).
      { apply filter_In. split; [exact Ht|apply String.eqb_refl]. }
      rewrite E in H. contradiction. }
    destruct (breakdown (calculateParallelEstimate addDays today tasks
                                                   developers))
      as [|[k e] rest]; [contradiction|].
    cbn [map fold_left snd] in *. inversion Hdays as [|? ? Hd Hrest]; subst.
    apply fold_max_at_least_one; [exact Hrest|].
    now rewrite Math_max_zero_l.
  - rewrite Htotal.
    destruct (breakdown (calculateParallelEstimate addDays today tasks
                                                   developers))
      as [|[k e] rest]; [reflexivity|].
    cbn [map fold_left snd] in *. inversion Hdays as [|? ? Hd Hrest]; subst.
    apply leb_zero_of_one. apply fold_max_at_least_one; [exact Hrest|].
    now rewrite Math_max_zero_l.
Qed.

Lemma breakdown_at_least_one_witness :
  leb zero (totalDays (calculateParallelEstimate plus_days 100 scenario_tasks
                                                 scenario_developers))
  = true.
Proof.
  apply (breakdown_at_least_one plus_days 100 scenario_tasks
           scenario_developers).
  - exact scenario_capacities.
  - apply Forall_cons; [exists (of_Z 5); vm_compute; reflexivity|].
    apply Forall_cons; [exists (of_Z 3); vm_compute; reflexivity|].
    apply Forall_cons; [exists (of_Z 3); vm_compute; reflexivity|].
    apply Forall_nil.
Defined.

(** ** The specification's scenario, run on the model *)

Example scenario_parallel :
  calculateParallelEstimate plus_days 100 scenario_tasks scenario_developers
  = {| totalDays := of_Z 2;
       deliveryDate := 102;
       breakdown :=
         [("dev-1"%string,
           {| de_name := "Ann"; days := of_Z 2; points := 8 |});
          ("dev-2"%string,
           {| de_name := "Bob"; days := of_Z 1; points := 3 |})] |}.
Proof. vm_compute. reflexivity. Qed.

Example scenario_sequential :
  totalPoints (calculateEpicEstimate plus_days 100 scenario_tasks) = 11
  /\ (estimatedDays (calculateEpicEstimate plus_days 100%Z scenario_tasks)
      == 55 # 10)%Q
  /\ estimatedDeliveryDate
       (calculateEpicEstimate plus_days 100 scenario_tasks) = 106.
Proof. repeat split; vm_compute; reflexivity. Qed.

(** Eighteen points at capacity 4 take five days; the quotient is a binary64
    quotient: 21 points at capacity 0.7 take 31 days. *)
Example days_examples :
  daysFor 18 (of_Z 4) = of_Z 5 /\ daysFor 21 (lit 7 10) = of_Z 31.
Proof. split; vm_compute; reflexivity. Qed.

(** * Further properties *)

(** ** The description of an effort unit *)

Lemma leb_total (x y : number) :
  is_nan x = false -> is_nan y = false -> leb x y = false -> ltb y x = true.
Proof.
  intros Hx Hy H. apply ltb_key. split; [exact Hy|]. split; [exact Hx|].
  apply key_compare_Gt.
  destruct (key_compare (key x) (key y)) eqn:E; [| |reflexivity];
    exfalso; assert (L : leb x y = true)
      by (apply leb_key; repeat split; try assumption; rewrite E;
          discriminate); congruence.
Qed.

Lemma leb_trans (x y z : number) :
  leb x y = true -> leb y z = true -> leb x z = true.
Proof.
  intros Hxy Hyz.
  destruct (leb x z) eqn:E; [reflexivity|].
  assert (Hx : is_nan x = false) by (apply leb_key in Hxy; tauto).
  assert (Hz : is_nan z = false) by (apply leb_key in Hyz; tauto).
  pose proof (ltb_leb_trans x z y (leb_total x z Hx Hz E) Hyz). congruence.
Qed.

(** X1.  Rounding up is monotone on all numbers, not only on scores of
    ratings: if [x <= y] (so neither is NaN), the effort unit of [x] does
    not exceed the effort unit of [y]. *)
Theorem roundUpToFib_monotone (x y : number) :
  leb x y = true -> roundUpToFib x <= roundUpToFib y.
Proof.
  intros H.
  assert (T : forall f, leb y (of_Z f) = true -> leb x (of_Z f) = true)
    by (intros f; apply leb_trans; exact H).
  rewrite (roundUpToFib_unfold x), (roundUpToFib_unfold y).
  repeat match goal with
         | |- context [leb y (of_Z ?f)] =>
             let E := fresh "E" in
             destruct (leb y (of_Z f)) eqn:E; [rewrite (T f E)|]
         end;
    repeat match goal with
           | |- context [leb x (of_Z ?f)] => destruct (leb x (of_Z f))
           end; lia.
Qed.

Lemma roundUpToFib_monotone_witness :
  roundUpToFib (lit 24 10) <= roundUpToFib (lit 51 10).
Proof. apply roundUpToFib_monotone. vm_compute. reflexivity. Defined.

(** X2.  The members of the scale are fixed points of the rounding: the
    effort unit of a scale member is that member, so rounding an effort unit
    again changes nothing. *)
Theorem roundUpToFib_idempotent (n : number) :
  roundUpToFib (of_Z (roundUpToFib n)) = roundUpToFib n
  /\ forall f, In f FIB_NUMS -> roundUpToFib (of_Z f) = f.
Proof.
  assert (F : forall f, In f FIB_NUMS -> roundUpToFib (of_Z f) = f).
  { intros f Hf. cbn [FIB_NUMS In] in Hf.
    repeat (destruct Hf as [<-|Hf]; [vm_compute; reflexivity|]).
    destruct Hf. }
  split; [|exact F]. apply F, roundUpToFib_member.
Qed.

(** X3.  The description of an effort unit that [roundUpToFib] produced is
    never the fallback text for an unknown number and never the description
    of 0; it begins with the unit followed by a space, and two units with the
    same description are the same unit. *)
Theorem fibonacciToDays_of_unit (n : number) :
  fibonacciToDays (roundUpToFib n)
    <> ("Unknown Fibonacci number: " ++ show_integer (roundUpToFib n))%string
  /\ fibonacciToDays (roundUpToFib n) <> fibonacciToDays 0
  /\ String.prefix (show_integer (roundUpToFib n) ++ " ")
                   (fibonacciToDays (roundUpToFib n)) = true
  /\ forall n', fibonacciToDays (roundUpToFib n)
                = fibonacciToDays (roundUpToFib n') ->
                roundUpToFib n = roundUpToFib n'.
Proof.
  pose proof (roundUpToFib_member n) as H. cbn [FIB_NUMS In] in H.
  repeat split.
  - repeat (destruct H as [<-|H]; [vm_compute; discriminate|]). destruct H.
  - repeat (destruct H as [<-|H]; [vm_compute; discriminate|]). destruct H.
  - repeat (destruct H as [<-|H]; [vm_compute; reflexivity|]). destruct H.
  - intros n'. pose proof (roundUpToFib_member n') as H'.
    cbn [FIB_NUMS In] in H'.
    repeat (destruct H as [<-|H];
            [repeat (destruct H' as [<-|H'];
                     [vm_compute; first [reflexivity|discriminate]|]);
             destruct H'|]).
    destruct H.
Qed.

(** ** Sequential aggregator: bounds *)

Lemma duration_unit (u : Z) :
  In u FIB_NUMS ->
  (inject_Z u * (1 # 2) <= duration u /\ duration u <= inject_Z u
   /\ 1 <= duration u)%Q.
Proof.
  intros Hu. cbn [FIB_NUMS In] in Hu.
  repeat (destruct Hu as [<-|Hu];
          [vm_compute; repeat split; discriminate|]).
  destruct Hu.
Qed.

Lemma duration_bounds (units : list Z) :
  Forall (fun u => In u FIB_NUMS) units ->
  (inject_Z (sumZ units) * (1 # 2) <= sumQ (map duration units)
   /\ sumQ (map duration units) <= inject_Z (sumZ units)
   /\ inject_Z (Z.of_nat (List.length units)) <= sumQ (map duration units))%Q.
Proof.
  induction 1 as [|u units Hu _ IH].
  - vm_compute. repeat split; discriminate.
  - cbn [map sumQ sumZ fold_right List.length]. fold (sumZ units).
    fold (sumQ (map duration units)).
    rewrite Nat2Z.inj_succ. unfold Z.succ. rewrite !inject_Z_plus.
    destruct IH as (I1 & I2 & I3).
    destruct (duration_unit u Hu) as (U1 & U2 & U3).
    change (inject_Z 1) with 1%Q.
    repeat split; lra.
Qed.

(** X4.  For tasks whose effort units are on the scale, the sequential
    estimate lies between half the total points and the total points, and is
    at least one day per task. *)
Theorem sequential_days_bounds {Date : Type}
    (addDays : Date -> number -> Date) (today : Date) (tasks : list Task) :
  Forall (fun t => In (task_fibonacciEstimate t) FIB_NUMS) tasks ->
  (inject_Z (totalPoints (calculateEpicEstimate addDays today tasks)) * (1 # 2)
   <= estimatedDays (calculateEpicEstimate addDays today tasks)
   /\ estimatedDays (calculateEpicEstimate addDays today tasks)
      <= inject_Z (totalPoints (calculateEpicEstimate addDays today tasks))
   /\ inject_Z (Z.of_nat (List.length tasks))
      <= estimatedDays (calculateEpicEstimate addDays today tasks))%Q.
Proof.
  intros H.
  assert (U : Forall (fun u => In u FIB_NUMS)
                     (map task_fibonacciEstimate tasks)).
  { apply Forall_forall. intros u Hu. apply in_map_iff in Hu.
    destruct Hu as (t & <- & Ht).
    exact (proj1 (Forall_forall _ _) H t Ht). }
  destruct (duration_bounds _ U) as (B1 & B2 & B3).
  rewrite map_map, length_map in *.
  cbn [calculateEpicEstimate totalPoints estimatedDays].
  rewrite sumPoints_sumZ, sumDays_from.
  repeat split; lra.
Qed.

Lemma sequential_days_bounds_witness :
  (estimatedDays (calculateEpicEstimate plus_days 100%Z scenario_tasks)
   <= inject_Z (totalPoints
                  (calculateEpicEstimate plus_days 100%Z scenario_tasks)))%Q.
Proof.
  apply (sequential_days_bounds plus_days 100%Z scenario_tasks).
  repeat constructor; cbn; tauto.
Defined.

(** ** Grouping: a partition of the tasks *)

Lemma push_concat (key : string) (task : Task)
    (acc : list (string * list Task)) :
  Permutation (List.concat (map snd (push key task acc)))
              (task :: List.concat (map snd acc)).
Proof.
  induction acc as [|[k ts] acc IH]; cbn [push].
  - reflexivity.
  - destruct (String.eqb k key); cbn [map snd List.concat].
    + rewrite <- app_assoc. cbn [app]. symmetry. apply Permutation_middle.
    + rewrite IH. symmetry. apply Permutation_middle.
Qed.

Lemma group_concat (tasks : list Task) :
  forall acc,
    Permutation
      (List.concat
         (map snd (fold_left (fun acc task => push (assignedTo task) task acc)
                             tasks acc)))
      (List.concat (map snd acc) ++ tasks).
Proof.
  induction tasks as [|t tasks IH]; intros acc; cbn [fold_left].
  - now rewrite app_nil_r.
  - rewrite IH, push_concat. apply Permutation_middle.
Qed.

(** X5.  Grouping partitions the tasks: the groups together hold every task
    exactly once, no developer id has two groups, the group of an id is the
    non-empty list of the tasks assigned to it in the order of the task list,
    and the id of every task has a group. *)
Theorem tasksByDev_partition (tasks : list Task) :
  Permutation (List.concat (map snd (tasksByDev tasks))) tasks
  /\ NoDup (map fst (tasksByDev tasks))
  /\ (forall k ts, In (k, ts) (tasksByDev tasks) ->
        ts <> [] /\ ts = tasksOf k tasks)
  /\ (forall t, In t tasks -> In (assignedTo t) (map fst (tasksByDev tasks))).
Proof.
  split; [|split; [|split]].
  - unfold tasksByDev. now rewrite group_concat.
  - apply tasksByDev_NoDup.
  - intros k ts H. apply In_tasksByDev in H. tauto.
  - intros t Ht.
    destruct (lookup (assignedTo t) (tasksByDev tasks)) as [ts|] eqn:E.
    + apply In_lookup in E; [|apply tasksByDev_NoDup].
      apply in_map_iff. now exists (assignedTo t, ts).
    + rewrite lookup_tasksByDev in E.
      destruct (tasksOf (assignedTo t) tasks) as [|? ?] eqn:F;
        [|discriminate].
      assert (I : In t (tasksOf (assignedTo t) tasks)).
      { unfold tasksOf. apply filter_In. split; [exact Ht|].
        apply String.eqb_refl. }
      rewrite F in I. destruct I.
Qed.

(** ** Parallel scheduler: who is in the breakdown *)

(** X6.  A developer id has an entry in the breakdown exactly when some task
    is assigned to it and a developer of the list bears it; a developer
    without tasks has no entry. *)
Theorem breakdown_keys {Date : Type} (addDays : Date -> number -> Date)
    (today : Date) (tasks : list Task) (developers : list Developer)
    (k : string) :
  In k (map fst (breakdown
                   (calculateParallelEstimate addDays today tasks
                                              developers)))
  <-> (exists t, In t tasks /\ assignedTo t = k)
      /\ In k (map id developers).
Proof.
  pose proof (lookup_None k
                (breakdown (calculateParallelEstimate addDays today tasks
                                                      developers))) as N.
  rewrite lookup_breakdown in N.
  split.
  - intros H.
    destruct (tasksOf k tasks) as [|t ts] eqn:E.
    + exfalso. apply (proj1 N); [reflexivity|exact H].
    + destruct (findDev developers k) as [dev|] eqn:F.
      * split.
        -- exists t. apply (tasksOf_In k tasks t). rewrite E. now left.
        -- apply findDev_Some in F. destruct F as [F1 F2].
           apply in_map_iff. now exists dev.
      * exfalso. apply (proj1 N); [reflexivity|exact H].
  - intros [(t & Ht & <-) Hk].
    assert (I : In t (tasksOf (assignedTo t) tasks)).
    { unfold tasksOf. apply filter_In. split; [exact Ht|].
      apply String.eqb_refl. }
    destruct (tasksOf (assignedTo t) tasks) as [|t' ts]; [destruct I|].
    destruct (findDev developers (assignedTo t)) as [dev|] eqn:F.
    + destruct (in_dec string_dec (assignedTo t)
                  (map fst (breakdown
                     (calculateParallelEstimate addDays today tasks
                                                developers)))) as [Y|Y];
        [exact Y|].
      apply N in Y. discriminate.
    + apply findDev_None in F. contradiction.
Qed.

(** X7.  Nothing to estimate: with no developers, a call of the parallel
    estimate that returns (it does when no task is assigned to the name of
    an inherited property) returns 0 days, an empty breakdown and today's
    date moved by 0, whatever the tasks; so does a call with no tasks,
    whatever the developers; the sequential estimate of no tasks is 0
    points, 0 days and today's date moved by 0. *)
Theorem estimate_of_nothing {Date : Type} (addDays : Date -> number -> Date)
    (today : Date) :
  (forall tasks p,
     calculateParallelEstimate_call addDays today tasks [] = Returned p ->
     p = {| totalDays := zero; deliveryDate := addDays today zero;
            breakdown := [] |})
  /\ (forall tasks,
        Forall (fun t => inherited (assignedTo t) = false) tasks ->
        calculateParallelEstimate_call addDays today tasks []
        = Returned {| totalDays := zero; deliveryDate := addDays today zero;
                      breakdown := [] |})
  /\ (forall developers,
        calculateParallelEstimate_call addDays today [] developers
        = Returned {| totalDays := zero; deliveryDate := addDays today zero;
                      breakdown := [] |})
  /\ calculateEpicEstimate addDays today []
     = {| totalPoints := 0; estimatedDays := 0;
          estimatedDeliveryDate := addDays today zero |}.
Proof.
  assert (N : forall tasks,
            calculateParallelEstimate addDays today tasks []
            = {| totalDays := zero; deliveryDate := addDays today zero;
                 breakdown := [] |}).
  { intros tasks. unfold calculateParallelEstimate.
    assert (E : forall groups st,
              fold_left (devStep []) groups st = st).
    { induction groups as [|g groups IH]; intros st; [reflexivity|].
      cbn [fold_left]. unfold devStep at 2. cbn [findDev find]. apply IH. }
    rewrite E. reflexivity. }
  split; [|split; [|split]].
  - intros tasks p H. apply call_Returned in H. subst p. apply N.
  - intros tasks F. rewrite call_spec.
    assert (E : existsb (fun t => inherited (assignedTo t)) tasks = false).
    { induction F as [|t ts Ht _ IH]; cbn [existsb]; [reflexivity|].
      now rewrite Ht, IH. }
    now rewrite E, N.
  - intros developers. reflexivity.
  - reflexivity.
Qed.

(** ** Binary64 division never invents a NaN *)

Lemma shr_nonneg (m : Z) (l : location) (e n : Z) :
  0 <= m -> 0 <= shr_m (fst (shr (shr_record_of_loc m l) e n)).
Proof.
  intros Hm.
  assert (E : shr_m (shr_record_of_loc m l) = m)
    by (destruct l as [|[| |]]; reflexivity).
  destruct n as [|n|n]; cbn [shr fst]; rewrite ?E; try exact Hm.
  rewrite iter_shr_1_m by lia. rewrite E. apply Z.div_pos; [exact Hm|].
  apply Z.pow_pos_nonneg; lia.
Qed.

Lemma binary_round_aux_not_nan (s : bool) (m e : Z) (l : location) :
  0 <= m -> is_nan (binary_round_aux prec emax s m e l) = false.
Proof.
  intros Hm. unfold binary_round_aux, shr_fexp.
  pose proof (shr_nonneg m l e (fexp prec emax (Zdigits2 m + e) - e) Hm)
    as H1.
  destruct (shr (shr_record_of_loc m l) e
                (fexp prec emax (Zdigits2 m + e) - e)) as [mrs' e'].
  cbn [fst] in H1.
  pose proof (round_nearest_even_ge (shr_m mrs') (loc_of_shr_record mrs'))
    as Hr.
  set (m1 := round_nearest_even (shr_m mrs') (loc_of_shr_record mrs')) in *.
  assert (H2 : 0 <= m1) by lia.
  pose proof (shr_nonneg m1 loc_Exact e'
                (fexp prec emax (Zdigits2 m1 + e') - e') H2) as H3.
  destruct (shr (shr_record_of_loc m1 loc_Exact) e'
                (fexp prec emax (Zdigits2 m1 + e') - e')) as [mrs'' e''].
  cbn [fst] in H3.
  destruct (shr_m mrs'') as [|p|p]; [reflexivity| |lia].
  destruct (e'' <=? emax - prec); reflexivity.
Qed.

Lemma of_Z_not_nan (z : Z) : is_nan (of_Z z) = false.
Proof.
  destruct z as [|p|p]; [reflexivity| |];
    unfold of_Z, binary_normalize, binary_round;
    destruct (shl_align p 0 (fexp prec emax (Zpos (digits2_pos p) + 0)))
      as [mz ez];
    apply binary_round_aux_not_nan; lia.
Qed.

Lemma Math_ceil_not_nan (x : number) :
  is_nan x = false -> is_nan (Math_ceil x) = false.
Proof.
  intros H. destruct x as [s|s| |s m [|p|p]]; try exact H; try reflexivity.
  cbn [Math_ceil]. 
  destruct (- (- mantissa s m / Z.pow_pos 2 p) =? 0); [reflexivity|].
  apply of_Z_not_nan.
Qed.

(** A quotient is NaN only if an operand is, or for 0/0 and for
    infinity/infinity. *)
Lemma div_nan (x c : number) :
  is_nan (div x c) = true ->
  is_nan x = true \/ is_nan c = true
  \/ (exists s t, x = S754_zero s /\ c = S754_zero t)
  \/ (exists s t, x = S754_infinity s /\ c = S754_infinity t).
Proof.
  destruct x as [sx|sx| |sx mx ex], c as [sc|sc| |sc mc ec];
    cbn [div SFdiv is_nan]; intros H; try discriminate; auto.
  - right. right. left. now exists sx, sc.
  - right. right. right. now exists sx, sc.
  - exfalso. unfold div, SFdiv in H.
    destruct (SFdiv_core_binary prec emax (Zpos mx) ex (Zpos mc) ec)
      as [[mz ez] lz] eqn:E.
    rewrite binary_round_aux_not_nan in H; [discriminate|].
    unfold SFdiv_core_binary in E.
    set (m' := match _ with 0 => Zpos mx | Zpos _ => _ | Zneg _ => 0 end)
      in E.
    assert (Hm' : 0 <= m').
    { unfold m'. 
      match goal with |- context [match ?s with _ => _ end] =>
        destruct s as [|k|k] eqn:Es end; try lia.
      rewrite Z.shiftl_mul_pow2 by lia. 
      assert (0 < 2 ^ Zpos k) by (apply Z.pow_pos_nonneg; lia). lia. }
    destruct (Z.div_eucl m' (Zpos mc)) as [q r] eqn:Eq.
    assert (Hq : q = m' / Zpos mc) by (unfold Z.div; now rewrite Eq).
    inversion E; subst mz. rewrite Hq. apply Z.div_pos; lia.
Qed.

Lemma binary_round_aux_exact_sign (s : bool) (m : positive) (e : Z) :
  Zpos (digits2_pos m) = 53 -> -1021 <= e <= 971 ->
  binary_round_aux prec emax s (Zpos m) e loc_Exact = S754_finite s m e.
Proof.
  intros Hd He. unfold binary_round_aux, shr_fexp. cbn [Zdigits2].
  assert (E : fexp prec emax (Zpos (digits2_pos m) + e) - e = 0)
    by (unfold fexp, SpecFloat.emin, prec, emax; lia).
  rewrite E.
  cbn [shr shr_record_of_loc shr_m loc_of_shr_record round_nearest_even
       Zdigits2].
  rewrite E. cbn [shr shr_record_of_loc shr_m].
  destruct (Z.leb_spec e (emax - prec)) as [_|C];
    [reflexivity|unfold emax, prec in C; lia].
Qed.

(** An integer of fewer than 54 bits is a number, exactly. *)
Lemma binary_round_small (s : bool) (p : positive) :
  Zpos p < 2 ^ 53 ->
  exists m e, binary_round prec emax s p 0 = S754_finite s m e.
Proof.
  intros Hp. unfold binary_round, shl_align. rewrite Z.add_0_r.
  set (d := Zpos (digits2_pos p)).
  assert (Hd : 1 <= d <= 53).
  { split; [unfold d; lia|].
    destruct (digits_bounds p) as [Hl _]. fold d in Hl.
    assert (d - 1 < 53); [|lia].
    apply (Z.pow_lt_mono_r_iff 2); lia. }
  assert (E : fexp prec emax d = d - 53)
    by (unfold fexp, SpecFloat.emin, prec, emax; lia).
  rewrite E, Z.sub_0_r.
  destruct (d - 53) as [|k|k] eqn:Ek; try lia.
  - rewrite binary_round_aux_exact_sign by (fold d; lia). now exists p, 0.
  - assert (Hk : Zpos (digits2_pos (Pos.iter xO p k)) = 53)
      by (rewrite digits_iter_xO, Pos2Z.inj_add; fold d; lia).
    rewrite binary_round_aux_exact_sign by lia.
    now exists (Pos.iter xO p k), (Zneg k).
Qed.

Lemma of_Z_small (z : Z) :
  Z.abs z < 2 ^ 53 ->
  z = 0 /\ of_Z z = zero
  \/ exists s m e, of_Z z = S754_finite s m e /\ s = (z <? 0).
Proof.
  intros Hz. destruct z as [|p|p].
  - left. split; reflexivity.
  - right. destruct (binary_round_small false p) as (m & e & H); [lia|].
    exists false, m, e. split; [exact H|reflexivity].
  - right. destruct (binary_round_small true p) as (m & e & H); [lia|].
    exists true, m, e. split; [exact H|reflexivity].
Qed.

(** With a capacity that is neither zero nor NaN, the days of a developer
    are a number. *)
Lemma daysFor_not_nan (totalPoints : Z) (cap : number) :
  truthy cap = true -> Z.abs totalPoints < 2 ^ 53 ->
  is_nan (daysFor totalPoints cap) = false.
Proof.
  intros Hc Hp. unfold daysFor. apply Math_ceil_not_nan.
  destruct (is_nan (div (of_Z totalPoints) cap)) eqn:E; [|reflexivity].
  exfalso. apply div_nan in E.
  destruct E as [E|[E|[(s & t & E1 & E2)|(s & t & E1 & E2)]]].
  - rewrite of_Z_not_nan in E. discriminate.
  - destruct cap; discriminate.
  - rewrite E2 in Hc. discriminate.
  - destruct (of_Z_small totalPoints Hp) as [[_ H]|(s' & m & e & H & _)];
      rewrite H in E1; discriminate.
Qed.

Lemma sumZ_filter_le (P : Task -> bool) (tasks : list Task) :
  Forall (fun t => 0 <= task_fibonacciEstimate t) tasks ->
  0 <= sumZ (map task_fibonacciEstimate (filter P tasks))
    <= sumZ (map task_fibonacciEstimate tasks).
Proof.
  induction 1 as [|t tasks Ht _ IH]; cbn [filter map sumZ fold_right].
  - lia.
  - destruct (P t); cbn [map sumZ fold_right];
      fold (sumZ (map task_fibonacciEstimate (filter P tasks)));
      fold (sumZ (map task_fibonacciEstimate tasks)); lia.
Qed.

Lemma truthy_found (developers : list Developer) (k : string)
    (dev : Developer) :
  Forall (fun d => truthy (capacity d) = true) developers ->
  findDev developers k = Some dev -> truthy (capacity dev) = true.
Proof.
  intros H F. apply findDev_Some in F. destruct F as [F _].
  exact (proj1 (Forall_forall _ _) H dev F).
Qed.

Lemma breakdown_days_not_nan {Date : Type} (addDays : Date -> number -> Date)
    (today : Date) (tasks : list Task) (developers : list Developer) :
  Forall (fun d => truthy (capacity d) = true) developers ->
  Forall (fun t => 0 <= task_fibonacciEstimate t) tasks ->
  sumZ (map task_fibonacciEstimate tasks) < 2 ^ 53 ->
  Forall (fun d => is_nan d = false)
         (map (fun e => days (snd e))
              (breakdown (calculateParallelEstimate addDays today tasks
                                                    developers))).
Proof.
  intros Hc Hp Hs. apply Forall_forall. intros d Hd.
  apply in_map_iff in Hd. destruct Hd as ([k e] & <- & He).
  apply breakdown_entries in He. destruct He as (dev & F & _ & ->).
  cbn [snd days]. apply daysFor_not_nan.
  - exact (truthy_found developers k dev Hc F).
  - rewrite sumPoints_sumZ. unfold tasksOf.
    pose proof (sumZ_filter_le (fun t => String.eqb (assignedTo t) k) tasks Hp).
    lia.
Qed.

(** ** [Math.max] over the breakdown *)

Lemma key_compare_le (a b : Z * (Z * Z)) :
  key_compare a b <> Gt <->
  fst a < fst b \/
  (fst a = fst b /\
   (fst (snd a) < fst (snd b) \/
    (fst (snd a) = fst (snd b) /\ snd (snd a) <= snd (snd b)))).
Proof.
  destruct a as [a1 [a2 a3]], b as [b1 [b2 b3]]. unfold key_compare.
  cbn [fst snd].
  destruct (Z.compare_spec a1 b1); [|split; [lia|discriminate]|];
    [|split; [intros C; now contradiction C|lia]].
  destruct (Z.compare_spec a2 b2); [|split; [lia|discriminate]|];
    [|split; [intros C; now contradiction C|lia]].
  destruct (Z.compare_spec a3 b3);
    [split; [lia|discriminate]|split; [lia|discriminate]|].
  split; [intros C; now contradiction C|lia].
Qed.

Lemma key_max_upper (a b : Z * (Z * Z)) :
  key_compare a (key_max a b) <> Gt /\ key_compare b (key_max a b) <> Gt.
Proof.
  unfold key_max. destruct (key_compare a b) eqn:E.
  - apply key_compare_Eq in E. subst b.
    split; apply key_compare_le; lia.
  - split; [rewrite E; discriminate|apply key_compare_le; lia].
  - split; [apply key_compare_le; lia|].
    apply key_compare_Gt in E. rewrite E. discriminate.
Qed.

Lemma key_compare_le_trans (a b c : Z * (Z * Z)) :
  key_compare a b <> Gt -> key_compare b c <> Gt -> key_compare a c <> Gt.
Proof. rewrite !key_compare_le. lia. Qed.

(** The order of [Math.max] refines the order of the comparisons. *)
Lemma rank_leb (x y : number) :
  is_nan x = false -> is_nan y = false ->
  key_compare (rank x) (rank y) <> Gt -> leb x y = true.
Proof.
  intros Hx Hy H. apply leb_key. split; [exact Hx|]. split; [exact Hy|].
  rewrite key_compare_le in *.
  destruct x as [[|]|[|]| |[|] mx ex], y as [[|]|[|]| |[|] my ey];
    try discriminate; cbn [rank key fst snd] in *; lia.
Qed.

Lemma fold_max_upper (ds : list number) :
  Forall (fun d => is_nan d = false) ds ->
  forall m, is_nan m = false ->
    is_nan (fold_left Math_max ds m) = false
    /\ key_compare (rank m) (rank (fold_left Math_max ds m)) <> Gt
    /\ (forall d, In d ds ->
          key_compare (rank d) (rank (fold_left Math_max ds m)) <> Gt)
    /\ (fold_left Math_max ds m = m \/ In (fold_left Math_max ds m) ds).
Proof.
  induction 1 as [|d ds Hd _ IH]; intros m Hm; cbn [fold_left].
  - split; [exact Hm|]. split; [apply key_compare_le; lia|].
    split; [intros d []|now left].
  - destruct (Math_max_rank m d Hm Hd) as [N R].
    destruct (IH (Math_max m d) N) as (I1 & I2 & I3 & I4).
    destruct (key_max_upper (rank m) (rank d)) as [U1 U2].
    rewrite R in I2.
    split; [exact I1|]. split; [|split].
    + exact (key_compare_le_trans _ _ _ U1 I2).
    + intros d' [<-|Hd'].
      * exact (key_compare_le_trans _ _ _ U2 I2).
      * now apply I3.
    + destruct I4 as [I4|I4].
      * rewrite I4. destruct (Math_max_cases m d Hm Hd) as [-> | ->].
        -- now left.
        -- right. now left.
      * right. now right.
Qed.

(** X8.  [totalDays] bounds the breakdown.  When no capacity is zero or NaN,
    no task has negative points and the points total less than 2^53: no
    developer's days exceed [totalDays], [totalDays] is at least 0, and it is
    0 or the days of a developer of the breakdown. *)
Theorem totalDays_upper_bound {Date : Type}
    (addDays : Date -> number -> Date) (today : Date) (tasks : list Task)
    (developers : list Developer) :
  Forall (fun d => truthy (capacity d) = true) developers ->
  Forall (fun t => 0 <= task_fibonacciEstimate t) tasks ->
  sumZ (map task_fibonacciEstimate tasks) < 2 ^ 53 ->
  (forall devId e,
      In (devId, e) (breakdown (calculateParallelEstimate
                                  addDays today tasks developers)) ->
      leb (days e)
          (totalDays (calculateParallelEstimate addDays today tasks
                                                developers)) = true)
  /\ leb zero (totalDays (calculateParallelEstimate addDays today tasks
                                                    developers)) = true
  /\ (totalDays (calculateParallelEstimate addDays today tasks developers)
      = zero
      \/ exists devId e,
           In (devId, e) (breakdown (calculateParallelEstimate
                                       addDays today tasks developers))
           /\ totalDays (calculateParallelEstimate addDays today tasks
                                                   developers) = days e).
Proof.
  intros Hc Hp Hs.
  pose proof (breakdown_days_not_nan addDays today tasks developers Hc Hp Hs)
    as N.
  rewrite parallel_totalDays. rewrite parallel_breakdown in *.
  destruct (fold_max_upper _ N zero eq_refl) as (F1 & F2 & F3 & F4).
  split; [|split].
  - intros devId e He. apply rank_leb; [|exact F1|].
    + apply (proj1 (Forall_forall _ _) N). apply in_map_iff.
      now exists (devId, e).
    + apply F3. apply in_map_iff. now exists (devId, e).
  - apply rank_leb; [reflexivity|exact F1|exact F2].
  - destruct F4 as [F4|F4]; [now left|right].
    apply in_map_iff in F4. destruct F4 as ([k e] & E & He).
    exists k, e. split; [exact He|]. symmetry. exact E.
Qed.

Lemma scenario_truthy :
  Forall (fun d => truthy (capacity d) = true) scenario_developers.
Proof. repeat constructor. Defined.

Lemma scenario_points :
  Forall (fun t => 0 <= task_fibonacciEstimate t) scenario_tasks.
Proof. repeat constructor; cbn; lia. Defined.

Lemma totalDays_upper_bound_witness :
  leb zero (totalDays (calculateParallelEstimate plus_days 100 scenario_tasks
                                                 scenario_developers)) = true.
Proof.
  apply (totalDays_upper_bound plus_days 100 scenario_tasks
           scenario_developers scenario_truthy scenario_points).
  reflexivity.
Defined.

(** ** Team setup *)

Lemma show_integer_inj (z z' : Z) :
  show_integer z = show_integer z' -> z = z'.
Proof.
  unfold show_integer. intros H. apply DecimalZ.to_int_inj.
  assert (N : forall z, Z.to_int z <> Decimal.Pos Decimal.Nil
             /\ Z.to_int z <> Decimal.Neg Decimal.Nil).
  { intros [|p|p]; cbn; split; try discriminate;
      intros C; injection C; apply DecimalPos.Unsigned.to_uint_nonnil. }
  pose proof (NilZero.isi (Z.to_int z) (proj1 (N z)) (proj2 (N z))) as E.
  pose proof (NilZero.isi (Z.to_int z') (proj1 (N z')) (proj2 (N z'))) as E'.
  rewrite H in E. congruence.
Qed.

Lemma dev_id_inj (n n' : nat) : dev_id n = dev_id n' -> n = n'.
Proof.
  unfold dev_id. intros H. cbn [String.append] in H.
  injection H as H. apply show_integer_inj in H. lia.
Qed.

Lemma dev_ids_NoDup (start len : nat) :
  NoDup (map dev_id (seq start len)).
Proof.
  apply Injective_map_NoDup; [|apply seq_NoDup].
  intros n n'. apply dev_id_inj.
Qed.

Lemma Returned_inj {A : Type} (a b : A) : Returned a = Returned b -> a = b.
Proof. intros H. now injection H. Qed.

Section TeamSetup.

Variable parseFloat : string -> number.

(** What the loop adds to the developers it starts from. *)
Lemma addDevelopers_loop_spec (answers : list DeveloperAnswers) :
  forall developers0 developers,
    addDevelopers_loop parseFloat answers developers0 = Returned developers ->
    exists added,
      developers = developers0 ++ added
      /\ (1 <= List.length added <= List.length answers)%nat
      /\ map id added
         = map dev_id (seq (S (List.length developers0)) (List.length added))
      /\ map dev_name added = map devName (firstn (List.length added) answers)
      /\ map role added = map devRole (firstn (List.length added) answers)
      /\ map capacity added
         = map (fun a => capacity_of parseFloat (capacity_typed a))
               (firstn (List.length added) answers)
      /\ map another_developer (firstn (List.length added) answers)
         = repeat true (List.length added - 1) ++ [false].
Proof.
  induction answers as [|a answers IH]; intros developers0 developers H;
    cbn [addDevelopers_loop] in H; [discriminate|].
  destruct (developer_rejections a NamePrompt); [discriminate|].
  destruct (developer_rejections a RolePrompt); [discriminate|].
  destruct (developer_rejections a CapacityPrompt); [discriminate|].
  cbn [await] in H. cbv zeta in H.
  destruct (developer_rejections a AnotherDeveloperPrompt); [discriminate|].
  cbn [await] in H.
  set (dev := {| id := ("dev-" ++ show_integer
                          (Z.of_nat (List.length developers0) + 1))%string;
                 dev_name := devName a; role := devRole a;
                 capacity := if truthy (parseFloat (capacity_typed a))
                             then parseFloat (capacity_typed a)
                             else of_Z 4 |}) in H.
  assert (Eid : id dev = dev_id (S (List.length developers0))).
  { unfold dev_id. cbn [dev id]. do 2 f_equal. lia. }
  destruct (another_developer a) eqn:Ea.
  - apply IH in H. destruct H as (added & E & L & I1 & I2 & I3 & I4 & I5).
    exists (dev :: added). rewrite length_app in I1. cbn [List.length] in *.
    rewrite Nat.add_1_r in I1.
    split; [rewrite E, <- app_assoc; reflexivity|].
    split; [lia|].
    cbn [map seq firstn]. rewrite I1, I2, I3, I4, Eid.
    repeat split.
    rewrite Ea, I5.
    destruct (List.length added) as [|n] eqn:En; [lia|].
    cbn [Nat.sub repeat app]. now rewrite Nat.sub_0_r.
  - apply Returned_inj in H. subst developers. exists [dev].
    cbn [List.length map seq firstn].
    split; [reflexivity|]. split; [lia|].
    rewrite Eid, Ea. repeat split.
Qed.

(** X9.  The team that [addDevelopers] returns is not empty; its ids are
    [dev-1], [dev-2], ... in order, hence pairwise distinct, and looking up
    the id of a developer of the team finds that developer. *)
Theorem addDevelopers_ids (answers : list DeveloperAnswers)
    (developers : list Developer) :
  addDevelopers parseFloat answers = Returned developers ->
  developers <> []
  /\ map id developers = map dev_id (seq 1 (List.length developers))
  /\ NoDup (map id developers)
  /\ (forall dev, In dev developers ->
        findDev developers (id dev) = Some dev).
Proof.
  intros H. apply addDevelopers_loop_spec in H.
  destruct H as (added & -> & L & I & _). rewrite !app_nil_l.
  cbn [List.length] in I.
  assert (N : NoDup (map id added)) by (rewrite I; apply dev_ids_NoDup).
  split; [destruct added; [cbn in L; lia|discriminate]|].
  split; [exact I|]. split; [exact N|].
  intros dev Hd. now apply findDev_In.
Qed.

(** X10.  [addDevelopers] returns one developer for each round of answers up
    to and including the first that declines to add another, in order, with
    the name and the role answered.  The capacity is the number parsed from
    the typed text, or the default 4 when that number is 0, -0 or NaN; it is
    never zero and never NaN. *)
Theorem addDevelopers_team (answers : list DeveloperAnswers)
    (developers : list Developer) :
  addDevelopers parseFloat answers = Returned developers ->
  (1 <= List.length developers <= List.length answers)%nat
  /\ map another_developer (firstn (List.length developers) answers)
     = repeat true (List.length developers - 1) ++ [false]
  /\ map dev_name developers
     = map devName (firstn (List.length developers) answers)
  /\ map role developers
     = map devRole (firstn (List.length developers) answers)
  /\ map capacity developers
     = map (fun a => capacity_of parseFloat (capacity_typed a))
           (firstn (List.length developers) answers)
  /\ Forall (fun d => truthy (capacity d) = true) developers.
Proof.
  intros H. apply addDevelopers_loop_spec in H.
  destruct H as (added & -> & L & _ & I2 & I3 & I4 & I5).
  rewrite !app_nil_l. repeat split; try assumption; try lia.
  apply Forall_forall. intros d Hd.
  assert (Hc : In (capacity d) (map capacity added)) by now apply in_map.
  rewrite I4 in Hc. apply in_map_iff in Hc. destruct Hc as (a & <- & _).
  unfold capacity_of.
  destruct (truthy (parseFloat (capacity_typed a))) eqn:T; [exact T|].
  reflexivity.
Qed.

End TeamSetup.

(** X11.  For a team built by [addDevelopers] and tasks without negative
    points whose points total less than 2^53, the parallel estimate holds no
    NaN: neither the days of a developer of the breakdown nor [totalDays]. *)
Theorem team_days_are_numbers {Date : Type}
    (addDays : Date -> number -> Date) (today : Date)
    (parseFloat : string -> number) (answers : list DeveloperAnswers)
    (developers : list Developer) (tasks : list Task) :
  addDevelopers parseFloat answers = Returned developers ->
  Forall (fun t => 0 <= task_fibonacciEstimate t) tasks ->
  sumZ (map task_fibonacciEstimate tasks) < 2 ^ 53 ->
  (forall devId e,
      In (devId, e) (breakdown (calculateParallelEstimate
                                  addDays today tasks developers)) ->
      is_nan (days e) = false)
  /\ is_nan (totalDays (calculateParallelEstimate addDays today tasks
                                                  developers)) = false.
Proof.
  intros Ha Hp Hs.
  assert (Hc : Forall (fun d => truthy (capacity d) = true) developers).
  { apply addDevelopers_loop_spec in Ha.
    destruct Ha as (added & -> & _ & _ & _ & _ & I4 & _).
    rewrite app_nil_l. apply Forall_forall. intros d Hd.
    assert (C : In (capacity d) (map capacity added)) by now apply in_map.
    rewrite I4 in C. apply in_map_iff in C. destruct C as (a & <- & _).
    unfold capacity_of.
    destruct (truthy (parseFloat (capacity_typed a))) eqn:T; [exact T|].
    reflexivity. }
  pose proof (breakdown_days_not_nan addDays today tasks developers Hc Hp Hs)
    as N.
  split.
  - intros devId e He. apply (proj1 (Forall_forall _ _) N).
    apply in_map_iff. now exists (devId, e).
  - rewrite parallel_totalDays. rewrite parallel_breakdown in N.
    exact (proj1 (fold_max_upper _ N zero eq_refl)).
Qed.

Lemma team_days_are_numbers_witness :
  is_nan (totalDays
            (calculateParallelEstimate plus_days 100
               [mkTask "api" Backend "dev-1" all_zero zero 1]
               [mkDeveloper "dev-1" "Ann" Backend (of_Z 4)])) = false.
Proof.
  apply (team_days_are_numbers plus_days 100 (fun _ => S754_nan)
           [mkDeveloperAnswers "Ann" Backend "four" false (fun _ => None)]
           [mkDeveloper "dev-1" "Ann" Backend (of_Z 4)]
           [mkTask "api" Backend "dev-1" all_zero zero 1]).
  - reflexivity.
  - repeat constructor. cbn. lia.
  - reflexivity.
Defined.

(** ** A negative capacity *)

Lemma of_Z_negative (z : Z) :
  z < 0 ->
  of_Z z = S754_infinity true \/ exists m e, of_Z z = S754_finite true m e.
Proof.
  intros Hz. destruct z as [|p|p]; try lia.
  unfold of_Z, binary_normalize, binary_round, shl_align.
  rewrite Z.add_0_r.
  set (d := Zpos (digits2_pos p)).
  assert (Hd : 1 <= d) by (unfold d; lia).
  destruct (fexp prec emax d - 0) as [|k|k] eqn:Ek.
  - destruct (binary_round_aux_positive true p 0 loc_Exact)
      as [H|(m & e & H & _)]; [fold d; lia|now left|right; now exists m, e].
  - destruct (binary_round_aux_positive true p 0 loc_Exact)
      as [H|(m & e & H & _)]; [fold d; lia|now left|right; now exists m, e].
  - destruct (binary_round_aux_positive true (Pos.iter xO p k)
                (fexp prec emax d) loc_Exact)
      as [H|(m & e & H & _)].
    + rewrite digits_iter_xO, Pos2Z.inj_add. fold d. lia.
    + now left.
    + right. now exists m, e.
Qed.

(** Dividing a number that is at least one by a negative real gives a
    negative number or the negative infinity. *)
Lemma div_negative (x c : number) :
  at_least_one x -> negative_finite c = true ->
  div x c = S754_infinity true
  \/ exists m e, div x c = S754_finite true m e.
Proof.
  intros Hx Hc.
  destruct c as [| | |[|] my ey]; try discriminate.
  cbn [negative_finite] in Hc. apply positive_finite_bounds in Hc.
  destruct Hx as [->|(mx & ex & -> & _ & Hmag)]; [left; reflexivity|].
  unfold div, SFdiv, SFdiv_core_binary. cbn [Zdigits2 xorb].
  set (d1 := Zpos (digits2_pos mx)) in *.
  set (d2 := Zpos (digits2_pos my)) in *.
  set (e' := Z.min (fexp prec emax (d1 + ex - (d2 + ey))) (ex - ey)).
  set (s := ex - ey - e').
  assert (Hd1 : 1 <= d1) by (unfold d1; lia).
  assert (Hd2 : 1 <= d2) by (unfold d2; lia).
  assert (Hs : 0 <= s /\ 0 <= d1 - 1 + s - d2).
  { unfold s, e', fexp, SpecFloat.emin, prec, emax. lia. }
  set (m' := match s with
             | 0 => Zpos mx
             | Zpos _ => Z.shiftl (Zpos mx) s
             | Zneg _ => 0
             end).
  assert (Hm' : m' = Zpos mx * 2 ^ s).
  { unfold m'. destruct s as [|k|k] eqn:Es; try lia.
    apply Z.shiftl_mul_pow2. lia. }
  destruct (Z.div_eucl m' (Zpos my)) as [q r] eqn:Eq.
  assert (Hq : q = m' / Zpos my) by (unfold Z.div; now rewrite Eq).
  set (t := d1 - 1 + s - d2) in *.
  assert (Hlow : 2 ^ t <= q).
  { rewrite Hq. apply Z.div_le_lower_bound; [lia|].
    destruct (digits_bounds mx) as [Hl _]. fold d1 in Hl.
    destruct (digits_bounds my) as [_ Hu]. fold d2 in Hu.
    rewrite Hm'.
    assert (P1 : 0 < 2 ^ t) by (apply Z.pow_pos_nonneg; lia).
    assert (P2 : 0 < 2 ^ s) by (apply Z.pow_pos_nonneg; lia).
    assert (P3 : 2 ^ d2 * 2 ^ t = 2 ^ (d1 - 1) * 2 ^ s).
    { rewrite <- !Z.pow_add_r by lia. f_equal. unfold t. lia. }
    nia. }
  assert (Hqpos : 0 < q).
  { assert (P1 : 0 < 2 ^ t) by (apply Z.pow_pos_nonneg; lia). lia. }
  destruct q as [|mq|mq]; try lia.
  pose proof (digits_lower mq t (proj2 Hs) Hlow) as Hdq.
  destruct (binary_round_aux_positive true mq e' (new_location (Zpos my) r))
    as [H|(m2 & e2 & H & _)].
  - unfold t, s in Hdq. lia.
  - left. exact H.
  - right. exists m2, e2. exact H.
Qed.

Lemma leb_negative_zero (x : number) :
  x = S754_zero true \/ x = S754_infinity true
  \/ (exists m e, x = S754_finite true m e) ->
  leb x zero = true /\ forall m, leb zero m = true -> Math_max m x = m.
Proof.
  intros H.
  assert (Hx : is_nan x = false)
    by (destruct H as [->|[->|(m & e & ->)]]; reflexivity).
  assert (R : key_compare (rank x) (rank zero) = Lt).
  { apply key_compare_Lt.
    destruct H as [->|[->|(m & e & ->)]]; cbn [rank key zero fst snd]; lia. }
  split.
  - apply rank_leb; [exact Hx|reflexivity|]. rewrite R. discriminate.
  - intros m Hm.
    assert (Nm : is_nan m = false) by (apply leb_key in Hm; tauto).
    destruct (Math_max_rank m x Nm Hx) as [N E].
    apply rank_inj; [exact N|exact Nm|]. rewrite E. unfold key_max.
    destruct (key_compare (rank m) (rank x)) eqn:C; try reflexivity.
    exfalso. apply leb_key in Hm. destruct Hm as (_ & _ & Hm).
    rewrite key_compare_le in Hm. rewrite key_compare_Lt in C, R.
    destruct H as [->|[->|(mx & ex & ->)]];
      destruct m as [[|]|[|]| |[|] mm em]; try discriminate;
      cbn [rank key zero fst snd] in *; lia.
Qed.

Lemma Math_ceil_negative (x : number) :
  x = S754_infinity true \/ (exists m e, x = S754_finite true m e) ->
  Math_ceil x = S754_zero true \/ Math_ceil x = S754_infinity true
  \/ (exists m e, Math_ceil x = S754_finite true m e).
Proof.
  intros [->|(m & e & ->)].
  - right. now left.
  - destruct e as [|p|p]; cbn [Math_ceil mantissa].
    + right. right. now exists m, 0.
    + right. right. now exists m, (Zpos p).
    + assert (P : 0 < Z.pow_pos 2 p).
      { rewrite Z.pow_pos_fold. apply Z.pow_pos_nonneg; lia. }
      assert (H : 0 <= - Zneg m / Z.pow_pos 2 p)
        by (apply Z.div_pos; lia).
      destruct (Z.eqb_spec (- (- Zneg m / Z.pow_pos 2 p)) 0) as [E|E];
        [now left|right].
      apply of_Z_negative. lia.
Qed.

Lemma daysFor_negative (totalPoints : Z) (cap : number) :
  1 <= totalPoints -> negative_finite cap = true ->
  leb (daysFor totalPoints cap) zero = true
  /\ forall m, leb zero m = true ->
       Math_max m (daysFor totalPoints cap) = m.
Proof.
  intros Hp Hc. apply leb_negative_zero. unfold daysFor.
  apply Math_ceil_negative.
  apply div_negative; [now apply of_Z_at_least_one|exact Hc].
Qed.

Lemma fold_max_negative (ds : list number) :
  Forall (fun d => forall m, leb zero m = true -> Math_max m d = m) ds ->
  fold_left Math_max ds zero = zero.
Proof.
  induction 1 as [|d ds Hd _ IH]; cbn [fold_left]; [reflexivity|].
  rewrite (Hd zero eq_refl). exact IH.
Qed.

(** X12.  A negative capacity is not refused.  When every task has at least
    one point, the days of a developer whose capacity is a negative real are
    at most 0; and if every developer has such a capacity, [totalDays] is
    0. *)
Theorem negative_capacity {Date : Type} (addDays : Date -> number -> Date)
    (today : Date) (tasks : list Task) (developers : list Developer) :
  Forall (fun t => 1 <= task_fibonacciEstimate t) tasks ->
  (forall devId e dev,
      In (devId, e) (breakdown (calculateParallelEstimate
                                  addDays today tasks developers)) ->
      findDev developers devId = Some dev ->
      negative_finite (capacity dev) = true ->
      leb (days e) zero = true)
  /\ (Forall (fun d => negative_finite (capacity d) = true) developers ->
      totalDays (calculateParallelEstimate addDays today tasks developers)
      = zero).
Proof.
  intros Hp.
  assert (D : forall devId e dev,
             In (devId, e) (breakdown (calculateParallelEstimate
                                         addDays today tasks developers)) ->
             findDev developers devId = Some dev ->
             negative_finite (capacity dev) = true ->
             leb (days e) zero = true
             /\ forall m, leb zero m = true -> Math_max m (days e) = m).
  { intros devId e dev He F Hc. apply breakdown_entries in He.
    destruct He as (dev' & F' & T & ->). rewrite F in F'.
    injection F' as <-. cbn [days].
    apply daysFor_negative; [|exact Hc].
    apply sumPoints_tasksOf_lower; [lia|exact Hp|exact T]. }
  split.
  - intros devId e dev He F Hc. exact (proj1 (D devId e dev He F Hc)).
  - intros Hc. rewrite parallel_totalDays. apply fold_max_negative.
    apply Forall_forall. intros d Hd. apply in_map_iff in Hd.
    destruct Hd as ([k e] & <- & He). cbn [snd].
    rewrite <- (parallel_breakdown addDays today) in He.
    pose proof He as He'. apply breakdown_entries in He'.
    destruct He' as (dev & F & _ & _).
    apply (D k e dev He F).
    apply findDev_Some in F. destruct F as [F _].
    exact (proj1 (Forall_forall _ _) Hc dev F).
Qed.

Lemma negative_capacity_witness :
  totalDays (calculateParallelEstimate plus_days 100
               [mkTask "api" Backend "dev-1" all_zero zero 8]
               [mkDeveloper "dev-1" "Ann" Backend (of_Z (-4))])
  = zero.
Proof.
  apply (negative_capacity plus_days 100
           [mkTask "api" Backend "dev-1" all_zero zero 8]
           [mkDeveloper "dev-1" "Ann" Backend (of_Z (-4))]).
  - repeat constructor. cbn. lia.
  - repeat constructor.
Defined.

(** ** Capacities that are powers of two: the days are the exact ceiling *)

Lemma iter_xO_value (p k : positive) :
  Zpos (Pos.iter xO p k) = Zpos p * 2 ^ Zpos k.
Proof.
  induction k as [|k IH] using Pos.peano_ind.
  - cbn [Pos.iter]. rewrite Pos2Z.inj_xO. change (2 ^ 1) with 2. lia.
  - rewrite Pos.iter_succ, Pos2Z.inj_xO, IH, Pos2Z.inj_succ, Z.pow_succ_r
      by lia. lia.
Qed.

(** A positive integer below 2^53 as a number: its mantissa is the integer
    shifted to 53 bits. *)
Lemma of_Z_explicit (p : positive) :
  Zpos p < 2 ^ 53 ->
  exists m,
    of_Z (Zpos p) = S754_finite false m (Zpos (digits2_pos p) - 53)
    /\ Zpos m = Zpos p * 2 ^ (53 - Zpos (digits2_pos p))
    /\ Zpos (digits2_pos m) = 53.
Proof.
  intros Hp. unfold of_Z, binary_normalize, binary_round, shl_align.
  rewrite Z.add_0_r.
  set (d := Zpos (digits2_pos p)).
  assert (Hd : 1 <= d <= 53).
  { split; [unfold d; lia|].
    destruct (digits_bounds p) as [Hl _]. fold d in Hl.
    assert (d - 1 < 53); [|lia].
    apply (Z.pow_lt_mono_r_iff 2); lia. }
  assert (E : fexp prec emax d = d - 53)
    by (unfold fexp, SpecFloat.emin, prec, emax; lia).
  rewrite E, Z.sub_0_r.
  destruct (d - 53) as [|k|k] eqn:Ek; try lia.
  - rewrite binary_round_aux_exact_sign by (fold d; lia).
    exists p. split; [reflexivity|]. fold d.
    replace (53 - d) with 0 by lia. split; lia.
  - assert (Hk : Zpos (digits2_pos (Pos.iter xO p k)) = 53)
      by (rewrite digits_iter_xO, Pos2Z.inj_add; fold d; lia).
    rewrite binary_round_aux_exact_sign by lia.
    exists (Pos.iter xO p k). split; [reflexivity|].
    split; [|exact Hk]. rewrite iter_xO_value. f_equal. f_equal. lia.
Qed.

Lemma binary_round_aux_even (m : positive) (e : Z) :
  Zpos (digits2_pos m) = 53 -> -1022 <= e <= 970 ->
  binary_round_aux prec emax false (Zpos m~0) e loc_Exact
  = S754_finite false m (e + 1).
Proof.
  intros Hd He. unfold binary_round_aux, shr_fexp.
  cbn [Zdigits2 digits2_pos]. rewrite Pos2Z.inj_succ, Hd.
  assert (E : fexp prec emax (Z.succ 53 + e) - e = 1)
    by (unfold fexp, SpecFloat.emin, prec, emax; lia).
  rewrite E.
  cbn [shr shr_record_of_loc SpecFloat.iter_pos shr_1 shr_m shr_r shr_s
       orb loc_of_shr_record round_nearest_even Zdigits2].
  rewrite Hd.
  assert (E' : fexp prec emax (53 + (e + 1)) - (e + 1) = 0)
    by (unfold fexp, SpecFloat.emin, prec, emax; lia).
  rewrite E'. cbn [shr shr_record_of_loc shr_m].
  destruct (Z.leb_spec (e + 1) (emax - prec)) as [_|C];
    [reflexivity|unfold emax, prec in C; lia].
Qed.

Lemma div_power_of_two (m : positive) (e k : Z) :
  Zpos (digits2_pos m) = 53 -> -52 <= e <= 0 -> 0 <= k <= 52 ->
  div (S754_finite false m e) (power_of_two k) = S754_finite false m (e - k).
Proof.
  intros Hd He Hk. unfold div, SFdiv, power_of_two, SFdiv_core_binary.
  cbn [Zdigits2 xorb]. rewrite Hd.
  change (Zpos (digits2_pos 4503599627370496)) with 53.
  assert (E : Z.min (fexp prec emax (53 + e - (53 + (k - 52))))
                    (e - (k - 52)) = e - k - 1)
    by (unfold fexp, SpecFloat.emin, prec, emax; lia).
  rewrite E.
  replace (e - (k - 52) - (e - k - 1)) with 53 by lia.
  cbv iota.
  rewrite Z.shiftl_mul_pow2 by lia.
  assert (Q : Z.div_eucl (Zpos m * 2 ^ 53) 4503599627370496
              = (Zpos m~0, 0)).
  { pose proof (Z.div_eucl_eq (Zpos m * 2 ^ 53) 4503599627370496
                  ltac:(lia)) as D.
    pose proof (Z.mod_pos_bound (Zpos m * 2 ^ 53) 4503599627370496
                  ltac:(lia)) as B.
    unfold Z.modulo in B.
    destruct (Z.div_eucl (Zpos m * 2 ^ 53) 4503599627370496) as [q r].
    change (2 ^ 53) with 9007199254740992 in D.
    rewrite Pos2Z.inj_xO.
    assert (q = 2 * Zpos m /\ r = 0) by lia.
    f_equal; tauto. }
  rewrite Q. change (new_location 4503599627370496 0) with loc_Exact.
  rewrite binary_round_aux_even by lia.
  f_equal. lia.
Qed.

Lemma of_Z_power_of_two :
  of_Z 1 = power_of_two 0 /\ of_Z 2 = power_of_two 1
  /\ of_Z 4 = power_of_two 2 /\ of_Z 8 = power_of_two 3.
Proof. vm_compute. repeat split. Qed.

(** The ceiling of an integer divided by a power of two. *)
Lemma daysFor_power_of_two (totalPoints k : Z) :
  0 <= totalPoints < 2 ^ 53 -> 0 <= k <= 52 ->
  daysFor totalPoints (power_of_two k)
  = of_Z (- (- totalPoints / 2 ^ k)).
Proof.
  intros Hp Hk. destruct totalPoints as [|p|p]; try lia.
  - rewrite Z.opp_0, Z.div_0_l by (apply Z.pow_nonzero; lia). reflexivity.
  - destruct (of_Z_explicit p) as (m & E & V & D); [lia|].
    unfold daysFor. rewrite E.
    set (d := Zpos (digits2_pos p)) in *.
    assert (Hd : 1 <= d <= 53).
    { split; [unfold d; lia|].
      destruct (digits_bounds p) as [Hl _]. fold d in Hl.
      assert (d - 1 < 53); [|lia].
      apply (Z.pow_lt_mono_r_iff 2); lia. }
    rewrite div_power_of_two by lia.
    assert (P2 : 0 < 2 ^ k) by (apply Z.pow_pos_nonneg; lia).
    destruct (d - 53 - k) as [|e|e] eqn:Ee; try lia.
    + assert (k = 0) by lia. assert (d = 53) by lia. subst k.
      cbn [Math_ceil]. change (2 ^ 0) with 1. rewrite Z.div_1_r.
      rewrite Z.opp_involutive, E.
      replace (d - 53) with 0 by lia. reflexivity.
    + cbn [Math_ceil mantissa]. rewrite Z.pow_pos_fold.
      assert (Pe : 2 ^ Zpos e = 2 ^ k * 2 ^ (53 - d)).
      { rewrite <- Z.pow_add_r by lia. f_equal. lia. }
      assert (Q : - Zpos m / 2 ^ Zpos e = - Zpos p / 2 ^ k).
      { rewrite V, Pe, <- Z.mul_opp_l.
        apply Z.div_mul_cancel_r; [lia|].
        apply Z.pow_nonzero; lia. }
      rewrite Q.
      assert (N : - Zpos p / 2 ^ k < 0)
        by (apply Z.div_lt_upper_bound; lia).
      destruct (Z.eqb_spec (- (- Zpos p / 2 ^ k)) 0) as [C|_]; [lia|].
      reflexivity.
Qed.

Lemma ceiling_div (p c : Z) : 0 < c -> - (- p / c) = (p + c - 1) / c.
Proof.
  intros Hc.
  pose proof (Z.div_mod (p + c - 1) c ltac:(lia)) as D.
  pose proof (Z.mod_pos_bound (p + c - 1) c Hc) as B.
  rewrite <- (Z.div_unique (- p) c (- ((p + c - 1) / c))
                (c - 1 - (p + c - 1) mod c)); [lia|lia|].
  nia.
Qed.

Lemma daysFor_small_capacity (totalPoints c : Z) :
  0 <= totalPoints < 2 ^ 53 -> In c [1; 2; 4; 8] ->
  daysFor totalPoints (of_Z c) = of_Z ((totalPoints + c - 1) / c).
Proof.
  intros Hp Hc. destruct of_Z_power_of_two as (P1 & P2 & P4 & P8).
  cbn [In] in Hc. destruct Hc as [<-|[<-|[<-|[<-|[]]]]].
  - rewrite P1, daysFor_power_of_two by lia. f_equal.
    change (2 ^ 0) with 1. apply ceiling_div. lia.
  - rewrite P2, daysFor_power_of_two by lia. f_equal.
    change (2 ^ 1) with 2. apply ceiling_div. lia.
  - rewrite P4, daysFor_power_of_two by lia. f_equal.
    change (2 ^ 2) with 4. apply ceiling_div. lia.
  - rewrite P8, daysFor_power_of_two by lia. f_equal.
    change (2 ^ 3) with 8. apply ceiling_div. lia.
Qed.

(** X13.  For a capacity of 1, 2, 4 (the default) or 8, the binary64 division
    loses nothing: the days of a developer are exactly the integer ceiling of
    points / capacity, when no task has negative points and the points total
    less than 2^53. *)
Theorem days_exact_ceiling {Date : Type} (addDays : Date -> number -> Date)
    (today : Date) (tasks : list Task) (developers : list Developer) :
  Forall (fun t => 0 <= task_fibonacciEstimate t) tasks ->
  sumZ (map task_fibonacciEstimate tasks) < 2 ^ 53 ->
  forall devId e dev c,
    In (devId, e) (breakdown (calculateParallelEstimate
                                addDays today tasks developers)) ->
    findDev developers devId = Some dev ->
    In c [1; 2; 4; 8] -> capacity dev = of_Z c ->
    days e = of_Z ((points e + c - 1) / c).
Proof.
  intros Hp Hs devId e dev c He F Hc Ec.
  apply breakdown_entries in He. destruct He as (dev' & F' & _ & ->).
  rewrite F in F'. injection F' as <-. cbn [days points]. rewrite Ec.
  apply daysFor_small_capacity; [|exact Hc].
  rewrite sumPoints_sumZ. unfold tasksOf.
  pose proof (sumZ_filter_le (fun t => String.eqb (assignedTo t) devId)
                tasks Hp).
  lia.
Qed.

Lemma days_exact_ceiling_witness :
  of_Z 2 = of_Z ((8 + 4 - 1) / 4).
Proof.
  apply (days_exact_ceiling plus_days 100 scenario_tasks scenario_developers
           scenario_points eq_refl "dev-1"
           {| de_name := "Ann"; days := of_Z 2; points := 8 |}
           (mkDeveloper "dev-1" "Ann" Backend (of_Z 4)) 4).
  - vm_compute. left. reflexivity.
  - reflexivity.
  - cbn. tauto.
  - reflexivity.
Defined.

(** ** Parallel scheduler: the ceiling and the maximum *)

Lemma below_digits (m : Z) : 0 <= m -> m < 2 ^ Zdigits2 m.
Proof.
  intros H. destruct m as [|p|p]; [reflexivity| |lia].
  cbn [Zdigits2]. apply digits_bounds.
Qed.

Lemma shr_below (m : Z) (l : location) (e n : Z) :
  0 <= m -> Zdigits2 m - 53 <= n ->
  shr_m (fst (shr (shr_record_of_loc m l) e n)) < 2 ^ 53.
Proof.
  intros Hm Hn.
  assert (E : shr_m (shr_record_of_loc m l) = m)
    by (destruct l as [|[| |]]; reflexivity).
  pose proof (below_digits m Hm) as B.
  assert (D : 0 <= Zdigits2 m) by (destruct m; cbn [Zdigits2]; lia).
  destruct n as [|n|n]; cbn [shr fst]; rewrite ?E.
  - apply Z.lt_le_trans with (1 := B). apply Z.pow_le_mono_r; lia.
  - rewrite iter_shr_1_m by lia. rewrite E.
    apply Z.div_lt_upper_bound; [apply Z.pow_pos_nonneg; lia|].
    rewrite <- Z.pow_add_r by lia.
    apply Z.lt_le_trans with (1 := B). apply Z.pow_le_mono_r; lia.
  - apply Z.lt_le_trans with (1 := B). apply Z.pow_le_mono_r; lia.
Qed.

(** The mantissa of a rounded number has at most 53 bits. *)
Lemma binary_round_aux_below (s : bool) (m e : Z) (l : location)
    (s' : bool) (m' : positive) (e' : Z) :
  0 <= m ->
  binary_round_aux prec emax s m e l = S754_finite s' m' e' ->
  Zpos m' < 2 ^ 53.
Proof.
  intros Hm. unfold binary_round_aux, shr_fexp.
  pose proof (shr_nonneg m l e (fexp prec emax (Zdigits2 m + e) - e) Hm)
    as H1.
  destruct (shr (shr_record_of_loc m l) e
                (fexp prec emax (Zdigits2 m + e) - e)) as [mrs1 e1].
  cbn [fst] in H1.
  pose proof (round_nearest_even_ge (shr_m mrs1) (loc_of_shr_record mrs1))
    as Hr.
  set (m1 := round_nearest_even (shr_m mrs1) (loc_of_shr_record mrs1)) in *.
  assert (H2 : 0 <= m1) by lia.
  assert (H3 : Zdigits2 m1 - 53 <= fexp prec emax (Zdigits2 m1 + e1) - e1)
    by (unfold fexp, prec; lia).
  pose proof (shr_below m1 loc_Exact e1 _ H2 H3) as B.
  destruct (shr (shr_record_of_loc m1 loc_Exact) e1
                (fexp prec emax (Zdigits2 m1 + e1) - e1)) as [mrs2 e2].
  cbn [fst] in B.
  destruct (shr_m mrs2) as [|p|p]; try discriminate.
  destruct (e2 <=? emax - prec); [|destruct s; discriminate].
  intros H. injection H as _ <- _. exact B.
Qed.

Lemma div_below (x c : number) (s : bool) (m : positive) (e : Z) :
  div x c = S754_finite s m e -> Zpos m < 2 ^ 53.
Proof.
  destruct x as [sx|sx| |sx mx ex], c as [sc|sc| |sc mc ec];
    cbn [div SFdiv]; try discriminate.
  unfold div, SFdiv.
  destruct (SFdiv_core_binary prec emax (Zpos mx) ex (Zpos mc) ec)
    as [[mz ez] lz] eqn:E.
  apply binary_round_aux_below.
  unfold SFdiv_core_binary in E.
  set (m' := match _ with 0 => Zpos mx | Zpos _ => _ | Zneg _ => 0 end)
    in E.
  assert (Hm' : 0 <= m').
  { unfold m'.
    match goal with |- context [match ?s with _ => _ end] =>
      destruct s as [|k|k] eqn:Es end; try lia.
    rewrite Z.shiftl_mul_pow2 by lia.
    assert (0 < 2 ^ Zpos k) by (apply Z.pow_pos_nonneg; lia). lia. }
  destruct (Z.div_eucl m' (Zpos mc)) as [q r] eqn:Eq.
  assert (Hq : q = m' / Zpos mc) by (unfold Z.div; now rewrite Eq).
  inversion E; subst mz. rewrite Hq. apply Z.div_pos; lia.
Qed.

(** An integer of fewer than 54 bits as a number, whatever its sign. *)
Lemma binary_round_explicit (s : bool) (p : positive) :
  Zpos p < 2 ^ 53 ->
  exists m,
    binary_round prec emax s p 0
    = S754_finite s m (Zpos (digits2_pos p) - 53)
    /\ Zpos m = Zpos p * 2 ^ (53 - Zpos (digits2_pos p)).
Proof.
  intros Hp. unfold binary_round, shl_align. rewrite Z.add_0_r.
  set (d := Zpos (digits2_pos p)).
  assert (Hd : 1 <= d <= 53).
  { split; [unfold d; lia|].
    destruct (digits_bounds p) as [Hl _]. fold d in Hl.
    assert (d - 1 < 53); [|lia].
    apply (Z.pow_lt_mono_r_iff 2); lia. }
  assert (E : fexp prec emax d = d - 53)
    by (unfold fexp, SpecFloat.emin, prec, emax; lia).
  rewrite E, Z.sub_0_r.
  destruct (d - 53) as [|k|k] eqn:Ek; try lia.
  - rewrite binary_round_aux_exact_sign by (fold d; lia).
    exists p. split; [reflexivity|].
    replace (53 - d) with 0 by lia. lia.
  - assert (Hk : Zpos (digits2_pos (Pos.iter xO p k)) = 53)
      by (rewrite digits_iter_xO, Pos2Z.inj_add; fold d; lia).
    rewrite binary_round_aux_exact_sign by lia.
    exists (Pos.iter xO p k). split; [reflexivity|].
    rewrite iter_xO_value. f_equal. f_equal. lia.
Qed.

Lemma toQ_scaled (s : bool) (m p : positive) (e : Z) :
  e <= 0 -> Zpos m = Zpos p * 2 ^ (- e) ->
  Number_isInteger (S754_finite s m e) = true
  /\ (toQ (S754_finite s m e) == inject_Z (mantissa s p))%Q.
Proof.
  intros He Hm. destruct e as [|q|q]; try lia.
  - cbn [Number_isInteger toQ]. split; [reflexivity|].
    change (2 ^ (- 0)) with 1 in Hm. rewrite Z.mul_1_r in Hm.
    injection Hm as ->. reflexivity.
  - cbn [Number_isInteger toQ Z.opp] in *.
    change (Z.pow_pos 2 q) with (2 ^ Zpos q). split.
    + rewrite Hm, Z.mod_mul; [reflexivity|].
      apply Z.pow_nonzero; lia.
    + unfold Qeq, inject_Z. cbn [Qnum Qden].
      rewrite Pos2Z.inj_pow, Z.mul_1_r.
      destruct s; cbn [mantissa].
      * change (Zneg m) with (- Zpos m). change (Zneg p) with (- Zpos p).
        rewrite Hm. lia.
      * now rewrite Hm.
Qed.

Lemma of_Z_exact (k : Z) :
  Z.abs k < 2 ^ 53 ->
  Number_isInteger (of_Z k) = true /\ (toQ (of_Z k) == inject_Z k)%Q.
Proof.
  intros Hk. destruct k as [|p|p].
  - split; reflexivity.
  - destruct (binary_round_explicit false p) as (m & E & Hm); [lia|].
    unfold of_Z, binary_normalize. rewrite E.
    assert (D : Zpos (digits2_pos p) <= 53).
    { destruct (digits_bounds p) as [Hl _].
      assert (Zpos (digits2_pos p) - 1 < 53); [|lia].
      apply (Z.pow_lt_mono_r_iff 2); lia. }
    apply (toQ_scaled false m p); [lia|].
    rewrite Hm. f_equal. f_equal. lia.
  - destruct (binary_round_explicit true p) as (m & E & Hm); [lia|].
    unfold of_Z, binary_normalize. rewrite E.
    assert (D : Zpos (digits2_pos p) <= 53).
    { destruct (digits_bounds p) as [Hl _].
      assert (Zpos (digits2_pos p) - 1 < 53); [|lia].
      apply (Z.pow_lt_mono_r_iff 2); lia. }
    apply (toQ_scaled true m p); [lia|].
    rewrite Hm. f_equal. f_equal. lia.
Qed.

Lemma Qceiling_fraction (a : Z) (p : positive) :
  Qceiling (a # Pos.pow 2 p) = - (- a / Z.pow_pos 2 p).
Proof.
  unfold Qceiling, Qfloor, Qopp. cbn [Qnum Qden].
  rewrite Pos2Z.inj_pow. reflexivity.
Qed.

Lemma Math_ceil_is_ceiling (x : number) :
  (forall s m e, x = S754_finite s m e -> Zpos m < 2 ^ 53) ->
  is_ceiling x (Math_ceil x).
Proof.
  intros B. destruct x as [s|s| |s m [|p|p]]; try reflexivity.
  - cbn [is_ceiling Math_ceil Number_isInteger toQ]. split; [reflexivity|].
    now rewrite Qceiling_Z.
  - cbn [is_ceiling Math_ceil Number_isInteger toQ]. split; [reflexivity|].
    now rewrite Qceiling_Z.
  - specialize (B s m (Zneg p) eq_refl).
    cbn [is_ceiling Math_ceil toQ]. rewrite Qceiling_fraction.
    set (k := - (- mantissa s m / Z.pow_pos 2 p)).
    destruct (Z.eqb_spec k 0) as [->|Hk].
    + split; reflexivity.
    + apply of_Z_exact.
      assert (P : 1 <= Z.pow_pos 2 p).
      { change (Z.pow_pos 2 p) with (2 ^ Zpos p).
        assert (0 < 2 ^ Zpos p) by (apply Z.pow_pos_nonneg; lia). lia. }
      assert (M : - 2 ^ 53 < mantissa s m < 2 ^ 53)
        by (destruct s; cbn [mantissa]; lia).
      unfold k. generalize dependent (Z.pow_pos 2 p). intros P _ _ HP.
      generalize dependent (mantissa s m). intros a Ha.
      set (T := 2 ^ 53) in *. assert (HT : 0 < T) by reflexivity.
      clearbody T.
      assert (L : - T < - a / P).
      { assert (- T + 1 <= - a / P); [|lia].
        apply Z.div_le_lower_bound; [lia|]. nia. }
      assert (U : - a / P < T).
      { apply Z.div_lt_upper_bound; [lia|]. nia. }
      lia.
Qed.

Lemma daysFor_is_ceiling (totalPoints : Z) (cap : number) :
  is_ceiling (div (of_Z totalPoints) cap) (daysFor totalPoints cap).
Proof.
  apply Math_ceil_is_ceiling. intros s m e E. exact (div_below _ _ _ _ _ E).
Qed.

Lemma daysFor_number (totalPoints : Z) (cap : number) :
  positive_finite cap = true -> is_nan (daysFor totalPoints cap) = false.
Proof.
  intros Hc. unfold daysFor. apply Math_ceil_not_nan.
  destruct (is_nan (div (of_Z totalPoints) cap)) eqn:E; [|reflexivity].
  apply div_nan in E.
  destruct E as [E|[E|[(s & t & _ & E)|(s & t & _ & E)]]].
  - now rewrite of_Z_not_nan in E.
  - destruct cap; discriminate.
  - subst cap. discriminate.
  - subst cap. discriminate.
Qed.

Lemma exact_days_small (totalPoints c : Z) :
  In c [1; 2; 4; 8] ->
  exact_days totalPoints (of_Z c) = (totalPoints + c - 1) / c.
Proof.
  intros Hc. rewrite <- ceiling_div by (cbn [In] in Hc; lia).
  unfold exact_days.
  assert (E : (inject_Z totalPoints / toQ (of_Z c)
               == totalPoints # Z.to_pos c)%Q).
  { cbn [In] in Hc.
    destruct Hc as [<-|[<-|[<-|[<-|[]]]]];
      unfold Qeq; cbn; lia. }
  rewrite E. unfold Qceiling, Qfloor, Qopp. cbn [Qnum Qden].
  cbn [In] in Hc. destruct Hc as [<-|[<-|[<-|[<-|[]]]]]; reflexivity.
Qed.

(** Over days that are 0 or at least 1, the running maximum that starts
    from 0 ends on one of them. *)
Lemma fold_max_attained (ds : list number) :
  Forall (fun d => d = zero \/ leb (of_Z 1) d = true) ds ->
  ds <> [] -> In (fold_left Math_max ds zero) ds.
Proof.
  intros H Hne. destruct ds as [|d ds]; [contradiction|].
  inversion H as [|d' ds' Hd Hds]; subst. cbn [fold_left].
  assert (E : Math_max zero d = d).
  { destruct Hd as [->|Hd]; [reflexivity|now apply Math_max_zero_l]. }
  rewrite E.
  assert (N : forall x, x = zero \/ leb (of_Z 1) x = true ->
                        is_nan x = false).
  { intros x [->|Hx]; [reflexivity|]. exact (leb_not_nan _ _ Hx). }
  assert (Nds : Forall (fun d => is_nan d = false) ds).
  { apply Forall_forall. intros x Hx. apply N.
    exact (proj1 (Forall_forall _ _) Hds x Hx). }
  destruct (fold_max_upper ds Nds d (N d Hd)) as (_ & _ & _ & [A|A]).
  - left. now rewrite A.
  - now right.
Qed.

Lemma fold_max_bounds (ds : list number) :
  Forall (fun d => is_nan d = false) ds ->
  forall d, In d ds -> leb d (fold_left Math_max ds zero) = true.
Proof.
  intros N d Hd.
  destruct (fold_max_upper ds N zero eq_refl) as (Nm & _ & U & _).
  apply rank_leb; [|exact Nm|now apply U].
  exact (proj1 (Forall_forall _ _) N d Hd).
Qed.

Section Breakdown.

Context {Date : Type}.
Variable addDays : Date -> number -> Date.
Variable today : Date.
Variable tasks : list Task.
Variable developers : list Developer.

Hypothesis capacities :
  Forall (fun d => positive_finite (capacity d) = true) developers.

Lemma breakdown_days_numbers :
  Forall (fun d => is_nan d = false)
         (map (fun e => days (snd e))
              (breakdown (calculateParallelEstimate addDays today tasks
                                                    developers))).
Proof.
  apply Forall_forall. intros d Hd. apply in_map_iff in Hd.
  destruct Hd as ([k e] & <- & Hin). apply breakdown_entries in Hin.
  destruct Hin as (dev & Hdev & _ & ->). cbn [snd days].
  apply daysFor_number. exact (capacity_positive _ _ _ capacities Hdev).
Qed.

Lemma breakdown_days_zero_or_more :
  Forall (fun t => 0 <= task_fibonacciEstimate t) tasks ->
  Forall (fun d => d = zero \/ leb (of_Z 1) d = true)
         (map (fun e => days (snd e))
              (breakdown (calculateParallelEstimate addDays today tasks
                                                    developers))).
Proof.
  intros Hpos. apply Forall_forall. intros d Hd. apply in_map_iff in Hd.
  destruct Hd as ([k e] & <- & Hin). apply breakdown_entries in Hin.
  destruct Hin as (dev & Hdev & Hne & ->). cbn [snd days].
  pose proof (capacity_positive _ _ _ capacities Hdev) as Hc.
  pose proof (sumPoints_tasksOf_lower 0 k tasks (Z.le_refl 0) Hpos Hne) as Hp.
  destruct (Z.eq_dec (sumPoints (tasksOf k tasks)) 0) as [Z0|NZ].
  - left. rewrite Z0. now apply daysFor_zero.
  - right. apply daysFor_at_least_one; [lia|exact Hc].
Qed.

End Breakdown.

(** C4, counterexample.  One task of 1 point for a developer of capacity
    0.3333333333333333: the quotient 1 / 0.3333333333333333 is above 3, its
    ceiling is 4, and the developer's days are 3, the binary64 quotient
    being exactly 3. *)
Lemma days_are_not_the_exact_ceiling :
  positive_finite n0_3333333333333333 = true
  /\ div (of_Z 1) n0_3333333333333333 = of_Z 3
  /\ lookup "dev-1"
       (breakdown (calculateParallelEstimate plus_days 0
                     [mkTask "api" Backend "dev-1" all_zero zero 1]
                     [mkDeveloper "dev-1" "Ann" Backend
                                  n0_3333333333333333]))
     = Some {| de_name := "Ann"; days := of_Z 3; points := 1 |}
  /\ exact_days 1 n0_3333333333333333 = 4
  /\ ~ days_as_stated.
Proof.
  split; [vm_compute; reflexivity|].
  split; [vm_compute; reflexivity|].
  split; [vm_compute; reflexivity|].
  split; [vm_compute; reflexivity|].
  intros H.
  specialize (H [mkTask "api" Backend "dev-1" all_zero zero 1]
                [mkDeveloper "dev-1" "Ann" Backend n0_3333333333333333]
                "dev-1"%string
                (mkDeveloper "dev-1" "Ann" Backend n0_3333333333333333)
                {| de_name := "Ann"; days := of_Z 3; points := 1 |}).
  assert (C : (toQ (of_Z 3) == inject_Z 4)%Q).
  { apply H.
    - repeat constructor.
    - reflexivity.
    - vm_compute. reflexivity. }
  apply Qeq_bool_iff in C. vm_compute in C. discriminate.
Qed.

(** C4, amended.  With positive capacities, the breakdown has, for every
    developer of the list to whom at least one task is assigned, an entry
    under the developer's name whose points are the sum of the effort units
    of that developer's tasks and whose days are the ceiling of the binary64
    quotient of points by capacity: that is the ceiling of points / capacity
    when the capacity is 1, 2, 4 or 8 (the points being at least 0 and less
    than 2^53); it has no other entry.  No entry's days exceed [totalDays];
    [totalDays] is 0 when the breakdown is empty and, effort units being
    non-negative (as those of the scale are), the days of some entry
    otherwise; and the delivery date is today moved by [totalDays]. *)
Theorem parallel_estimate {Date : Type} (addDays : Date -> number -> Date)
    (today : Date) (tasks : list Task) (developers : list Developer) :
  Forall (fun d => positive_finite (capacity d) = true) developers ->
  (forall devId dev,
      findDev developers devId = Some dev -> tasksOf devId tasks <> [] ->
      exists e,
        lookup devId (breakdown (calculateParallelEstimate addDays today
                                   tasks developers)) = Some e
        /\ de_name e = dev_name dev
        /\ points e = sumZ (map task_fibonacciEstimate
                                (tasksOf devId tasks))
        /\ is_ceiling (div (of_Z (points e)) (capacity dev)) (days e)
        /\ (forall c, In c [1; 2; 4; 8] -> capacity dev = of_Z c ->
                      0 <= points e < 2 ^ 53 ->
                      days e = of_Z (exact_days (points e) (capacity dev))))
  /\ (forall devId e,
        In (devId, e) (breakdown (calculateParallelEstimate
                                    addDays today tasks developers)) ->
        exists dev,
          findDev developers devId = Some dev
          /\ tasksOf devId tasks <> []
          /\ points e = sumZ (map task_fibonacciEstimate
                                  (tasksOf devId tasks))
          /\ is_ceiling (div (of_Z (points e)) (capacity dev)) (days e))
  /\ (forall devId e,
        In (devId, e) (breakdown (calculateParallelEstimate
                                    addDays today tasks developers)) ->
        leb (days e)
            (totalDays (calculateParallelEstimate addDays today tasks
                                                  developers)) = true)
  /\ (breakdown (calculateParallelEstimate addDays today tasks developers)
      = [] ->
      totalDays (calculateParallelEstimate addDays today tasks developers)
      = zero)
  /\ (Forall (fun t => 0 <= task_fibonacciEstimate t) tasks ->
      breakdown (calculateParallelEstimate addDays today tasks developers)
      <> [] ->
      exists devId e,
        In (devId, e) (breakdown (calculateParallelEstimate
                                    addDays today tasks developers))
        /\ totalDays (calculateParallelEstimate addDays today tasks
                                                developers) = days e)
  /\ deliveryDate (calculateParallelEstimate addDays today tasks developers)
     = addDays today
         (totalDays (calculateParallelEstimate addDays today tasks
                                               developers)).
Proof.
  intros Hcap.
  assert (T : totalDays (calculateParallelEstimate addDays today tasks
                                                   developers)
              = fold_left Math_max
                  (map (fun e => days (snd e))
                       (breakdown (calculateParallelEstimate
                                     addDays today tasks developers)))
                  zero)
    by now rewrite parallel_totalDays, parallel_breakdown.
  split; [|split; [|split; [|split; [|split]]]].
  - intros k dev Hdev Hne. rewrite lookup_breakdown, Hdev.
    destruct (tasksOf k tasks) as [|t ts] eqn:E; [contradiction|].
    rewrite <- E. eexists. split; [reflexivity|]. cbn [de_name points days].
    split; [reflexivity|]. split; [apply sumPoints_sumZ|].
    split; [apply daysFor_is_ceiling|].
    intros c Hc Ec Hp. rewrite Ec, exact_days_small by exact Hc.
    now apply daysFor_small_capacity.
  - intros k e H. apply breakdown_entries in H.
    destruct H as (dev & Hdev & Hne & ->). exists dev.
    cbn [points days]. split; [exact Hdev|]. split; [exact Hne|].
    split; [apply sumPoints_sumZ|apply daysFor_is_ceiling].
  - intros k e H. rewrite T.
    apply fold_max_bounds;
      [now apply breakdown_days_numbers|].
    apply in_map_iff. now exists (k, e).
  - intros E. rewrite T, E. reflexivity.
  - intros Hpos Hne. rewrite T.
    pose proof (fold_max_attained _
                  (breakdown_days_zero_or_more addDays today tasks
                     developers Hcap Hpos)) as A.
    destruct (in_map_iff (fun e => days (snd e))
                (breakdown (calculateParallelEstimate addDays today tasks
                                                      developers))
                (fold_left Math_max
                   (map (fun e => days (snd e))
                        (breakdown (calculateParallelEstimate
                                      addDays today tasks developers)))
                   zero)) as [I _].
    destruct I as ([k e] & E & Hin).
    { apply A. intros C. apply map_eq_nil in C. contradiction. }
    exists k, e. split; [exact Hin|]. symmetry. exact E.
  - reflexivity.
Qed.

Lemma parallel_estimate_witness :
  leb (of_Z 2)
      (totalDays (calculateParallelEstimate plus_days 100 scenario_tasks
                                            scenario_developers)) = true.
Proof.
  refine (proj1 (proj2 (proj2 (parallel_estimate plus_days 100
                                 scenario_tasks scenario_developers
                                 scenario_capacities)))
                "dev-1"%string
                {| de_name := "Ann"; days := of_Z 2; points := 8 |} _).
  vm_compute. left. reflexivity.
Defined.

(** ** Task creation: the validation of a rating *)

Lemma of_Z_values :
  of_Z 0 = zero
  /\ of_Z 1 = S754_finite false 4503599627370496 (-52)
  /\ of_Z 2 = S754_finite false 4503599627370496 (-51)
  /\ of_Z 3 = S754_finite false 6755399441055744 (-51).
Proof. vm_compute. repeat split. Qed.

(** The three tests of the validation, on a well-formed number. *)
Lemma tests_admitted (x : number) :
  valid x = true ->
  isNaN x = false ->
  ltb x (of_Z 0) || ltb (of_Z 3) x = false ->
  Number_isInteger x = true ->
  admitted x.
Proof.
  intros Hv Hn Hr Hi. apply orb_false_iff in Hr. destruct Hr as [H0 H3].
  destruct x as [[|]|s| |[|] m e]; try discriminate.
  - now left.
  - right. exists 0. split; [lia|reflexivity].
  - right.
    assert (K : key_compare (key (of_Z 3)) (key (S754_finite false m e))
                <> Lt).
    { intros C. assert (T : ltb (of_Z 3) (S754_finite false m e) = true)
        by (apply ltb_key; repeat split; exact C).
      congruence. }
    rewrite key_compare_Lt in K.
    destruct of_Z_values as (_ & V1 & V2 & V3). rewrite V3 in K.
    cbn [key fst snd] in K.
    unfold valid, valid_binary, bounded, canonical_mantissa in Hv.
    apply andb_true_iff in Hv. destruct Hv as [Hc _].
    apply Z.eqb_eq in Hc.
    unfold fexp, SpecFloat.emin, prec, emax in Hc.
    destruct (digits_bounds m) as [Dl Du].
    set (d := Zpos (digits2_pos m)) in *.
    assert (Hd : d <= 53) by lia.
    assert (Hm : Zpos m < 2 ^ 53).
    { apply Z.lt_le_trans with (2 ^ d); [exact Du|].
      apply Z.pow_le_mono_r; lia. }
    destruct e as [|p|p]; try lia.
    cbn [Number_isInteger] in Hi. apply Z.eqb_eq in Hi.
    rewrite Z.pow_pos_fold in Hi.
    assert (P : 0 < 2 ^ Zpos p) by (apply Z.pow_pos_nonneg; lia).
    pose proof (Z.div_mod (Zpos m) (2 ^ Zpos p)) as E.
    rewrite Hi, Z.add_0_r in E. specialize (E ltac:(lia)).
    set (q := Zpos m / 2 ^ Zpos p) in *.
    assert (Hq : 1 <= q) by nia.
    assert (Hp : Zpos p < 53).
    { apply (Z.pow_lt_mono_r_iff 2); [lia|lia|]. nia. }
    assert (Hp' : p = 51%positive \/ p = 52%positive) by lia.
    assert (Hd' : d = 53) by lia.
    rewrite Hd' in Dl. change (2 ^ (53 - 1)) with 4503599627370496 in Dl.
    change (2 ^ 53) with 9007199254740992 in Hm.
    destruct Hp' as [-> | ->].
    + change (2 ^ 51) with 2251799813685248 in E.
      assert (Q : q = 2 \/ q = 3) by lia.
      destruct Q as [Q|Q]; rewrite Q in E.
      * exists 2. split; [lia|]. rewrite V2. f_equal. lia.
      * exists 3. split; [lia|]. rewrite V3. f_equal. lia.
    + change (2 ^ 52) with 4503599627370496 in E.
      assert (Q : q = 1) by lia. rewrite Q in E.
      exists 1. split; [lia|]. rewrite V1. f_equal. lia.
Qed.

Lemma admitted_tests (x : number) :
  admitted x ->
  isNaN x = false
  /\ ltb x (of_Z 0) || ltb (of_Z 3) x = false
  /\ Number_isInteger x = true.
Proof.
  intros [->|(z & Hz & ->)]; [vm_compute; repeat split|].
  assert (C : z = 0 \/ z = 1 \/ z = 2 \/ z = 3) by lia.
  destruct C as [->|[->|[->| ->]]]; vm_compute; repeat split.
Qed.

Section TaskCreation.

Variable parseFloat : string -> number.
Variable trim : string -> string.

Lemma validate_spec (inputVal : string) (v : number) :
  valid (parseFloat inputVal) = true ->
  (validate parseFloat trim inputVal = Some v
   <-> (trim inputVal = EmptyString /\ v = zero)
       \/ (trim inputVal <> EmptyString /\ v = parseFloat inputVal
           /\ admitted v)).
Proof.
  intros Hv. unfold validate.
  destruct (String.eqb_spec (trim inputVal) EmptyString) as [E|E].
  - split.
    + intros H. injection H as <-. left. now split.
    + intros [[_ ->]|[C _]]; [reflexivity|contradiction].
  - split.
    + intros H. right. split; [exact E|].
      destruct (isNaN (parseFloat inputVal)) eqn:T1; [discriminate|].
      destruct (ltb (parseFloat inputVal) (of_Z 0)
                || ltb (of_Z 3) (parseFloat inputVal)) eqn:T2;
        [discriminate|].
      destruct (Number_isInteger (parseFloat inputVal)) eqn:T3;
        [|discriminate].
      cbn [negb] in H. injection H as <-. split; [reflexivity|].
      now apply tests_admitted.
    + intros [[C _]|(_ & -> & A)]; [contradiction|].
      destruct (admitted_tests _ A) as (T1 & T2 & T3).
      now rewrite T1, T2, T3.
Qed.

Lemma validate_None (inputVal : string) :
  valid (parseFloat inputVal) = true ->
  (validate parseFloat trim inputVal = None <->
   trim inputVal <> EmptyString /\ ~ admitted (parseFloat inputVal)).
Proof.
  intros Hv. split.
  - intros N. split.
    + intros E.
      assert (V : validate parseFloat trim inputVal = Some zero)
        by (apply (validate_spec inputVal); [exact Hv|now left]).
      congruence.
    + intros A. destruct (String.eqb_spec (trim inputVal) EmptyString)
        as [E|E].
      * assert (V : validate parseFloat trim inputVal = Some zero)
          by (apply (validate_spec inputVal); [exact Hv|now left]).
        congruence.
      * assert (V : validate parseFloat trim inputVal
                    = Some (parseFloat inputVal))
          by (apply (validate_spec inputVal);
              [exact Hv|right; now repeat split]).
        congruence.
  - intros [E A].
    destruct (validate parseFloat trim inputVal) as [w|] eqn:V;
      [|reflexivity].
    apply (validate_spec inputVal) in V; [|exact Hv].
    destruct V as [[C _]|(_ & -> & A')]; contradiction.
Qed.

(** X14.  One round of the rating validation, for a text whose parse is a
    well-formed binary64 number: the text is taken, with value [v], exactly
    when it trims to the empty text and [v] is 0, or does not and [v] is its
    parse and one of 0, -0, 1, 2, 3; it is refused exactly when it does not
    trim to the empty text and its parse is none of these.  Fractions,
    numbers outside 0..3, infinities and NaN are refused. *)
Theorem validate_admits (inputVal : string) :
  valid (parseFloat inputVal) = true ->
  (forall v,
     validate parseFloat trim inputVal = Some v
     <-> (trim inputVal = EmptyString /\ v = zero)
         \/ (trim inputVal <> EmptyString /\ v = parseFloat inputVal
             /\ admitted v))
  /\ (validate parseFloat trim inputVal = None
      <-> trim inputVal <> EmptyString
          /\ ~ admitted (parseFloat inputVal)).
Proof.
  intros Hv. split.
  - intros v. now apply validate_spec.
  - now apply validate_None.
Qed.

Lemma readRating_spec (inputs : list string) (v : number) :
  readRating parseFloat trim inputs = Some v <->
  exists rejected inputVal rest,
    inputs = rejected ++ inputVal :: rest
    /\ Forall (fun s => validate parseFloat trim s = None) rejected
    /\ validate parseFloat trim inputVal = Some v.
Proof.
  induction inputs as [|s inputs IH]; cbn [readRating].
  - split; [discriminate|]. intros (r & i & t & E & _).
    destruct r; discriminate.
  - destruct (validate parseFloat trim s) as [w|] eqn:Es.
    + split.
      * intros H. exists [], s, inputs. injection H as <-.
        split; [reflexivity|]. split; [constructor|exact Es].
      * intros ([|r rs] & i & t & E & F & V).
        -- injection E as -> ->. congruence.
        -- injection E as -> ->. inversion F; congruence.
    + rewrite IH. split.
      * intros (r & i & t & -> & F & V). exists (s :: r), i, t.
        split; [reflexivity|]. split; [now constructor|exact V].
      * intros ([|r rs] & i & t & E & F & V).
        -- injection E as -> ->. congruence.
        -- injection E as -> ->. inversion F; subst.
           now exists rs, i, t.
Qed.

(** X15.  The validation loop returns the value of the first text that is
    taken, all earlier texts being refused, and that value is one of 0, -0,
    1, 2, 3; it goes on asking exactly as long as every text is refused. *)
Theorem readRating_first_valid (inputs : list string) :
  (forall s, valid (parseFloat s) = true) ->
  (forall v, readRating parseFloat trim inputs = Some v ->
     admitted v
     /\ exists rejected inputVal rest,
          inputs = rejected ++ inputVal :: rest
          /\ Forall (fun s => trim s <> EmptyString
                              /\ ~ admitted (parseFloat s)) rejected
          /\ (trim inputVal = EmptyString /\ v = zero
              \/ trim inputVal <> EmptyString /\ v = parseFloat inputVal))
  /\ (readRating parseFloat trim inputs = None <->
      Forall (fun s => trim s <> EmptyString /\ ~ admitted (parseFloat s))
             inputs).
Proof.
  intros Hv.
  assert (R : forall s, validate parseFloat trim s = None <->
                        trim s <> EmptyString /\ ~ admitted (parseFloat s))
    by (intros s; apply validate_None, Hv).
  split.
  - intros v H. apply readRating_spec in H.
    destruct H as (r & i & t & -> & F & V).
    apply (validate_spec i) in V; [|apply Hv]. split.
    + destruct V as [[_ ->]|(_ & _ & A)]; [|exact A].
      right. exists 0. split; [lia|reflexivity].
    + exists r, i, t. split; [reflexivity|]. split.
      * apply Forall_forall. intros s Hs. apply R.
        exact (proj1 (Forall_forall _ _) F s Hs).
      * destruct V as [[E ->]|(E & -> & _)]; [left|right]; now split.
  - induction inputs as [|s inputs IH]; cbn [readRating].
    + split; [constructor|reflexivity].
    + destruct (validate parseFloat trim s) as [w|] eqn:V.
      * split; [discriminate|]. intros F. inversion F; subst.
        apply R in H1. congruence.
      * rewrite IH. split.
        -- intros F. constructor; [now apply R|exact F].
        -- intros F. now inversion F.
Qed.

End TaskCreation.

(** ** Task creation: a rating of negative zero *)

Lemma binary_round_aux_unsigned (m e : Z) (l : location) :
  unsigned (binary_round_aux prec emax false m e l) = true.
Proof.
  unfold binary_round_aux.
  destruct (shr_fexp prec emax m e l) as [mrs' e'].
  destruct (shr_fexp prec emax
              (round_nearest_even (shr_m mrs') (loc_of_shr_record mrs'))
              e' loc_Exact) as [mrs'' e''].
  destruct (shr_m mrs''); [reflexivity| |reflexivity].
  destruct (e'' <=? emax - prec); reflexivity.
Qed.

Lemma add_unsigned (x y : number) :
  unsigned x = true -> unsigned y = true -> unsigned (add x y) = true.
Proof.
  destruct x as [[|]|[|]| |[|] mx ex], y as [[|]|[|]| |[|] my ey];
    intros Hx Hy; try discriminate; try reflexivity.
  unfold add, SFadd. cbn [cond_Zopp].
  unfold binary_normalize, binary_round.
  match goal with |- context [Zpos ?a + Zpos ?b] =>
    change (Zpos a + Zpos b) with (Zpos (a + b)) end.
  cbv beta iota.
  match goal with |- context [shl_align ?a ?b ?c] =>
    destruct (shl_align a b c) as [mz ez] end.
  apply binary_round_aux_unsigned.
Qed.

Lemma add_plain (acc v : number) :
  unsigned acc = true -> v = S754_zero true \/ v = zero ->
  add acc v = acc.
Proof.
  destruct acc as [[|]|[|]| |[|] m e]; intros Ha [-> | ->];
    try discriminate; reflexivity.
Qed.

Lemma mul_zero_weight (key : Factor) (s : bool) :
  mul (S754_zero s) (WEIGHTS key) = S754_zero s.
Proof. destruct key, s; vm_compute; reflexivity. Qed.

Lemma mul_rating_unsigned (key : Factor) (z : Z) :
  0 <= z <= 3 -> unsigned (mul (of_Z z) (WEIGHTS key)) = true.
Proof.
  intros Hz. assert (C : z = 0 \/ z = 1 \/ z = 2 \/ z = 3) by lia.
  destruct C as [->|[->|[->| ->]]]; destruct key; vm_compute; reflexivity.
Qed.

Lemma plain_rating (v : number) : rating_value v -> plain v = v.
Proof.
  intros (z & Hz & ->). assert (C : z = 0 \/ z = 1 \/ z = 2 \/ z = 3) by lia.
  destruct C as [->|[->|[->| ->]]]; vm_compute; reflexivity.
Qed.

Lemma plain_admitted (v : number) : admitted v -> rating_value (plain v).
Proof.
  intros [->|H].
  - exists 0. split; [lia|reflexivity].
  - now rewrite plain_rating.
Qed.

Lemma score_plain (g : Factor -> number) (keys : list Factor) :
  (forall key, admitted (g key)) ->
  forall acc, unsigned acc = true ->
    fold_left (fun sum kv => add sum (mul (snd kv) (WEIGHTS (fst kv))))
              (map (fun key => (key, g key)) keys) acc
    = fold_left (fun sum kv => add sum (mul (snd kv) (WEIGHTS (fst kv))))
                (map (fun key => (key, plain (g key))) keys) acc.
Proof.
  intros Hg. induction keys as [|key keys IH]; intros acc Ha;
    cbn [map fold_left fst snd]; [reflexivity|].
  destruct (Hg key) as [E|R].
  - rewrite E. cbn [plain]. unfold zero. rewrite !mul_zero_weight.
    rewrite (add_plain acc (S754_zero true) Ha (or_introl eq_refl)).
    rewrite (add_plain acc (S754_zero false) Ha (or_intror eq_refl)).
    now apply IH.
  - rewrite (plain_rating _ R). apply IH. apply add_unsigned; [exact Ha|].
    destruct R as (z & Hz & ->). now apply mul_rating_unsigned.
Qed.

Lemma get_plain (factors : EstimateFactors) (key : Factor) :
  get (plain_factors factors) key = plain (get factors key).
Proof. destruct key; reflexivity. Qed.

Lemma entries_plain (factors : EstimateFactors) :
  (forall key, admitted (get factors key)) ->
  fold_left (fun sum kv => add sum (mul (snd kv) (WEIGHTS (fst kv))))
            (entries factors) zero
  = fold_left (fun sum kv => add sum (mul (snd kv) (WEIGHTS (fst kv))))
              (entries (plain_factors factors)) zero.
Proof.
  intros H. unfold entries.
  rewrite (score_plain (get factors) factor_keys H zero eq_refl).
  reflexivity.
Qed.

Lemma entries_plain_estimate (factors : EstimateFactors) :
  (forall key, admitted (get factors key)) ->
  estimate factors = estimate (plain_factors factors).
Proof.
  intros H. unfold estimate. rewrite (entries_plain factors H). reflexivity.
Qed.

(** X16.  A rating of -0, which the validation lets through, counts as 0:
    when every factor is one of 0, -0, 1, 2, 3, the estimate is that of the
    same factors with -0 replaced by 0, which are ratings from 0 to 3. *)
Theorem estimate_plain (factors : EstimateFactors) :
  (forall key, admitted (get factors key)) ->
  is_rating (plain_factors factors)
  /\ estimate factors = estimate (plain_factors factors).
Proof.
  intros H. split.
  - intros key. rewrite get_plain. apply plain_admitted, H.
  - now apply entries_plain_estimate.
Qed.

Lemma estimate_plain_witness :
  estimate (mkFactors (S754_zero true) (of_Z 2) (of_Z 1) zero zero zero zero
                      (S754_zero true))
  = estimate (rating 0 2 1 0 0 0 0 0).
Proof.
  apply (estimate_plain
           (mkFactors (S754_zero true) (of_Z 2) (of_Z 1) zero zero zero zero
                      (S754_zero true))).
  intros key; destruct key; cbn [get f_uncertainty f_complexity f_testability
    f_legacyImpact f_integrationDifficulty f_refactorEffort f_dependencies
    f_requirementVolatility];
    first [left; reflexivity
          |right; exists 0; split; [lia|reflexivity]
          |right; exists 1; split; [lia|reflexivity]
          |right; exists 2; split; [lia|reflexivity]].
Defined.

(** ** The range of the score *)

Lemma all_in_score_range :
  forallb in_score_range
          (finals accumulate (fun a => a) table (zero, 0%Q)) = true.
Proof. vm_compute. reflexivity. Qed.

Lemma in_score_range_spec (x : number * Q) :
  in_score_range x = true ->
  leb zero (fst x) = true /\ leb (fst x) below_12_9 = true.
Proof. unfold in_score_range. apply andb_true_iff. Qed.

(** X17.  The range of the score: when every factor is one of 0, -0, 1, 2,
    3, the score is at least 0, the score of the all-zero rating, and at most
    12.899999999999999, the score of the all-three rating. *)
Theorem score_range (factors : EstimateFactors) :
  (forall key, admitted (get factors key)) ->
  leb zero (rawScore (estimate factors)) = true
  /\ leb (rawScore (estimate factors)) below_12_9 = true
  /\ leb (rawScore (estimate factors)) (rawScore (estimate all_three)) = true
  /\ leb (rawScore (estimate all_zero)) (rawScore (estimate factors)) = true.
Proof.
  intros H. rewrite (entries_plain_estimate factors H).
  assert (R : is_rating (plain_factors factors))
    by (intros key; rewrite get_plain; apply plain_admitted, H).
  destruct (is_rating_rating _ R) as (a & b & c & d & e & f & g & h & Hr & ->).
  assert (B : leb zero (rawScore (estimate (rating a b c d e f g h))) = true
              /\ leb (rawScore (estimate (rating a b c d e f g h)))
                     below_12_9 = true).
  { rewrite estimate_cells. apply in_score_range_spec.
    pose proof all_in_score_range as Hall. rewrite forallb_forall in Hall.
    apply Hall. apply (finals_In _ _ _ accumulate (fun x => x)).
    now apply cells_chosen. }
  assert (E3 : rawScore (estimate all_three) = below_12_9)
    by (vm_compute; reflexivity).
  assert (E0 : rawScore (estimate all_zero) = zero)
    by (vm_compute; reflexivity).
  rewrite E3, E0. tauto.
Qed.

Lemma score_range_witness :
  leb (rawScore (estimate (rating 0 1 0 0 0 3 0 3))) below_12_9 = true.
Proof.
  apply (score_range (rating 0 1 0 0 0 3 0 3)).
  intros key. right.
  destruct key; cbn [get rating f_uncertainty f_complexity
    f_testability f_legacyImpact f_integrationDifficulty f_refactorEffort
    f_dependencies f_requirementVolatility];
    eexists; (split; [|reflexivity]); lia.
Defined.

(** ** Task creation *)

Lemma Category_eqb_eq (c c' : Category) : Category_eqb c c' = true <-> c = c'.
Proof. destruct c, c'; cbn; split; intros H; try discriminate; reflexivity. Qed.

Lemma availableDevs_In (developers : list Developer) (category : Category)
    (d : Developer) :
  In d (availableDevs developers category)
  <-> In d developers /\ role d = category.
Proof. unfold availableDevs. now rewrite filter_In, Category_eqb_eq. Qed.

Lemma availableDevs_nil (developers : list Developer) (category : Category) :
  availableDevs developers category = []
  <-> Forall (fun d => role d <> category) developers.
Proof.
  split.
  - intros E. apply Forall_forall. intros d Hd C.
    assert (I : In d (availableDevs developers category))
      by (apply availableDevs_In; now split).
    rewrite E in I. destruct I.
  - intros F. destruct (availableDevs developers category) as [|d l] eqn:E;
      [reflexivity|exfalso].
    assert (I : In d (availableDevs developers category))
      by (rewrite E; now left).
    apply availableDevs_In in I. destruct I as [I R].
    exact (proj1 (Forall_forall _ _) F d I R).
Qed.

Section TaskProperties.

Variable parseFloat : string -> number.
Variable trim : string -> string.

Lemma readFactor_Returned (a : TaskAnswers) (key : Factor) (v : number) :
  readFactor parseFloat trim a key = Returned v ->
  readRating parseFloat trim (typed a key) = Some v.
Proof.
  unfold readFactor.
  destruct (readRating parseFloat trim (typed a key)) as [value|];
    [|discriminate].
  destruct (ltb (of_Z 0) value).
  - destruct (task_rejections a (NotePrompt key)); [discriminate|].
    cbn [await]. intros H. apply Returned_inj in H. now subst.
  - intros H. apply Returned_inj in H. now subst.
Qed.

Lemma readFactors_Returned (a : TaskAnswers) (factors : EstimateFactors) :
  readFactors parseFloat trim a = Returned factors ->
  forall key, readRating parseFloat trim (typed a key)
              = Some (get factors key).
Proof.
  unfold readFactors. intros H.
  destruct (readFactor parseFloat trim a uncertainty) as [u| |] eqn:Eu;
    try discriminate.
  destruct (readFactor parseFloat trim a complexity) as [c| |] eqn:Ec;
    try discriminate.
  destruct (readFactor parseFloat trim a testability) as [t| |] eqn:Et;
    try discriminate.
  destruct (readFactor parseFloat trim a legacyImpact) as [l| |] eqn:El;
    try discriminate.
  destruct (readFactor parseFloat trim a integrationDifficulty) as [i| |]
    eqn:Ei; try discriminate.
  destruct (readFactor parseFloat trim a refactorEffort) as [r| |] eqn:Er;
    try discriminate.
  destruct (readFactor parseFloat trim a dependencies) as [d| |] eqn:Ed;
    try discriminate.
  destruct (readFactor parseFloat trim a requirementVolatility) as [v| |]
    eqn:Ev; try discriminate.
  cbn [and_then] in H. apply Returned_inj in H. subst factors.
  intros key. destruct key; cbn [get f_uncertainty f_complexity
    f_testability f_legacyImpact f_integrationDifficulty f_refactorEffort
    f_dependencies f_requirementVolatility];
    now apply readFactor_Returned.
Qed.

Lemma createTask_Returned (developers : list Developer) (a : TaskAnswers)
    (task : Task) :
  createTask parseFloat trim developers a = Returned task ->
  availableDevs developers (taskCategory a) <> []
  /\ exists factors,
       readFactors parseFloat trim a = Returned factors
       /\ task = {| name := taskName a;
                    category := taskCategory a;
                    assignedTo := taskAssignedTo a;
                    factors := factors;
                    task_rawScore := rawScore (estimate factors);
                    task_fibonacciEstimate :=
                      fibonacciEstimate (estimate factors) |}.
Proof.
  unfold createTask. cbv zeta.
  destruct (task_rejections a TaskNamePrompt); [discriminate|].
  destruct (task_rejections a CategoryPrompt); [discriminate|].
  cbn [await].
  destruct (availableDevs developers (taskCategory a)) as [|d l];
    [discriminate|].
  destruct (task_rejections a AssignedToPrompt); [discriminate|].
  cbn [await].
  destruct (readFactors parseFloat trim a) as [factors| |];
    try discriminate.
  cbn [and_then]. intros H. apply Returned_inj in H.
  split; [discriminate|].
  exists factors. split; [reflexivity|]. symmetry. exact H.
Qed.

Lemma readFactor_Thrown (a : TaskAnswers) (key : Factor) (message : string) :
  readFactor parseFloat trim a key = Thrown message ->
  task_rejections a (NotePrompt key) = Some message.
Proof.
  unfold readFactor.
  destruct (readRating parseFloat trim (typed a key)) as [value|];
    [|discriminate].
  destruct (ltb (of_Z 0) value); [|discriminate].
  destruct (task_rejections a (NotePrompt key)) as [m|]; [|discriminate].
  cbn [await]. intros H. now injection H as ->.
Qed.

Lemma readFactors_Thrown (a : TaskAnswers) (message : string) :
  readFactors parseFloat trim a = Thrown message ->
  exists key, task_rejections a (NotePrompt key) = Some message.
Proof.
  unfold readFactors. intros H.
  repeat match type of H with
         | and_then (readFactor parseFloat trim a ?key) _ = _ =>
             let E := fresh "E" in
             destruct (readFactor parseFloat trim a key) as [?| |] eqn:E;
             cbn [and_then] in H;
             [|injection H as ->; exists key;
               now apply readFactor_Thrown|discriminate]
         end.
  discriminate.
Qed.

(** The errors of [createTask]: the one it makes itself, and those of the
    prompts. *)
Lemma createTask_Thrown (developers : list Developer) (a : TaskAnswers)
    (message : string) :
  createTask parseFloat trim developers a = Thrown message ->
  (task_rejections a TaskNamePrompt = None
   /\ task_rejections a CategoryPrompt = None
   /\ Forall (fun d => role d <> taskCategory a) developers
   /\ message = no_developers (taskCategory a))
  \/ exists prompt,
       prompt <> AnotherTaskPrompt
       /\ task_rejections a prompt = Some message.
Proof.
  unfold createTask. cbv zeta.
  destruct (task_rejections a TaskNamePrompt) as [m|] eqn:E1; cbn [await].
  { intros H. injection H as ->. right. exists TaskNamePrompt.
    split; [discriminate|exact E1]. }
  destruct (task_rejections a CategoryPrompt) as [m|] eqn:E2; cbn [await].
  { intros H. injection H as ->. right. exists CategoryPrompt.
    split; [discriminate|exact E2]. }
  destruct (availableDevs developers (taskCategory a)) as [|d l] eqn:Ed.
  { intros H. injection H as <-. left. apply availableDevs_nil in Ed.
    repeat split; assumption. }
  destruct (task_rejections a AssignedToPrompt) as [m|] eqn:E3; cbn [await].
  { intros H. injection H as ->. right. exists AssignedToPrompt.
    split; [discriminate|exact E3]. }
  destruct (readFactors parseFloat trim a) as [factors|m|] eqn:Ef;
    cbn [and_then]; try discriminate.
  intros H. injection H as ->. apply readFactors_Thrown in Ef.
  destruct Ef as (key & Ek). right. exists (NotePrompt key).
  split; [discriminate|exact Ek].
Qed.

Lemma createTask_no_developers (developers : list Developer)
    (a : TaskAnswers) :
  task_rejections a TaskNamePrompt = None ->
  task_rejections a CategoryPrompt = None ->
  Forall (fun d => role d <> taskCategory a) developers ->
  createTask parseFloat trim developers a
  = Thrown (no_developers (taskCategory a)).
Proof.
  intros E1 E2 F. apply availableDevs_nil in F.
  unfold createTask. cbv zeta. rewrite E1, E2. cbn [await].
  now rewrite F.
Qed.

(** X18.  The errors of [createTask].  An error that it throws is its own,
    for a category that no developer of the list has as role (the message
    names the category), or the error of one of its prompts, which
    rejected.  When no prompt rejects, it throws exactly when no developer
    has the chosen category as role.  A rejection of the name prompt is
    thrown whatever else is answered, one of the category prompt whenever
    the name prompt returned, and the error for a category without
    developers whenever both returned: no later prompt is reached. *)
Theorem createTask_throws (developers : list Developer) (a : TaskAnswers) :
  (forall message,
     createTask parseFloat trim developers a = Thrown message ->
     (Forall (fun d => role d <> taskCategory a) developers
      /\ message = no_developers (taskCategory a))
     \/ exists prompt,
          prompt <> AnotherTaskPrompt
          /\ task_rejections a prompt = Some message)
  /\ ((forall prompt, task_rejections a prompt = None) ->
      forall message,
        createTask parseFloat trim developers a = Thrown message <->
        Forall (fun d => role d <> taskCategory a) developers
        /\ message = no_developers (taskCategory a))
  /\ (forall message,
        task_rejections a TaskNamePrompt = Some message ->
        createTask parseFloat trim developers a = Thrown message)
  /\ (task_rejections a TaskNamePrompt = None ->
      forall message,
        task_rejections a CategoryPrompt = Some message ->
        createTask parseFloat trim developers a = Thrown message)
  /\ (task_rejections a TaskNamePrompt = None ->
      task_rejections a CategoryPrompt = None ->
      Forall (fun d => role d <> taskCategory a) developers ->
      createTask parseFloat trim developers a
      = Thrown (no_developers (taskCategory a))).
Proof.
  split; [|split; [|split; [|split]]].
  - intros message H. apply createTask_Thrown in H.
    destruct H as [(_ & _ & F & M)|(prompt & P & E)].
    + left. now split.
    + right. now exists prompt.
  - intros N message. split.
    + intros H. apply createTask_Thrown in H.
      destruct H as [(_ & _ & F & M)|(prompt & _ & E)]; [now split|].
      rewrite N in E. discriminate.
    + intros [F ->]. now apply createTask_no_developers.
  - intros message E. unfold createTask. now rewrite E.
  - intros E1 message E2. unfold createTask. now rewrite E1, E2.
  - apply createTask_no_developers.
Qed.

Lemma created_admitted (developers : list Developer) (a : TaskAnswers)
    (task : Task) :
  (forall s, valid (parseFloat s) = true) ->
  createTask parseFloat trim developers a = Returned task ->
  forall key, admitted (get (factors task) key).
Proof.
  intros Hv H key. apply createTask_Returned in H.
  destruct H as (_ & f & E & ->). cbn [factors].
  pose proof (readFactors_Returned _ _ E key) as R.
  apply readRating_spec in R. destruct R as (r & i & t & _ & _ & V).
  apply validate_spec in V; [|apply Hv].
  destruct V as [[_ ->]|(_ & _ & A)]; [|exact A].
  right. exists 0. split; [lia|reflexivity].
Qed.

(** X19.  A task that [createTask] returns has the name, the category and the
    developer answered; each of its factors is the value that the validation
    loop read for it, one of 0, -0, 1, 2, 3; its score is the score of these
    ratings (with -0 read as 0), its effort unit is that score rounded up, a
    member of the scale; and some developer has its category as role. *)
Theorem createTask_returns (developers : list Developer) (a : TaskAnswers)
    (task : Task) :
  (forall s, valid (parseFloat s) = true) ->
  createTask parseFloat trim developers a = Returned task ->
  (name task = taskName a /\ category task = taskCategory a
   /\ assignedTo task = taskAssignedTo a)
  /\ (forall key, admitted (get (factors task) key))
  /\ (forall key,
        readRating parseFloat trim (typed a key)
        = Some (get (factors task) key))
  /\ task_rawScore task = rawScore (estimate (plain_factors (factors task)))
  /\ task_fibonacciEstimate task = roundUpToFib (task_rawScore task)
  /\ In (task_fibonacciEstimate task) FIB_NUMS
  /\ exists dev, In dev developers /\ role dev = category task.
Proof.
  intros Hv H.
  pose proof (created_admitted developers a task Hv H) as A.
  apply createTask_Returned in H. destruct H as (N & f & E & ->).
  cbn [name category assignedTo factors task_rawScore task_fibonacciEstimate]
    in *.
  split; [repeat split|]. split; [exact A|].
  split; [apply readFactors_Returned, E|].
  split; [|split; [apply estimate_unit|split]].
  - now rewrite (entries_plain_estimate f A).
  - rewrite estimate_unit. apply roundUpToFib_member.
  - destruct (availableDevs developers (taskCategory a)) as [|d l] eqn:Ed;
      [now contradiction N|].
    exists d. apply availableDevs_In. rewrite Ed. now left.
Qed.

Lemma offered_developer (developers : list Developer) (category : Category)
    (devId : string) :
  In devId (map id (availableDevs developers category)) ->
  In devId (map id developers)
  /\ (NoDup (map id developers) ->
      exists dev, findDev developers devId = Some dev
                  /\ role dev = category).
Proof.
  intros H. apply in_map_iff in H. destruct H as (d & <- & Hd).
  apply availableDevs_In in Hd. destruct Hd as [Hd R]. split.
  - now apply in_map.
  - intros N. exists d. split; [now apply findDev_In|exact R].
Qed.

(** X20.  When the developer selected for a task is one of those offered (the
    developers whose role is the task's category), the task's developer id
    resolves in the developer list; and if the ids of the list are distinct,
    it resolves to a developer whose role is the task's category. *)
Theorem createTask_assignee (developers : list Developer) (a : TaskAnswers)
    (task : Task) :
  createTask parseFloat trim developers a = Returned task ->
  In (taskAssignedTo a)
     (map id (availableDevs developers (taskCategory a))) ->
  matched developers (assignedTo task) = true
  /\ (NoDup (map id developers) ->
      exists dev, findDev developers (assignedTo task) = Some dev
                  /\ role dev = category task).
Proof.
  intros H I. apply createTask_Returned in H.
  destruct H as (_ & f & _ & ->). cbn [assignedTo category].
  destruct (offered_developer _ _ _ I) as [I1 I2].
  split; [now apply matched_In|exact I2].
Qed.

Lemma addTasks_spec (developers : list Developer)
    (answers : list (TaskAnswers * bool)) :
  forall tasks0 tasks,
    addTasks parseFloat trim developers answers tasks0 = Returned tasks ->
    exists added,
      tasks = tasks0 ++ added
      /\ (1 <= List.length added <= List.length answers)%nat
      /\ Forall2 (fun t ta =>
                    createTask parseFloat trim developers (fst ta)
                    = Returned t)
                 added (firstn (List.length added) answers).
Proof.
  induction answers as [|[a another] answers IH]; intros tasks0 tasks H;
    cbn [addTasks] in H; [discriminate|].
  destruct (createTask parseFloat trim developers a) as [t| |] eqn:Et;
    try discriminate.
  destruct (task_rejections a AnotherTaskPrompt); [discriminate|].
  cbn [await] in H.
  destruct another.
  - apply IH in H. destruct H as (added & -> & L & F).
    exists (t :: added). rewrite <- app_assoc. split; [reflexivity|].
    cbn [List.length firstn]. split; [lia|].
    constructor; [exact Et|exact F].
  - apply Returned_inj in H. subst tasks. exists [t].
    split; [reflexivity|]. cbn [List.length firstn]. split; [lia|].
    constructor; [exact Et|constructor].
Qed.

End TaskProperties.

(** ** The session *)

Lemma Forall2_In_l {A B : Type} (R : A -> B -> Prop) (l : list A)
    (l' : list B) (x : A) :
  Forall2 R l l' -> In x l -> exists y, In y l' /\ R x y.
Proof.
  induction 1 as [|a b l l' Hab _ IH]; intros Hx; [destruct Hx|].
  destruct Hx as [<-|Hx].
  - exists b. split; [now left|exact Hab].
  - destruct (IH Hx) as (y & Hy & Hr). exists y. split; [now right|exact Hr].
Qed.

Lemma firstn_In {A : Type} (n : nat) (l : list A) (x : A) :
  In x (firstn n l) -> In x l.
Proof.
  revert l. induction n as [|n IH]; intros [|a l] H; cbn [firstn] in H;
    try destruct H as [<-|H]; try (now left); try contradiction.
  right. now apply IH.
Qed.

Lemma filter_all {A : Type} (f : A -> bool) (l : list A) :
  Forall (fun x => f x = true) l -> filter f l = l.
Proof.
  induction 1 as [|x l Hx _ IH]; cbn [filter]; [reflexivity|].
  now rewrite Hx, IH.
Qed.

Lemma matched_points {Date : Type} (addDays : Date -> number -> Date)
    (today : Date) (tasks : list Task) (developers : list Developer) :
  Forall (fun t => matched developers (assignedTo t) = true) tasks ->
  sumZ (map (fun e => points (snd e))
            (breakdown (calculateParallelEstimate addDays today tasks
                                                  developers)))
  = sumZ (map task_fibonacciEstimate tasks).
Proof.
  intros H. rewrite parallel_breakdown, estimatesOf_points.
  unfold tasksByDev. rewrite groupPoints_group.
  rewrite (filter_all _ _ H). reflexivity.
Qed.

Lemma sumZ_bounds (lo hi : Z) (l : list Z) :
  Forall (fun z => lo <= z <= hi) l ->
  lo * Z.of_nat (List.length l) <= sumZ l <= hi * Z.of_nat (List.length l).
Proof.
  induction 1 as [|z l Hz _ IH]; cbn [sumZ fold_right List.length]; [lia|].
  fold (sumZ l). lia.
Qed.

Lemma FIB_NUMS_bounds (u : Z) : In u FIB_NUMS -> 1 <= u <= 8.
Proof.
  cbn [FIB_NUMS In]. intros H.
  repeat (destruct H as [<-|H]; [lia|]). destruct H.
Qed.

Lemma main_Returned {Date : Type} (addDays : Date -> number -> Date)
    (parseFloat : string -> number) (trim : string -> string)
    (today today' : Date) (answers : Answers) (epic : Epic Date) :
  main addDays parseFloat trim today today' answers = Returned epic ->
  exists developers tasks,
    addDevelopers parseFloat (developer_answers answers)
    = Returned developers
    /\ addTasks parseFloat trim developers (task_answers answers) []
       = Returned tasks
    /\ epic
       = {| epic_name := epicName answers;
            epic_tasks := tasks;
            epic_developers := developers;
            epic_totalPoints :=
              totalPoints (calculateEpicEstimate addDays today tasks);
            epic_estimatedDays :=
              estimatedDays (calculateEpicEstimate addDays today tasks);
            epic_estimatedDeliveryDate :=
              estimatedDeliveryDate
                (calculateEpicEstimate addDays today tasks);
            epic_parallelEstimate :=
              calculateParallelEstimate addDays today' tasks developers |}.
Proof.
  unfold main. cbv zeta.
  destruct (epicName_rejection answers); [discriminate|]. cbn [await].
  destruct (addDevelopers parseFloat (developer_answers answers))
    as [developers| |]; try discriminate.
  cbn [and_then].
  destruct (addTasks parseFloat trim developers (task_answers answers) [])
    as [tasks| |] eqn:Et; try discriminate.
  cbn [and_then].
  destruct (calculateParallelEstimate_call addDays today' tasks developers)
    as [parallelEstimate| |] eqn:Ep; try discriminate.
  cbn [and_then]. apply call_Returned in Ep. subst parallelEstimate.
  intros H. apply Returned_inj in H. exists developers, tasks.
  split; [reflexivity|]. split; [exact Et|]. symmetry. exact H.
Qed.

(** X21.  The epic of a session in which every selected developer was one of
    those offered: there is at least one task; the developer ids are
    distinct; every task's developer exists, has the task's category as role
    and has an entry under their name in the breakdown; the points of the
    breakdown add up to the epic's total points; and the total points lie
    between the number of tasks and 8 times that number. *)
Theorem main_epic {Date : Type} (addDays : Date -> number -> Date)
    (parseFloat : string -> number) (trim : string -> string)
    (today today' : Date) (answers : Answers) (epic : Epic Date) :
  main addDays parseFloat trim today today' answers = Returned epic ->
  Forall (fun ta =>
            In (taskAssignedTo (fst ta))
               (map id (availableDevs (epic_developers epic)
                                      (taskCategory (fst ta)))))
         (task_answers answers) ->
  epic_tasks epic <> []
  /\ NoDup (map id (epic_developers epic))
  /\ (forall t, In t (epic_tasks epic) ->
        exists dev e,
          findDev (epic_developers epic) (assignedTo t) = Some dev
          /\ role dev = category t
          /\ lookup (assignedTo t) (breakdown (epic_parallelEstimate epic))
             = Some e
          /\ de_name e = dev_name dev)
  /\ sumZ (map (fun e => points (snd e))
               (breakdown (epic_parallelEstimate epic)))
     = epic_totalPoints epic
  /\ Z.of_nat (List.length (epic_tasks epic)) <= epic_totalPoints epic
     <= 8 * Z.of_nat (List.length (epic_tasks epic)).
Proof.
  intros H C. apply main_Returned in H.
  destruct H as (developers & tasks & Hd & Ht & ->).
  cbn [epic_tasks epic_developers epic_totalPoints epic_parallelEstimate]
    in *.
  apply addDevelopers_loop_spec in Hd.
  destruct Hd as (added & -> & _ & I & _). rewrite app_nil_l in *.
  assert (N : NoDup (map id added)) by (rewrite I; apply dev_ids_NoDup).
  apply addTasks_spec in Ht. destruct Ht as (made & -> & L & F).
  rewrite app_nil_l in *.
  assert (T : forall t, In t made ->
            exists a, In a (map fst (task_answers answers))
                      /\ createTask parseFloat trim added a = Returned t).
  { intros t Ht.
    destruct (Forall2_In_l _ _ _ _ F Ht) as ([a b] & Ha & Hc).
    exists a. split; [|exact Hc]. apply in_map_iff. exists (a, b).
    split; [reflexivity|]. eapply firstn_In. exact Ha. }
  assert (M : forall t, In t made ->
            matched added (assignedTo t) = true
            /\ exists dev, findDev added (assignedTo t) = Some dev
                           /\ role dev = category t).
  { intros t Ht. destruct (T t Ht) as (a & Ha & Hc).
    apply in_map_iff in Ha. destruct Ha as (ta & <- & Hta).
    pose proof (proj1 (Forall_forall _ _) C ta Hta) as O.
    apply createTask_Returned in Hc. destruct Hc as (_ & f & _ & ->).
    cbn [assignedTo category].
    destruct (offered_developer _ _ _ O) as [O1 O2].
    split; [now apply matched_In|now apply O2]. }
  split; [destruct made; [cbn in L; lia|discriminate]|].
  split; [exact N|]. split; [|split].
  - intros t Ht. destruct (M t Ht) as (_ & dev & Fd & R).
    rewrite lookup_breakdown, Fd.
    assert (I' : In t (tasksOf (assignedTo t) made)).
    { unfold tasksOf. apply filter_In. split; [exact Ht|].
      apply String.eqb_refl. }
    destruct (tasksOf (assignedTo t) made) as [|t' ts] eqn:E;
      [destruct I'|].
    eexists dev, _. split; [reflexivity|]. split; [exact R|].
    split; reflexivity.
  - rewrite matched_points;
      [cbn [calculateEpicEstimate totalPoints]; now rewrite sumPoints_sumZ|].
    apply Forall_forall. intros t Ht. exact (proj1 (M t Ht)).
  - cbn [calculateEpicEstimate totalPoints]. rewrite sumPoints_sumZ.
    pose proof (sumZ_bounds 1 8 (map task_fibonacciEstimate made)) as B.
    rewrite length_map in B. rewrite Z.mul_1_l in B. apply B.
    apply Forall_forall. intros u Hu. apply in_map_iff in Hu.
    destruct Hu as (t & <- & Ht). destruct (T t Ht) as (a & _ & Hc).
    apply createTask_Returned in Hc. destruct Hc as (_ & f & _ & ->).
    cbn [task_fibonacciEstimate]. apply FIB_NUMS_bounds.
    rewrite estimate_unit. apply roundUpToFib_member.
Qed.

Lemma addDevelopers_loop_Thrown (parseFloat : string -> number)
    (answers : list DeveloperAnswers) (message : string) :
  forall developers,
    addDevelopers_loop parseFloat answers developers = Thrown message ->
    exists a prompt,
      In a answers /\ developer_rejections a prompt = Some message.
Proof.
  induction answers as [|a answers IH]; intros developers H;
    cbn [addDevelopers_loop] in H; [discriminate|].
  destruct (developer_rejections a NamePrompt) as [m|] eqn:E1;
    cbn [await] in H.
  { injection H as ->. exists a, NamePrompt. split; [now left|exact E1]. }
  destruct (developer_rejections a RolePrompt) as [m|] eqn:E2;
    cbn [await] in H.
  { injection H as ->. exists a, RolePrompt. split; [now left|exact E2]. }
  destruct (developer_rejections a CapacityPrompt) as [m|] eqn:E3;
    cbn [await] in H.
  { injection H as ->. exists a, CapacityPrompt.
    split; [now left|exact E3]. }
  cbv zeta in H.
  destruct (developer_rejections a AnotherDeveloperPrompt) as [m|] eqn:E4;
    cbn [await] in H.
  { injection H as ->. exists a, AnotherDeveloperPrompt.
    split; [now left|exact E4]. }
  destruct (another_developer a); [|discriminate].
  apply IH in H. destruct H as (a' & prompt & Ha & E).
  exists a', prompt. split; [now right|exact E].
Qed.

(** The task loop ends with an error at the first task that throws, the
    tasks before it having been created and followed by another. *)
Lemma addTasks_Thrown (parseFloat : string -> number)
    (trim : string -> string) (developers : list Developer)
    (answers : list (TaskAnswers * bool)) (message : string) :
  Forall (fun ta => task_rejections (fst ta) AnotherTaskPrompt = None)
         answers ->
  forall tasks0,
    addTasks parseFloat trim developers answers tasks0 = Thrown message <->
    exists before a another rest,
      answers = before ++ (a, another) :: rest
      /\ Forall (fun ta =>
                   snd ta = true
                   /\ exists t, createTask parseFloat trim developers (fst ta)
                                = Returned t) before
      /\ createTask parseFloat trim developers a = Thrown message.
Proof.
  induction answers as [|[a another] answers IH]; intros N tasks0;
    cbn [addTasks].
  - split; [discriminate|]. intros (b & a & an & r & E & _).
    destruct b; discriminate.
  - inversion N as [|x l Na Nl]; subst. cbn [fst] in Na.
    destruct (createTask parseFloat trim developers a) as [t|m|] eqn:Ea.
    + rewrite Na. cbn [await]. destruct another.
      * rewrite (IH Nl). split.
        -- intros (b & a' & an & r & -> & F & T).
           exists ((a, true) :: b), a', an, r.
           split; [reflexivity|]. split; [|exact T].
           constructor; [|exact F]. split; [reflexivity|]. now exists t.
        -- intros ([|[a0 an0] b] & a' & an & r & E & F & T).
           ++ injection E as <- <- <-. congruence.
           ++ injection E as <- <- ->. inversion F; subst.
              now exists b, a', an, r.
      * split; [discriminate|].
        intros ([|[a0 an0] b] & a' & an & r & E & F & T).
        -- injection E as <- <- <-. congruence.
        -- injection E as <- <- ->. inversion F; subst.
           cbn [snd] in *. destruct H1 as [C _]. discriminate.
    + split.
      * intros H. injection H as ->. exists [], a, another, answers.
        split; [reflexivity|]. split; [constructor|exact Ea].
      * intros ([|[a0 an0] b] & a' & an & r & E & F & T).
        -- injection E as <- <- <-. congruence.
        -- injection E as <- <- ->. inversion F; subst.
           cbn [fst] in *. destruct H1 as [_ (t & C)]. congruence.
    + split; [discriminate|].
      intros ([|[a0 an0] b] & a' & an & r & E & F & T).
      * injection E as <- <- <-. congruence.
      * injection E as <- <- ->. inversion F; subst.
        cbn [fst] in *. destruct H1 as [_ (t & C)]. congruence.
Qed.

(** The tasks of the task loop are assigned as answered. *)
Lemma addTasks_assigned (parseFloat : string -> number)
    (trim : string -> string) (developers : list Developer)
    (answers : list (TaskAnswers * bool)) (tasks : list Task) :
  addTasks parseFloat trim developers answers [] = Returned tasks ->
  forall t, In t tasks ->
    exists ta, In ta answers /\ assignedTo t = taskAssignedTo (fst ta).
Proof.
  intros H t Ht. apply addTasks_spec in H.
  destruct H as (added & -> & _ & F). rewrite app_nil_l in Ht.
  destruct (Forall2_In_l _ _ _ _ F Ht) as (ta & Hta & Hc).
  exists ta. split; [eapply firstn_In; exact Hta|].
  apply createTask_Returned in Hc. destruct Hc as (_ & f & _ & ->).
  reflexivity.
Qed.

(** X22.  In a session in which no prompt rejects and no developer id
    selected is the name of an inherited property, [main] ends with an
    error, and without an epic, exactly when the team is complete and some
    task chooses a category that no developer of the team has as role,
    every task before it having been created and followed by another; the
    message names that category. *)
Theorem main_throws {Date : Type} (addDays : Date -> number -> Date)
    (parseFloat : string -> number) (trim : string -> string)
    (today today' : Date) (answers : Answers) (message : string) :
  no_rejection answers ->
  Forall (fun ta => inherited (taskAssignedTo (fst ta)) = false)
         (task_answers answers) ->
  (main addDays parseFloat trim today today' answers = Thrown message <->
   exists developers before a another rest,
     addDevelopers parseFloat (developer_answers answers)
     = Returned developers
     /\ task_answers answers = before ++ (a, another) :: rest
     /\ Forall (fun ta =>
                  snd ta = true
                  /\ exists t, createTask parseFloat trim developers (fst ta)
                               = Returned t) before
     /\ Forall (fun d => role d <> taskCategory a) developers
     /\ message = no_developers (taskCategory a)).
Proof.
  intros (N1 & N2 & N3) I.
  assert (NA : Forall (fun ta => task_rejections (fst ta) AnotherTaskPrompt
                                 = None) (task_answers answers)).
  { apply Forall_forall. intros ta Hta.
    exact (proj1 (Forall_forall _ _) N3 ta Hta AnotherTaskPrompt). }
  assert (T : forall developers,
            addTasks parseFloat trim developers (task_answers answers) []
            = Thrown message <->
            exists before a another rest,
              task_answers answers = before ++ (a, another) :: rest
              /\ Forall (fun ta =>
                           snd ta = true
                           /\ exists t, createTask parseFloat trim developers
                                          (fst ta) = Returned t) before
              /\ Forall (fun d => role d <> taskCategory a) developers
              /\ message = no_developers (taskCategory a)).
  { intros developers.
    rewrite (addTasks_Thrown parseFloat trim developers _ message NA).
    split.
    - intros (b & a & an & r & E & F & C).
      exists b, a, an, r. split; [exact E|]. split; [exact F|].
      assert (Na : forall prompt, task_rejections a prompt = None).
      { intros prompt.
        apply (proj1 (Forall_forall _ _) N3 (a, an)).
        rewrite E. apply in_or_app. right. now left. }
      apply createTask_Thrown in C.
      destruct C as [(_ & _ & R & M)|(prompt & _ & C)]; [now split|].
      rewrite Na in C. discriminate.
    - intros (b & a & an & r & E & F & R & ->).
      exists b, a, an, r. split; [exact E|]. split; [exact F|].
      assert (Na : forall prompt, task_rejections a prompt = None).
      { intros prompt.
        apply (proj1 (Forall_forall _ _) N3 (a, an)).
        rewrite E. apply in_or_app. right. now left. }
      now apply createTask_no_developers. }
  unfold main. rewrite N1. cbn [await].
  destruct (addDevelopers parseFloat (developer_answers answers))
    as [developers|m|] eqn:Ed; cbn [and_then].
  - destruct (addTasks parseFloat trim developers (task_answers answers) [])
      as [tasks|m|] eqn:Et; cbn [and_then].
    + assert (C : calculateParallelEstimate_call addDays today' tasks
                    developers
                  = Returned (calculateParallelEstimate addDays today' tasks
                                                        developers)).
      { rewrite call_spec.
        assert (E : existsb (fun t => inherited (assignedTo t)) tasks
                    = false).
        { destruct (existsb (fun t => inherited (assignedTo t)) tasks)
            eqn:E; [|reflexivity].
          apply existsb_exists in E. destruct E as (t & Ht & E).
          destruct (addTasks_assigned _ _ _ _ _ Et t Ht) as (ta & Hta & A).
          rewrite A in E.
          rewrite (proj1 (Forall_forall _ _) I ta Hta) in E.
          discriminate. }
        now rewrite E. }
      rewrite C. cbn [and_then]. split; [discriminate|].
      intros (ds & b & a & an & r & E & R). injection E as <-.
      assert (C' : addTasks parseFloat trim developers
                            (task_answers answers) [] = Thrown message).
      { apply T. now exists b, a, an, r. }
      congruence.
    + split.
      * intros H. injection H as ->. exists developers.
        destruct (proj1 (T developers) Et) as (b & a & an & r & R).
        exists b, a, an, r. split; [reflexivity|exact R].
      * intros (ds & b & a & an & r & E & R). injection E as <-.
        assert (C : addTasks parseFloat trim developers
                             (task_answers answers) [] = Thrown message).
        { apply T. now exists b, a, an, r. }
        congruence.
    + split; [discriminate|].
      intros (ds & b & a & an & r & E & R). injection E as <-.
      assert (C : addTasks parseFloat trim developers
                           (task_answers answers) [] = Thrown message).
      { apply T. now exists b, a, an, r. }
      congruence.
  - exfalso. apply addDevelopers_loop_Thrown in Ed.
    destruct Ed as (a & prompt & Ha & E).
    rewrite (proj1 (Forall_forall _ _) N2 a Ha prompt) in E. discriminate.
  - split; [discriminate|].
    intros (ds & b & a & an & r & E & _). discriminate.
Qed.

(** ** The name of the saved file *)

Local Open Scope N_scope.

Lemma is_safe_kept (c : N) :
  is_safe c = true ->
  kept c = true /\ is_space c = false /\ is_upper c = false.
Proof.
  unfold is_safe, kept, is_space, is_lower, is_upper, is_digit, hyphen.
  intros H.
  repeat rewrite ?orb_true_iff, ?andb_true_iff, ?orb_false_iff,
    ?andb_false_iff, ?N.leb_le, ?N.eqb_eq, ?N.leb_gt, ?N.eqb_neq in *.
  lia.
Qed.

Lemma kept_not_space (c : N) :
  kept c = true -> is_space c = false ->
  is_safe (if is_upper c then c + 32 else c) = true.
Proof.
  unfold is_safe, kept, is_space, is_lower, is_upper, is_digit, hyphen.
  intros H S.
  destruct ((65 <=? c) && (c <=? 90)) eqn:U;
    repeat rewrite ?orb_true_iff, ?andb_true_iff, ?orb_false_iff,
      ?andb_false_iff, ?N.leb_le, ?N.eqb_eq, ?N.leb_gt, ?N.eqb_neq in *;
    lia.
Qed.

Lemma toLowerCase_replace_safe (s : text) :
  Forall (fun c => kept c = true) s ->
  forall in_run,
    Forall (fun c => is_safe c = true)
           (toLowerCase (replace_spaces in_run s)).
Proof.
  unfold toLowerCase.
  induction 1 as [|c s Hc _ IH]; intros in_run; cbn [replace_spaces map].
  - constructor.
  - destruct (is_space c) eqn:S.
    + destruct in_run; [apply IH|].
      cbn [map]. constructor; [reflexivity|apply IH].
    + cbn [map]. constructor; [now apply kept_not_space|apply IH].
Qed.

Lemma filter_kept (name : text) :
  Forall (fun c => kept c = true) (filter kept name).
Proof. apply Forall_forall. intros c Hc. now apply filter_In in Hc. Qed.

Lemma safeEpicName_safe (name : text) :
  Forall (fun c => is_safe c = true) (safeEpicName name).
Proof. apply toLowerCase_replace_safe, filter_kept. Qed.

Lemma replace_spaces_length (s : text) :
  forall in_run,
    (List.length (replace_spaces in_run s) <= List.length s)%nat.
Proof.
  induction s as [|c s IH]; intros in_run; cbn [replace_spaces List.length];
    [lia|].
  pose proof (IH true). pose proof (IH false).
  destruct (is_space c); [destruct in_run|]; cbn [List.length]; lia.
Qed.

(** X23.  The name part of the saved file holds only lower-case letters,
    digits and hyphens, and is no longer than the epic's name.  With a date
    and a time of digits and hyphens, the file name holds only such
    characters and full stops: no slash and no backslash, whatever the epic
    is called. *)
Theorem safeEpicName_alphabet (name : text) :
  Forall (fun c => is_safe c = true) (safeEpicName name)
  /\ (List.length (safeEpicName name) <= List.length name)%nat
  /\ forall dateStr timeStr,
       Forall (fun c => is_safe c = true) dateStr ->
       Forall (fun c => is_safe c = true) timeStr ->
       Forall (fun c => is_safe c || (c =? 46) = true)
              (filename name dateStr timeStr)
       /\ ~ In 47 (filename name dateStr timeStr)
       /\ ~ In 92 (filename name dateStr timeStr).
Proof.
  split; [apply safeEpicName_safe|]. split.
  - unfold safeEpicName, toLowerCase. rewrite length_map.
    apply Nat.le_trans with (List.length (filter kept name)).
    + apply replace_spaces_length.
    + apply filter_length_le.
  - intros dateStr timeStr Hd Ht.
    assert (A : Forall (fun c => is_safe c || (c =? 46) = true)
                       (filename name dateStr timeStr)).
    { unfold filename. repeat rewrite Forall_app. repeat split.
      - eapply Forall_impl; [|apply safeEpicName_safe].
        intros c Hc. cbv beta in Hc. now rewrite Hc.
      - repeat constructor.
      - eapply Forall_impl; [|exact Hd].
        intros c Hc. cbv beta in Hc. now rewrite Hc.
      - repeat constructor.
      - eapply Forall_impl; [|exact Ht].
        intros c Hc. cbv beta in Hc. now rewrite Hc.
      - repeat constructor. }
    split; [exact A|]. split.
    + intros C. apply (proj1 (Forall_forall _ _) A) in C. discriminate.
    + intros C. apply (proj1 (Forall_forall _ _) A) in C. discriminate.
Qed.

Lemma safe_fixed (s : text) :
  Forall (fun c => is_safe c = true) s -> safeEpicName s = s.
Proof.
  intros H. unfold safeEpicName.
  assert (F : filter kept s = s).
  { induction H as [|c s Hc _ IH]; cbn [filter]; [reflexivity|].
    destruct (is_safe_kept c Hc) as (K & _ & _). now rewrite K, IH. }
  rewrite F. clear F. unfold toLowerCase.
  induction H as [|c s Hc _ IH]; cbn [replace_spaces map]; [reflexivity|].
  destruct (is_safe_kept c Hc) as (_ & S & U). rewrite S. cbn [map].
  now rewrite U, IH.
Qed.

(** X24.  Making a name safe twice is the same as once, and a name of
    lower-case letters, digits and hyphens is left as it is. *)
Theorem safeEpicName_idempotent (name : text) :
  safeEpicName (safeEpicName name) = safeEpicName name
  /\ (Forall (fun c => is_safe c = true) name -> safeEpicName name = name).
Proof.
  split; [apply safe_fixed, safeEpicName_safe|apply safe_fixed].
Qed.

Lemma replace_spaces_nil (s : text) :
  replace_spaces false s = [] -> s = [].
Proof.
  destruct s as [|c s]; [reflexivity|]. cbn [replace_spaces].
  destruct (is_space c); discriminate.
Qed.

(** X25.  The name part of the saved file is empty exactly when the epic's
    name has no letter, digit, white space or hyphen (an empty name, or one
    made of other characters only); the file name is then a hyphen followed
    by the date, a hyphen, the time and [.json]: it starts with a hyphen. *)
Theorem safeEpicName_empty (name : text) :
  (safeEpicName name = [] <-> Forall (fun c => kept c = false) name)
  /\ (safeEpicName name = [] ->
      forall dateStr timeStr,
        filename name dateStr timeStr
        = hyphen :: dateStr ++ [hyphen] ++ timeStr
                 ++ [46; 106; 115; 111; 110]).
Proof.
  split; [|intros E dateStr timeStr; unfold filename; now rewrite E].
  unfold safeEpicName, toLowerCase. split.
  - intros H. apply map_eq_nil in H. apply replace_spaces_nil in H.
    induction name as [|c name IH]; [constructor|].
    cbn [filter] in H. destruct (kept c) eqn:K; [discriminate|].
    constructor; [exact K|now apply IH].
  - intros H.
    assert (F : filter kept name = []).
    { induction H as [|c name Hc _ IH]; cbn [filter]; [reflexivity|].
      now rewrite Hc. }
    now rewrite F.
Qed.

Local Close Scope N_scope.

(** ** The session, run on the model *)

Lemma session_parseFloat_valid (s : string) :
  valid (session_parseFloat s) = true.
Proof.
  unfold session_parseFloat.
  destruct (find (fun kv => String.eqb (fst kv) s) session_numbers)
    as [kv|] eqn:E; [|reflexivity].
  apply find_some in E. destruct E as [E _].
  cbn [session_numbers In] in E.
  repeat (destruct E as [<-|E]; [reflexivity|]). destruct E.
Defined.

Example session_run :
  main plus_days session_parseFloat session_trim 100 100 session_answers
  = Returned session_epic
  /\ filename (epic_name session_epic)
              [50; 48; 50; 52; 45; 48; 49; 45; 49; 53]%N
              [49; 52; 45; 51; 48; 45; 52; 53]%N
     = [101; 112; 105; 99; 45; 49; 45; 50; 48; 50; 52; 45; 48; 49; 45; 49;
        53; 45; 49; 52; 45; 51; 48; 45; 52; 53; 46; 106; 115; 111; 110]%N.
Proof. split; vm_compute; reflexivity. Qed.

Lemma addDevelopers_ids_witness : NoDup (map id session_developers).
Proof.
  apply (addDevelopers_ids session_parseFloat session_developer_answers
           session_developers).
  reflexivity.
Defined.

Lemma addDevelopers_team_witness :
  Forall (fun d => truthy (capacity d) = true) session_developers.
Proof.
  apply (addDevelopers_team session_parseFloat session_developer_answers
           session_developers).
  reflexivity.
Defined.

Lemma validate_admits_witness :
  validate session_parseFloat session_trim "2" = Some (of_Z 2).
Proof.
  apply (proj1 (validate_admits session_parseFloat session_trim "2"
                  eq_refl) (of_Z 2)).
  right. split; [discriminate|]. split; [reflexivity|].
  right. exists 2. split; [lia|reflexivity].
Defined.

Lemma readRating_first_valid_witness :
  admitted (of_Z 1).
Proof.
  apply (proj1 (readRating_first_valid session_parseFloat session_trim
                  ["x"; "7"; "1"]%string session_parseFloat_valid)
               (of_Z 1)).
  reflexivity.
Defined.

Lemma createTask_returns_witness :
  In (task_fibonacciEstimate
        (mkTask "api" Backend "dev-1" (rating 1 2 1 0 0 0 0 0)
                (lit 24 10) 3))
     FIB_NUMS.
Proof.
  apply (createTask_returns session_parseFloat session_trim
           session_developers session_api
           (mkTask "api" Backend "dev-1" (rating 1 2 1 0 0 0 0 0)
                   (lit 24 10) 3) session_parseFloat_valid).
  vm_compute. reflexivity.
Defined.

Lemma createTask_assignee_witness :
  matched session_developers "dev-1" = true.
Proof.
  apply (createTask_assignee session_parseFloat session_trim
           session_developers session_api
           (mkTask "api" Backend "dev-1" (rating 1 2 1 0 0 0 0 0)
                   (lit 24 10) 3)).
  - vm_compute. reflexivity.
  - vm_compute. left. reflexivity.
Defined.

Lemma main_epic_witness :
  sumZ (map (fun e => points (snd e))
            (breakdown (epic_parallelEstimate session_epic)))
  = epic_totalPoints session_epic.
Proof.
  apply (main_epic plus_days session_parseFloat session_trim 100 100
           session_answers session_epic).
  - vm_compute. reflexivity.
  - repeat constructor; vm_compute; tauto.
Defined.

Lemma main_throws_witness :
  main plus_days session_parseFloat session_trim 100 100
       (mkAnswers [69; 112; 105; 99]%N None session_developer_answers
                  [(session_api, true); (session_logo, false)])
  = Thrown "No Design developers available".
Proof.
  apply (proj2 (main_throws plus_days session_parseFloat session_trim
                  100 100
                  (mkAnswers [69; 112; 105; 99]%N None
                             session_developer_answers
                             [(session_api, true); (session_logo, false)])
                  "No Design developers available"
                  ltac:(repeat constructor)
                  ltac:(repeat constructor))).
  exists session_developers, [(session_api, true)], session_logo, false, [].
  split; [vm_compute; reflexivity|]. split; [reflexivity|].
  split.
  - constructor; [|constructor]. split; [reflexivity|].
    eexists. vm_compute. reflexivity.
  - split; [|reflexivity]. repeat constructor; discriminate.
Defined.
